(** * georef-ar-api: the [normalizer] module of the service

    A shallow embedding of [service/normalizer.py] and the properties of
    its query normalisation and result composition pipeline.

    Python values are embedded as a small JSON-like universe, dictionaries
    as insertion-ordered association lists, exceptions as an explicit
    result type, and the stateful parts (the Flask application object, the
    connection pool, the calls to the data layer and the logger) as a
    state-and-exception monad over a [world] that survives a raised
    exception. *)

From Stdlib Require Import ZArith QArith List String Ascii Bool Lia.
From Stdlib Require Import DecimalString.
Import ListNotations.

Local Open Scope string_scope.
Local Open Scope list_scope.
Local Open Scope Z_scope.

(** ** Python values and exceptions *)

#[warnings="-register-all"] Inductive value : Type :=
| VNone : value
| VBool : bool -> value
| VInt : Z -> value
| VFloat : Q -> value
| VStr : string -> value
| VList : list value -> value
| VTuple : list value -> value
| VDict : list (string * value) -> value.

(** A [dict] keeps its keys in insertion order. *)
Definition dict : Type := list (string * value).

Inductive exn : Type :=
| KeyError (key : string)
| TypeError
| AttributeError
| IndexError
| ValueError (msg : string)
| PoolError
| DataConnectionException.

Inductive result (A : Type) : Type :=
| Ok (a : A)
| Raise (e : exn).

Arguments Ok {A} a.
Arguments Raise {A} e.

Definition rbind {A B} (r : result A) (k : A -> result B) : result B :=
  match r with
  | Ok a => k a
  | Raise e => Raise e
  end.

Declare Scope py_scope.
Delimit Scope py_scope with py.
Notation "x <- c ;; k" := (rbind c (fun x => k))
  (at level 61, c at next level, right associativity) : py_scope.
Notation "' pat <- c ;; k" := (rbind c (fun x => match x with pat => k end))
  (at level 61, pat pattern, c at next level, right associativity) : py_scope.

(** Truth value of an object, as tested by [if], [not] and [or]. *)
Definition truthy (v : value) : bool :=
  match v with
  | VNone => false
  | VBool b => b
  | VInt z => negb (z =? 0)
  | VFloat q => negb (Qeq_bool q 0)
  | VStr s => negb (s =? "")%string
  | VList l | VTuple l => match l with [] => false | _ => true end
  | VDict d => match d with [] => false | _ => true end
  end.

(** ** Dictionaries *)

Definition keys (d : dict) : list string := map fst d.

(** [d.get(k)], and [k in d] as [dict_get k d <> None]. *)
Fixpoint dict_get (k : string) (d : dict) : option value :=
  match d with
  | [] => None
  | (k', v) :: rest => if (k' =? k)%string then Some v else dict_get k rest
  end.

Definition dict_has (k : string) (d : dict) : bool :=
  match dict_get k d with Some _ => true | None => false end.

(** [d[k]] *)
Definition getitem (d : dict) (k : string) : result value :=
  match dict_get k d with
  | Some v => Ok v
  | None => Raise (KeyError k)
  end.

(** [d[k] = v]: an existing key keeps its position, a new one goes last. *)
Fixpoint setitem (d : dict) (k : string) (v : value) : dict :=
  match d with
  | [] => [(k, v)]
  | (k', v') :: rest =>
      if (k' =? k)%string then (k, v) :: rest else (k', v') :: setitem rest k v
  end.

Definition delitem (d : dict) (k : string) : dict :=
  filter (fun kv => negb (fst kv =? k)%string) d.

(** [d.pop(k)] without a default: the value and the remaining dictionary. *)
Definition pop (d : dict) (k : string) : result (value * dict) :=
  match dict_get k d with
  | Some v => Ok (v, delitem d k)
  | None => Raise (KeyError k)
  end.

(** A dictionary literal [{k1: v1, ..., kn: vn}]: later duplicates win. *)
Definition dict_literal (items : list (string * value)) : dict :=
  fold_left (fun acc kv => setitem acc (fst kv) (snd kv)) items [].

(** Keys of a Python dictionary are unique. *)
Definition wf_dict (d : dict) : Prop := NoDup (keys d).

(** [v[k]] for a string subscript [k]: only dictionaries accept it. *)
Definition subscript (v : value) (k : string) : result value :=
  match v with
  | VDict d => getitem d k
  | _ => Raise TypeError
  end.

(** ** Membership, comparison and formatting *)

Definition str_in_list (k : string) (l : list string) : bool :=
  existsb (fun x => (x =? k)%string) l.

Fixpoint is_substring (k s : string) : bool :=
  if prefix k s then true
  else match s with
       | EmptyString => false
       | String _ s' => is_substring k s'
       end.

(** [k in v] for a string [k]: element of a list or tuple, key of a
    dictionary, substring of a string; the other objects are not
    iterable. *)
Definition contains (k : string) (v : value) : result bool :=
  match v with
  | VList l | VTuple l =>
      Ok (existsb (fun x => match x with VStr s => (s =? k)%string | _ => false end) l)
  | VDict d => Ok (dict_has k d)
  | VStr s => Ok (is_substring k s)
  | _ => Raise TypeError
  end.

(** [v <= n] and [n <= v] for an integer [n]: numbers compare (a bool is
    the integer 0 or 1), everything else has no ordering with an int. *)
Definition le_value_int (v : value) (n : Z) : result bool :=
  match v with
  | VInt z => Ok (z <=? n)
  | VBool b => Ok (Z.b2z b <=? n)
  | VFloat q => Ok (Qle_bool q (inject_Z n))
  | _ => Raise TypeError
  end.

Definition le_int_value (n : Z) (v : value) : result bool :=
  match v with
  | VInt z => Ok (n <=? z)
  | VBool b => Ok (n <=? Z.b2z b)
  | VFloat q => Ok (Qle_bool (inject_Z n) q)
  | _ => Raise TypeError
  end.

(** [start <= number <= end]: the right comparison is evaluated only when
    the left one holds. *)
Definition chained_le (start : value) (number : Z) (end_ : value) : result bool :=
  (b <- le_value_int start number ;;
   if b then le_int_value number end_ else Ok false)%py.

(** ['{}'.format(number)] for an integer. *)
Definition str_of_int (n : Z) : string := NilZero.string_of_int (Z.to_int n).

(** [s.split(sep)] for a one-character separator: never empty. *)
Fixpoint split (sep : ascii) (s : string) : list string :=
  match s with
  | EmptyString => [EmptyString]
  | String c s' =>
      if Ascii.eqb c sep then EmptyString :: split sep s'
      else match split sep s' with
           | [] => [String c EmptyString]
           | p :: ps => String c p :: ps
           end
  end.

(** [sep.join(parts)] *)
Fixpoint join (sep : string) (parts : list string) : string :=
  match parts with
  | [] => EmptyString
  | [p] => p
  | p :: ps => p ++ sep ++ join sep ps
  end.

(** ** The names of [service.names] *)

(** Modelled from the spec: the string constants of [service/names.py]
    (the module [names] itself is not available).  The values follow the
    vocabulary of the specification; the development only relies on the
    constants that name different things being different strings. *)
Module N.
Definition ID := "id".
Definition NAME := "name".
Definition STATE := "state".
Definition DEPT := "department".
Definition MUN := "municipality".
Definition LAT := "lat".
Definition LON := "lon".
Definition SOURCE := "source".
Definition FLATTEN := "flatten".
Definition FIELDS := "fields".
Definition FORMAT := "format".
Definition CSV_FIELDS := "csv_fields".
Definition EXACT := "exact".
Definition ORDER := "order".
Definition OFFSET := "offset".
Definition ROAD_TYPE := "road_type".
Definition ADDRESS := "address".
Definition FULL_NAME := "full_name".
Definition DOOR_NUM := "door_number".
Definition GEOM := "geometry".
Definition START := "start".
Definition END := "end".
Definition LEFT := "left".
Definition RIGHT := "right".
Definition START_R := "door_number.start.right".
Definition END_L := "door_number.end.left".
Definition LOCATION := "location".
Definition LOCATION_LAT := "location.lat".
Definition LOCATION_LON := "location.lon".
Definition STATES := "states".
Definition DEPARTMENTS := "departments".
Definition MUNICIPALITIES := "municipalities".
Definition LOCALITIES := "localities".
Definition STREETS := "streets".
Definition ADDRESSES := "addresses".
Definition PLACE := "place".
Definition PLACES := "places".
Definition SOURCE_IGN := "IGN".
Definition SOURCE_BAHRA := "BAHRA".
Definition SOURCE_INDEC := "INDEC".
End N.

(** ** QueryResult *)

Record QueryResult : Type := mkQueryResult {
  entities : list dict;
  iterable : bool;
  total : Z;
  offset : Z
}.

(** [QueryResult.__init__] with its defaults [iterable=False, total=1,
    offset=0] written out at the two class methods. *)
Definition from_single_entity (entity : dict) : QueryResult :=
  mkQueryResult [entity] false 1 0.

Definition from_entity_list (ents : list dict) (tot off : Z) : QueryResult :=
  mkQueryResult ents true tot off.

Definition first_entity (qr : QueryResult) : result dict :=
  match entities qr with
  | e :: _ => Ok e
  | [] => Raise IndexError
  end.

(** ** get_index_source *)

Definition get_index_source (index : string) : result string :=
  if str_in_list index [N.STATES; N.DEPARTMENTS; N.MUNICIPALITIES]
  then Ok N.SOURCE_IGN
  else if (index =? N.LOCALITIES)%string then Ok N.SOURCE_BAHRA
  else if (index =? N.STREETS)%string then Ok N.SOURCE_INDEC
  else Raise (ValueError ("No se pudo determinar la fuente de: " ++ index)).

(** ** translate_keys *)

Definition keymap : Type := list (string * string).

(** [translations.get(key, key)] *)
Fixpoint translation (translations : keymap) (key : string) : string :=
  match translations with
  | [] => key
  | (k, k') :: rest => if (k =? key)%string then k' else translation rest key
  end.

(** The dictionary comprehension inserts the items of [d] one after the
    other into a new dictionary; [ignore] is [None] or a list. *)
Definition translate_keys (d : dict) (translations : keymap)
    (ignore : option (list string)) : dict :=
  let ignore := match ignore with
                | None | Some [] => []
                | Some l => l
                end in
  fold_left
    (fun acc kv =>
       if negb (str_in_list (fst kv) ignore)
       then setitem acc (translation translations (fst kv)) (snd kv)
       else acc)
    d [].

(** ** street_extents *)

Definition none_pair : value * value := (VNone, VNone).

(** The [for] loop over the combinations, with its early [return]. *)
Fixpoint first_extent (combinations : list (value * value)) (number : Z)
    : result (value * value) :=
  match combinations with
  | [] => Ok none_pair
  | (start, end_) :: rest =>
      (b <- chained_le start number end_ ;;
       if b then Ok (start, end_) else first_extent rest number)%py
  end.

Definition street_extents (door_nums : value) (number : Z) : result (value * value) :=
  (starts <- subscript door_nums N.START ;;
   start_r <- subscript starts N.RIGHT ;;
   starts <- subscript door_nums N.START ;;
   start_l <- subscript starts N.LEFT ;;
   ends <- subscript door_nums N.END ;;
   end_r <- subscript ends N.RIGHT ;;
   ends <- subscript door_nums N.END ;;
   end_l <- subscript ends N.LEFT ;;
   let combinations :=
     [(start_r, end_l); (start_l, end_r); (start_r, end_r); (start_l, end_l)] in
   first_extent combinations number)%py.

(** A door-number record [{start: {left, right}, end: {left, right}}]. *)
Definition door_numbers (start_l start_r end_l end_r : value) : value :=
  VDict [(N.START, VDict [(N.LEFT, start_l); (N.RIGHT, start_r)]);
         (N.END, VDict [(N.LEFT, end_l); (N.RIGHT, end_r)])].

(** ** Other operations of the handlers on values *)

(** [a, b = v]: unpacking an iterable of exactly two items (a dictionary
    iterates over its keys, a string over its characters). *)
Definition unpack2 (v : value) : result (value * value) :=
  match v with
  | VList [a; b] | VTuple [a; b] => Ok (a, b)
  | VList _ | VTuple _ => Raise (ValueError "unpack")
  | VDict [(a, _); (b, _)] => Ok (VStr a, VStr b)
  | VDict _ => Raise (ValueError "unpack")
  | VStr (String a (String b EmptyString)) =>
      Ok (VStr (String a EmptyString), VStr (String b EmptyString))
  | VStr _ => Raise (ValueError "unpack")
  | _ => Raise TypeError
  end.

(** [v + [x1, ..., xn]]: only a list can be extended by a list. *)
Definition list_add (v : value) (l : list value) : result value :=
  match v with
  | VList l0 => Ok (VList (l0 ++ l))
  | _ => Raise TypeError
  end.

(** [v.split(',')]: a method of strings. *)
Definition str_split (v : value) : result (list string) :=
  match v with
  | VStr s => Ok (split "," s)
  | _ => Raise AttributeError
  end.

(** [v.pop(k)] for a truthy object [v] and a string [k]. *)
Definition value_pop (v : value) (k : string) : result (value * value) :=
  match v with
  | VDict d => (' (x, d') <- pop d k ;; Ok (x, VDict d'))%py
  | VList _ => Raise TypeError
  | _ => Raise AttributeError
  end.

(** The door number of a query is the integer the address parser
    extracted (see the docstring of [street_extents]); the embedding types
    it as [Z] and rejects a query whose number is anything else. *)
Definition int_of (v : value) : result Z :=
  match v with
  | VInt z => Ok z
  | _ => Raise TypeError
  end.

Definition is_not_none (v : value) : bool :=
  match v with VNone => false | _ => true end.

(** [{key: d[key] for key in ks if key in d}] *)
Definition select_keys (ks : list string) (d : dict) : dict :=
  fold_left
    (fun acc k => match dict_get k d with
                  | Some v => setitem acc k v
                  | None => acc
                  end)
    ks [].

(** ** The collaborators: data layer, parameter parsers, formatter *)

Definition Connection : Type := nat.

Inductive Elasticsearch : Type := EsHandle.

(** Modelled from the spec: the connection pool of the relational store,
    an object of an external library with acquire/release semantics.
    [idle] are the connections that can still be handed out, [used] those
    checked out. *)
Record Pool : Type := mkPool {
  idle : list Connection;
  used : list Connection
}.

Module data.

(** Modelled from the spec: the result objects of the search backend
    (the module [service/data.py] is not available), each carrying its own
    hits, total and offset. *)
Record Result : Type := mkResult {
  hits : list dict;
  total : Z;
  offset : Z
}.

(** Modelled from the spec: a result of a point query is tested for
    truth by the normalizer; zero matches mean that the point is outside
    every known boundary, so a result is true when it has a hit. *)
Definition truth (r : Result) : bool :=
  match hits r with [] => false | _ => true end.

(** The functions of the data layer the normalizer calls.  Each either
    returns or raises (a [DataConnectionException] when the backend cannot
    be reached). *)
Record layer : Type := mkLayer {
  elasticsearch_connection : result Elasticsearch;
  postgres_db_connection_pool : result Pool;
  search_entities : Elasticsearch -> string -> list dict -> result (list Result);
  search_streets : Elasticsearch -> list dict -> result (list Result);
  search_places : Elasticsearch -> string -> list dict -> result (list Result);
  street_number_location :
    Connection -> value -> Z -> value -> value -> result value
}.

End data.

Module params.

(** A [ParameterSet]: parsing either yields the parameters or raises a
    [ParameterParsingException] whose [errors] are a flat list for a GET
    request and one list per item for a POST request. *)
Record ParameterSet : Type := mkParameterSet {
  parse_get_params : dict -> list value + dict;
  parse_post_params : dict -> value -> string -> list (list value) + list dict
}.

End params.

Module formatter.

(** The responses the formatter builds, one constructor per function of
    [service/formatter.py] the normalizer returns the result of. *)
Inductive Response : Type :=
| create_ok_response (name : string) (query_result : QueryResult) (fmt : dict)
| create_ok_response_bulk (name : string) (query_results : list QueryResult)
    (formats : list dict)
| create_param_error_response_single (errors : list value)
| create_param_error_response_bulk (errors : list (list value))
| create_internal_error_response.

(** The column tables of the formatter. *)
Record tables : Type := mkTables {
  ENDPOINT_CSV_FIELDS : dict;
  STREETS_CSV_FIELDS : value;
  ADDRESSES_CSV_FIELDS : value
}.

End formatter.

Record Request : Type := mkRequest {
  method : string;
  args : dict;
  json : value
}.

(** ** The world and its monad *)

Inductive event : Type :=
| EsConnect
| PoolCreate
| SearchEntities (index : string) (queries : list dict)
| SearchStreets (queries : list dict)
| SearchPlaces (index : string) (queries : list dict)
| GetConn (c : Connection)
| PutConn (c : Connection)
| StreetNumberLocation (c : Connection) (geom : value) (number : Z)
    (start end_ : value)
| LogException (msg : string).

(** [current_app] with its two lazily created attributes, and the trace of
    what was asked of the collaborators, oldest event first. *)
Record world : Type := mkWorld {
  app_elasticsearch : option Elasticsearch;
  app_postgres_pool : option Pool;
  trace : list event
}.

Definition M (A : Type) : Type := world -> result A * world.

Definition ret {A} (a : A) : M A := fun w => (Ok a, w).

Definition raise {A} (e : exn) : M A := fun w => (Raise e, w).

Definition lift {A} (r : result A) : M A := fun w => (r, w).

Definition bind {A B} (m : M A) (k : A -> M B) : M B :=
  fun w =>
    match m w with
    | (Ok a, w') => k a w'
    | (Raise e, w') => (Raise e, w')
    end.

Definition emit (e : event) : M unit :=
  fun w => (Ok tt, mkWorld (app_elasticsearch w) (app_postgres_pool w) (trace w ++ [e])).

Declare Scope m_scope.
Delimit Scope m_scope with M.
Notation "x <~ c ;; k" := (bind c (fun x => k))
  (at level 61, c at next level, right associativity) : m_scope.
Notation "' pat <~ c ;; k" := (bind c (fun x => match x with pat => k end))
  (at level 61, pat pattern, c at next level, right associativity) : m_scope.
Notation "c ;;; k" := (bind c (fun _ => k))
  (at level 61, right associativity) : m_scope.

(** [try: body except DataConnectionException: handler] *)
Definition try_except_connection {A} (body handler : M A) : M A :=
  fun w =>
    match body w with
    | (Raise DataConnectionException, w') => handler w'
    | other => other
    end.

(** The monadic [for] loop building a list. *)
Fixpoint mapM {A B} (f : A -> M B) (l : list A) : M (list B) :=
  match l with
  | [] => ret []
  | x :: xs => (y <~ f x ;; ys <~ mapM f xs ;; ret (y :: ys))%M
  end.

Fixpoint rmap {A B} (f : A -> result B) (l : list A) : result (list B) :=
  match l with
  | [] => Ok []
  | x :: xs => (y <- f x ;; ys <- rmap f xs ;; Ok (y :: ys))%py
  end.

(** ** The normalizer *)

Section Normalizer.

Variable D : data.layer.
Variable F : formatter.tables.

(** The parameter sets of [service/params.py] used by name. *)
Variable PARAMS_STREETS PARAMS_ADDRESSES PARAMS_PLACE : params.ParameterSet.

Definition with_elasticsearch (es : Elasticsearch) (w : world) : world :=
  mkWorld (Some es) (app_postgres_pool w) (trace w).

Definition with_pool (p : Pool) (w : world) : world :=
  mkWorld (app_elasticsearch w) (Some p) (trace w).

Definition with_event (e : event) (w : world) : world :=
  mkWorld (app_elasticsearch w) (app_postgres_pool w) (trace w ++ [e]).

(** The handle is created on first use and kept on the application. *)
Definition get_elasticsearch : M Elasticsearch :=
  fun w =>
    match app_elasticsearch w with
    | Some es => (Ok es, w)
    | None =>
        match data.elasticsearch_connection D with
        | Ok es => (Ok es, with_elasticsearch es (with_event EsConnect w))
        | Raise e => (Raise e, with_event EsConnect w)
        end
    end.

(** The pool is created on first use and kept on the application; the
    pool object itself lives in the world. *)
Definition get_postgres_db_connection_pool : M unit :=
  fun w =>
    match app_postgres_pool w with
    | Some _ => (Ok tt, w)
    | None =>
        match data.postgres_db_connection_pool D with
        | Ok p => (Ok tt, with_pool p (with_event PoolCreate w))
        | Raise e => (Raise e, with_event PoolCreate w)
        end
    end.

(** [pool.getconn()]: fails when no connection is left. *)
Definition getconn : M Connection :=
  fun w =>
    match app_postgres_pool w with
    | None => (Raise AttributeError, w)
    | Some p =>
        match idle p with
        | [] => (Raise PoolError, w)
        | c :: rest =>
            (Ok c, with_event (GetConn c) (with_pool (mkPool rest (c :: used p)) w))
        end
    end.

(** [pool.putconn(connection)] *)
Definition putconn (c : Connection) : M unit :=
  fun w =>
    match app_postgres_pool w with
    | None => (Raise AttributeError, w)
    | Some p =>
        (Ok tt,
         with_event (PutConn c)
           (with_pool (mkPool (c :: idle p) (remove Nat.eq_dec c (used p))) w))
    end.

(** The context manager: [body] is the block of the [with] statement; the
    [finally] clause runs whether the block returns or raises. *)
Definition get_postgres_db_connection {A} (body : Connection -> M A) : M A :=
  fun w =>
    match getconn w with
    | (Raise e, w1) => (Raise e, w1)
    | (Ok connection, w1) =>
        match body connection w1 with
        | (r, w2) =>
            match putconn connection w2 with
            | (Ok _, w3) => (r, w3)
            | (Raise e, w3) => (Raise e, w3)
            end
        end
    end.

(** The calls to the data layer leave an event in the trace. *)
Definition search_entities (es : Elasticsearch) (name : string)
    (queries : list dict) : M (list data.Result) :=
  (emit (SearchEntities name queries) ;;;
   lift (data.search_entities D es name queries))%M.

Definition search_streets (es : Elasticsearch) (queries : list dict)
    : M (list data.Result) :=
  (emit (SearchStreets queries) ;;; lift (data.search_streets D es queries))%M.

Definition search_places (es : Elasticsearch) (name : string)
    (queries : list dict) : M (list data.Result) :=
  (emit (SearchPlaces name queries) ;;;
   lift (data.search_places D es name queries))%M.

Definition street_number_location (connection : Connection) (geom : value)
    (number : Z) (start end_ : value) : M value :=
  (emit (StreetNumberLocation connection geom number start end_) ;;;
   lift (data.street_number_location D connection geom number start end_))%M.

Definition logger_exception (msg : string) : M unit := emit (LogException msg).

(** [l[0]] *)
Definition first {A} (l : list A) : result A :=
  match l with
  | x :: _ => Ok x
  | [] => Raise IndexError
  end.

(** [for match in result.hits: match[N.SOURCE] = source] *)
Definition tag_source (source : string) (result : data.Result) : data.Result :=
  data.mkResult
    (map (fun m => setitem m N.SOURCE (VStr source)) (data.hits result))
    (data.total result) (data.offset result).

Definition query_result_of (result : data.Result) : QueryResult :=
  from_entity_list (data.hits result) (data.total result) (data.offset result).

(** *** Entities *)

Definition process_entity_single (request : Request) (name : string)
    (param_parser : params.ParameterSet) (key_translations : keymap)
    : M formatter.Response :=
  match params.parse_get_params param_parser (args request) with
  | inl errors => ret (formatter.create_param_error_response_single errors)
  | inr qs_params =>
      let query := translate_keys qs_params key_translations
                     (Some [N.FLATTEN; N.FORMAT]) in
      let fmt := select_keys [N.FLATTEN; N.FIELDS; N.FORMAT] qs_params in
      (csv <~ lift (getitem (formatter.ENDPOINT_CSV_FIELDS F) name) ;;
       let fmt := setitem fmt N.CSV_FIELDS csv in
       es <~ get_elasticsearch ;;
       results <~ search_entities es name [query] ;;
       result <~ lift (first results) ;;
       source <~ lift (get_index_source name) ;;
       let result := tag_source source result in
       let query_result := query_result_of result in
       ret (formatter.create_ok_response name query_result fmt))%M
  end.

Definition process_entity_bulk (request : Request) (name : string)
    (param_parser : params.ParameterSet) (key_translations : keymap)
    : M formatter.Response :=
  match params.parse_post_params param_parser (args request) (json request) name with
  | inl errors => ret (formatter.create_param_error_response_bulk errors)
  | inr body_params =>
      let queries :=
        map (fun parsed_params =>
               translate_keys parsed_params key_translations
                 (Some [N.FLATTEN; N.FORMAT])) body_params in
      let formats :=
        map (fun parsed_params => select_keys [N.FLATTEN; N.FIELDS] parsed_params)
          body_params in
      (es <~ get_elasticsearch ;;
       results <~ search_entities es name queries ;;
       source <~ lift (get_index_source name) ;;
       let results := map (tag_source source) results in
       let query_results := map query_result_of results in
       ret (formatter.create_ok_response_bulk name query_results formats))%M
  end.

Definition log_prefix : string := "Excepción en manejo de consulta para recurso: ".

Definition process_entity (request : Request) (name : string)
    (param_parser : params.ParameterSet) (key_translations : keymap)
    : M formatter.Response :=
  try_except_connection
    (if (method request =? "GET")%string
     then process_entity_single request name param_parser key_translations
     else process_entity_bulk request name param_parser key_translations)
    (logger_exception (log_prefix ++ name) ;;;
     ret formatter.create_internal_error_response)%M.

(** *** Streets *)

Definition street_translations : keymap :=
  [(N.ID, "street_id"); (N.NAME, "road_name"); (N.STATE, "state");
   (N.DEPT, "department"); (N.EXACT, "exact"); (N.FIELDS, "fields");
   (N.ROAD_TYPE, "road_type"); (N.OFFSET, "offset"); (N.ORDER, "order")].

Definition build_street_query_format (parsed_params : dict) : dict * dict :=
  let query := translate_keys parsed_params street_translations
                 (Some [N.FLATTEN; N.FORMAT]) in
  let fmt := select_keys [N.FLATTEN; N.FIELDS; N.FORMAT] parsed_params in
  let fmt := setitem fmt N.CSV_FIELDS (formatter.STREETS_CSV_FIELDS F) in
  (query, fmt).

Definition process_street_single (request : Request)
    : M formatter.Response :=
  match params.parse_get_params PARAMS_STREETS (args request) with
  | inl errors => ret (formatter.create_param_error_response_single errors)
  | inr qs_params =>
      let '(query, fmt) := build_street_query_format qs_params in
      (es <~ get_elasticsearch ;;
       results <~ search_streets es [query] ;;
       result <~ lift (first results) ;;
       source <~ lift (get_index_source N.STREETS) ;;
       let result := tag_source source result in
       ret (formatter.create_ok_response N.STREETS (query_result_of result) fmt))%M
  end.

Definition process_street_bulk (request : Request)
    : M formatter.Response :=
  match params.parse_post_params PARAMS_STREETS (args request) (json request) N.STREETS with
  | inl errors => ret (formatter.create_param_error_response_bulk errors)
  | inr body_params =>
      let queries := map (fun p => fst (build_street_query_format p)) body_params in
      let formats := map (fun p => snd (build_street_query_format p)) body_params in
      (es <~ get_elasticsearch ;;
       results <~ search_streets es queries ;;
       source <~ lift (get_index_source N.STREETS) ;;
       let results := map (tag_source source) results in
       ret (formatter.create_ok_response_bulk N.STREETS
              (map query_result_of results) formats))%M
  end.

Definition process_street (request : Request)
    : M formatter.Response :=
  try_except_connection
    (if (method request =? "GET")%string
     then process_street_single request
     else process_street_bulk request)
    (logger_exception (log_prefix ++ "calles") ;;;
     ret formatter.create_internal_error_response)%M.

(** *** Addresses *)

(** The body of the loop over [result.hits] in [build_addresses_result]:
    the dictionary [street] is updated in place in the source and
    returned here. *)
Definition build_address_hit (connection : Connection) (fields : value)
    (number : Z) (source : string) (street : dict) : M dict :=
  (full_name_wanted <~ lift (contains N.FULL_NAME fields) ;;
   street <~ (if full_name_wanted : bool
              then (full_name <~ lift (getitem street N.FULL_NAME) ;;
                    parts <~ lift (str_split full_name) ;;
                    match parts with
                    | [] => raise IndexError
                    | part0 :: others =>
                        let parts := (part0 ++ " " ++ str_of_int number)%string :: others in
                        ret (setitem street N.FULL_NAME (VStr (join "," parts)))
                    end)
              else ret street) ;;
   ' (door_nums, street) <~ lift (pop street N.DOOR_NUM) ;;
   ' (start, end_) <~ lift (street_extents door_nums number) ;;
   ' (geom, street) <~ lift (pop street N.GEOM) ;;
   door_num_wanted <~ lift (contains N.DOOR_NUM fields) ;;
   let street := if door_num_wanted : bool
                 then setitem street N.DOOR_NUM (VInt number) else street in
   lat_wanted <~ lift (contains N.LOCATION_LAT fields) ;;
   location_wanted <~ (if lat_wanted : bool then ret true
                       else lift (contains N.LOCATION_LON fields)) ;;
   street <~ (if location_wanted && is_not_none start && is_not_none end_
              then (loc <~ street_number_location connection geom number start end_ ;;
                    ret (setitem street N.LOCATION loc))
              else ret street) ;;
   ret (setitem street N.SOURCE (VStr source)))%M.

Definition build_addresses_result (result : data.Result) (query : dict)
    (source : string) : M data.Result :=
  (fields <~ lift (getitem query "fields") ;;
   number <~ lift (number <- getitem query "number" ;; int_of number)%py ;;
   get_postgres_db_connection_pool ;;;
   get_postgres_db_connection (fun connection =>
     hits <~ mapM (build_address_hit connection fields number source)
               (data.hits result) ;;
     ret (data.mkResult hits (data.total result) (data.offset result))))%M.

Definition address_translations : keymap :=
  [(N.DEPT, "department"); (N.STATE, "state"); (N.EXACT, "exact");
   (N.ROAD_TYPE, "road_type"); (N.OFFSET, "offset"); (N.ORDER, "order")].

(** [parsed_params] is changed in place in the source; its callers do not
    use it afterwards. *)
Definition build_address_query_format (parsed_params : dict) : result (dict * dict) :=
  (' (address, parsed_params) <- pop parsed_params N.ADDRESS ;;
   ' (road_name, number) <- unpack2 address ;;
   let parsed_params := setitem parsed_params "road_name" road_name in
   let parsed_params := setitem parsed_params "number" number in
   let query := translate_keys parsed_params address_translations
                  (Some [N.FLATTEN; N.FORMAT; N.FIELDS]) in
   fields <- getitem parsed_params N.FIELDS ;;
   fields <- list_add fields [VStr N.GEOM; VStr N.START_R; VStr N.END_L] ;;
   let query := setitem query "fields" fields in
   let fmt := select_keys [N.FLATTEN; N.FIELDS; N.FORMAT] parsed_params in
   let fmt := setitem fmt N.CSV_FIELDS (formatter.ADDRESSES_CSV_FIELDS F) in
   Ok (query, fmt))%py.

Definition process_address_single (request : Request) : M formatter.Response :=
  match params.parse_get_params PARAMS_ADDRESSES (args request) with
  | inl errors => ret (formatter.create_param_error_response_single errors)
  | inr qs_params =>
      (' (query, fmt) <~ lift (build_address_query_format qs_params) ;;
       es <~ get_elasticsearch ;;
       results <~ search_streets es [query] ;;
       result <~ lift (first results) ;;
       source <~ lift (get_index_source N.STREETS) ;;
       result <~ build_addresses_result result query source ;;
       ret (formatter.create_ok_response N.ADDRESSES (query_result_of result) fmt))%M
  end.

(** [for result, query in zip(results, queries)]: the results beyond the
    shorter of the two lists are left as they are. *)
Fixpoint build_addresses_results (results : list data.Result)
    (queries : list dict) (source : string) : M (list data.Result) :=
  match results, queries with
  | result :: results', query :: queries' =>
      (result <~ build_addresses_result result query source ;;
       rest <~ build_addresses_results results' queries' source ;;
       ret (result :: rest))%M
  | _, _ => ret results
  end.

Definition process_address_bulk (request : Request) : M formatter.Response :=
  match params.parse_post_params PARAMS_ADDRESSES (args request) (json request)
          N.ADDRESSES with
  | inl errors => ret (formatter.create_param_error_response_bulk errors)
  | inr body_params =>
      (pairs <~ lift (rmap build_address_query_format body_params) ;;
       let queries := map fst pairs in
       let formats := map snd pairs in
       es <~ get_elasticsearch ;;
       results <~ search_streets es queries ;;
       source <~ lift (get_index_source N.STREETS) ;;
       results <~ build_addresses_results results queries source ;;
       ret (formatter.create_ok_response_bulk N.ADDRESSES
              (map query_result_of results) formats))%M
  end.

Definition process_address (request : Request) : M formatter.Response :=
  try_except_connection
    (if (method request =? "GET")%string
     then process_address_single request
     else process_address_bulk request)
    (logger_exception (log_prefix ++ "direcciones") ;;;
     ret formatter.create_internal_error_response)%M.

(** *** Places *)

Definition empty_entity : dict := dict_literal [(N.ID, VNone); (N.NAME, VNone)].

Definition build_place_result (query : dict) (dept muni : value) : result dict :=
  (' (state, dept, muni, source) <-
     (if negb (truthy dept)
      then Ok (VDict empty_entity, VDict empty_entity, VDict empty_entity, VNone)
      else (' (state, dept) <- value_pop dept N.STATE ;;
            let muni := if truthy muni then muni else VDict empty_entity in
            source <- get_index_source N.DEPARTMENTS ;;
            Ok (state, dept, muni, VStr source))) ;;
   lat <- getitem query "lat" ;;
   lon <- getitem query "lon" ;;
   Ok (dict_literal [(N.STATE, state); (N.DEPT, dept); (N.MUN, muni);
                     (N.LAT, lat); (N.LON, lon); (N.SOURCE, source)]))%py.

Definition build_place_query_format (parsed_params : dict) : dict * dict :=
  let query := translate_keys parsed_params [] (Some [N.FLATTEN; N.FORMAT]) in
  let fmt := select_keys [N.FLATTEN; N.FIELDS; N.FORMAT] parsed_params in
  (query, fmt).

Definition point_query (fields : list string) (query : dict) : result dict :=
  (lat <- getitem query "lat" ;;
   lon <- getitem query "lon" ;;
   Ok (dict_literal [("lat", lat); ("lon", lon);
                     ("fields", VList (map VStr fields))]))%py.

(** [result.hits[0] if result else None] *)
Definition first_hit (r : data.Result) : result value :=
  if data.truth r then (hit <- first (data.hits r) ;; Ok (VDict hit))%py
  else Ok VNone.

(** [for query, dept_result, muni_result in zip(...)] *)
Fixpoint build_places (queries : list dict)
    (dept_results muni_results : list data.Result) : result (list dict) :=
  match queries, dept_results, muni_results with
  | query :: queries', dept_result :: dept_results', muni_result :: muni_results' =>
      (dept <- first_hit dept_result ;;
       muni <- first_hit muni_result ;;
       place <- build_place_result query dept muni ;;
       places <- build_places queries' dept_results' muni_results' ;;
       Ok (place :: places))%py
  | _, _, _ => Ok []
  end.

Definition process_place_queries (es : Elasticsearch) (queries : list dict)
    : M (list dict) :=
  (dept_queries <~ lift (rmap (point_query [N.ID; N.NAME; N.STATE]) queries) ;;
   dept_results <~ search_places es N.DEPARTMENTS dept_queries ;;
   muni_queries <~ lift (rmap (point_query [N.ID; N.NAME]) queries) ;;
   muni_results <~ search_places es N.MUNICIPALITIES muni_queries ;;
   lift (build_places queries dept_results muni_results))%M.

Definition process_place_single (request : Request) : M formatter.Response :=
  match params.parse_get_params PARAMS_PLACE (args request) with
  | inl errors => ret (formatter.create_param_error_response_single errors)
  | inr qs_params =>
      let '(query, fmt) := build_place_query_format qs_params in
      (es <~ get_elasticsearch ;;
       places <~ process_place_queries es [query] ;;
       place <~ lift (first places) ;;
       let query_result := from_single_entity place in
       ret (formatter.create_ok_response N.PLACE query_result fmt))%M
  end.

Definition process_place_bulk (request : Request) : M formatter.Response :=
  match params.parse_post_params PARAMS_PLACE (args request) (json request)
          N.PLACES with
  | inl errors => ret (formatter.create_param_error_response_bulk errors)
  | inr body_params =>
      let queries := map (fun p => fst (build_place_query_format p)) body_params in
      let formats := map (fun p => snd (build_place_query_format p)) body_params in
      (es <~ get_elasticsearch ;;
       places <~ process_place_queries es queries ;;
       let query_results := map from_single_entity places in
       ret (formatter.create_ok_response_bulk N.PLACE query_results formats))%M
  end.

Definition process_place (request : Request) : M formatter.Response :=
  try_except_connection
    (if (method request =? "GET")%string
     then process_place_single request
     else process_place_bulk request)
    (logger_exception (log_prefix ++ "ubicacion") ;;;
     ret formatter.create_internal_error_response)%M.

End Normalizer.

(** ** Vocabulary of the statements *)

(** [door_nums[a][b]] *)
Definition boundary (door_nums : value) (a b : string) : result value :=
  (x <- subscript door_nums a ;; subscript x b)%py.

(** [start <= number <= end] on integers, as a test and as a proposition. *)
Definition within_b (number : Z) (c : Z * Z) : bool :=
  (fst c <=? number) && (number <=? snd c).

Definition within (number : Z) (c : Z * Z) : Prop :=
  fst c <= number <= snd c.

Definition int_pair (c : Z * Z) : value * value := (VInt (fst c), VInt (snd c)).

(** A boundary value as a record has it: an integer, or null where the
    side of the street has no numbering. *)
Definition bound (b : option Z) : value :=
  match b with
  | Some z => VInt z
  | None => VNone
  end.

Definition bound_pair (c : option Z * option Z) : value * value :=
  (bound (fst c), bound (snd c)).

(** What the test [start <= number <= end] does with a combination of two
    such values.  It is false, and no null is compared, when the start is
    an integer above the number (the end is then not looked at), or when
    both are integers and the end is below the number.  It compares a null
    when the start is null, or when the start is an integer at most the
    number and the end is null. *)
Definition fails (number : Z) (c : option Z * option Z) : Prop :=
  exists s,
    fst c = Some s
    /\ (number < s \/ exists e, snd c = Some e /\ s <= number /\ e < number).

Definition compares_null (number : Z) (c : option Z * option Z) : Prop :=
  fst c = None \/ exists s, fst c = Some s /\ s <= number /\ snd c = None.

(** The list [translate_keys] tests keys against: [ignore], or the empty
    list when [ignore] is [None]. *)
Definition ignore_list (ignore : option (list string)) : list string :=
  match ignore with
  | None => []
  | Some l => l
  end.

(** An item of [d] that is kept and whose key is renamed to [k']. *)
Definition renamed_to (translations : keymap) (ignore : option (list string))
    (k' : string) (kv : string * value) : bool :=
  negb (str_in_list (fst kv) (ignore_list ignore))
  && (translation translations (fst kv) =? k')%string.

(** One step of the comprehension of [translate_keys]. *)
Definition translate_item (translations : keymap) (ignore : list string)
    (acc : dict) (kv : string * value) : dict :=
  if negb (str_in_list (fst kv) ignore)
  then setitem acc (translation translations (fst kv)) (snd kv)
  else acc.

(** The stub [{id: None, name: None}] as the spec writes it. *)
Definition null_entity : value := VDict [(N.ID, VNone); (N.NAME, VNone)].

(** The municipality of a place whose department matched: the
    municipality match or the stub. *)
Definition municipality_or_stub (muni_result : data.Result) : value :=
  match data.hits muni_result with
  | [] => null_entity
  | [] :: _ => null_entity
  | muni :: _ => VDict muni
  end.

(** The department match of a point: the first hit of the department
    result, when there is one and it is not empty. *)
Definition department_match (dept_result : data.Result) : option dict :=
  match data.hits dept_result with
  | [] => None
  | [] :: _ => None
  | dept :: _ => Some dept
  end.

(** A location query carries its point. *)
Definition has_point (query : dict) : Prop :=
  exists lat lon, dict_get "lat" query = Some lat /\ dict_get "lon" query = Some lon.

(** A department match carries its state. *)
Definition state_embedded (dept_result : data.Result) : Prop :=
  forall dept,
    department_match dept_result = Some dept ->
    exists state, dict_get N.STATE dept = Some state.

(** The place composed for [query] from the results of the two layers. *)
Definition composed (query : dict) (dept_result muni_result : data.Result)
    (place : dict) : Prop :=
  dict_get N.LAT place = dict_get "lat" query
  /\ dict_get N.LON place = dict_get "lon" query
  /\ match department_match dept_result with
     | None =>
         dict_get N.STATE place = Some null_entity
         /\ dict_get N.DEPT place = Some null_entity
         /\ dict_get N.MUN place = Some null_entity
         /\ dict_get N.SOURCE place = Some VNone
     | Some dept =>
         exists state,
           dict_get N.STATE dept = Some state
           /\ dict_get N.STATE place = Some state
           /\ dict_get N.DEPT place = Some (VDict (delitem dept N.STATE))
           /\ dict_get N.MUN place = Some (municipality_or_stub muni_result)
           /\ get_index_source N.DEPARTMENTS = Ok N.SOURCE_IGN
           /\ dict_get N.SOURCE place = Some (VStr N.SOURCE_IGN)
     end.

(** [c in s] for a character. *)
Fixpoint has_char (c : ascii) (s : string) : bool :=
  match s with
  | EmptyString => false
  | String c' s' => Ascii.eqb c' c || has_char c s'
  end.

(** The full name of a street with the door number after its first
    comma-delimited segment: [segment] has no comma and [tail] is empty or
    starts with one. *)
Definition name_with_number (segment : string) (number : Z) (tail : string) : string :=
  (segment ++ " " ++ str_of_int number ++ tail)%string.

Definition comma_tail (tail : string) : Prop :=
  tail = EmptyString \/ exists t, tail = String "," t.

(** ** Sample collaborators for the examples *)

(** A data layer whose search returns, for every query, one street hit
    with full name, door numbers and geometry, and whose relational store
    answers every lookup. *)
Definition sample_street : dict :=
  [(N.ID, VStr "0200101");
   (N.FULL_NAME, VStr "Callao,CABA");
   (N.DOOR_NUM, door_numbers (VInt 100) (VInt 101) (VInt 200) (VInt 201));
   (N.GEOM, VStr "0105000020E6100000")].

Definition sample_location : value :=
  VDict [(N.LAT, VFloat (-346037 # 10000)); (N.LON, VFloat (-583816 # 10000))].

Definition sample_data : data.layer :=
  data.mkLayer
    (Ok EsHandle)
    (Ok (mkPool [0%nat; 1%nat] []))
    (fun _ _ queries => Ok (map (fun _ => data.mkResult [[(N.ID, VStr "06")]] 1 0) queries))
    (fun _ queries => Ok (map (fun _ => data.mkResult [sample_street] 1 0) queries))
    (fun _ _ queries => Ok (map (fun _ => data.mkResult [] 0 0) queries))
    (fun _ _ _ _ _ => Ok sample_location).

Definition sample_tables : formatter.tables :=
  formatter.mkTables [(N.STATES, VList [VStr N.ID; VStr N.NAME])] VNone VNone.

Definition new_world : world := mkWorld None None [].

Definition ready_world : world :=
  mkWorld (Some EsHandle) (Some (mkPool [0%nat; 1%nat] [])) [].

(** What [build_address_query_format] appends to the requested fields. *)
Definition internal_fields : list value :=
  [VStr N.GEOM; VStr N.START_R; VStr N.END_L].

(** A returned address hit: no geometry, and the door-number field only
    as the literal number, when [fields] has it. *)
Definition address_hit_clean (fields : value) (number : Z) (street : dict) : Prop :=
  dict_get N.GEOM street = None
  /\ exists wanted : bool,
      contains N.DOOR_NUM fields = Ok wanted
      /\ dict_get N.DOOR_NUM street = if wanted then Some (VInt number) else None.

(** ** Vocabulary of the resource discipline *)

Definition is_checkout (e : event) : bool :=
  match e with GetConn _ => true | _ => false end.

Definition is_release (e : event) : bool :=
  match e with PutConn _ => true | _ => false end.

Definition checkouts (t : list event) : nat := List.length (filter is_checkout t).

Definition releases (t : list event) : nat := List.length (filter is_release t).

(** An interpolation lookup made on connection [c]. *)
Definition uses_connection (c : Connection) (e : event) : Prop :=
  match e with
  | StreetNumberLocation c' _ _ _ _ => c' = c
  | _ => False
  end.

(** A computation that leaves the application as it is and only adds
    lookups on [c] to the trace, whether it returns or raises. *)
Definition lookups_only {A} (c : Connection) (m : M A) : Prop :=
  forall w r w',
    m w = (r, w') ->
    app_elasticsearch w' = app_elasticsearch w
    /\ app_postgres_pool w' = app_postgres_pool w
    /\ exists evs, trace w' = trace w ++ evs /\ Forall (uses_connection c) evs.

(** The pool of the application once [get_postgres_db_connection_pool]
    has run. *)
Definition pool_after (D : data.layer) (w : world) : option Pool :=
  match app_postgres_pool w with
  | Some p => Some p
  | None =>
      match data.postgres_db_connection_pool D with
      | Ok p => Some p
      | Raise _ => None
      end
  end.

Definition pool_creation (w : world) : list event :=
  match app_postgres_pool w with
  | Some _ => []
  | None => [PoolCreate]
  end.

(** An address query as [build_address_query_format] builds it. *)
Definition address_query (query : dict) : Prop :=
  exists fields number,
    dict_get "fields" query = Some fields
    /\ dict_get "number" query = Some (VInt number).

Definition is_ok {A} (r : result A) : bool :=
  match r with Ok _ => true | Raise _ => false end.

(** A parameter set for the examples: a GET request carries one address,
    a POST request two. *)
Definition sample_address (street : string) (number : Z) : dict :=
  [(N.ADDRESS, VTuple [VStr street; VInt number]);
   (N.FIELDS, VList [VStr N.ID; VStr N.FULL_NAME; VStr N.LOCATION_LAT])].

Definition sample_params : params.ParameterSet :=
  params.mkParameterSet
    (fun _ => inr (sample_address "Callao" 150))
    (fun _ _ _ => inr [sample_address "Callao" 150; sample_address "Santa Fe" 160]).

Definition sample_get : Request := mkRequest "GET" [] VNone.

Definition sample_post : Request := mkRequest "POST" [] VNone.

(** ** Vocabulary of the backend calls *)

Definition is_search (e : event) : bool :=
  match e with
  | SearchEntities _ _ | SearchStreets _ | SearchPlaces _ _ => true
  | _ => false
  end.

Definition searches (t : list event) : nat := List.length (filter is_search t).

(** The queries and the entities of the bulk path of [process_entity]. *)
Definition entity_queries (key_translations : keymap) (body_params : list dict)
    : list dict :=
  map (fun parsed_params =>
         translate_keys parsed_params key_translations (Some [N.FLATTEN; N.FORMAT]))
    body_params.

Definition tagged (source : string) (hits : list dict) : list dict :=
  map (fun m => setitem m N.SOURCE (VStr source)) hits.

(** A data layer that cannot reach the search backend. *)
Definition unreachable_data : data.layer :=
  data.mkLayer
    (Ok EsHandle)
    (Ok (mkPool [0%nat] []))
    (fun _ _ _ => Raise DataConnectionException)
    (fun _ _ => Raise DataConnectionException)
    (fun _ _ _ => Raise DataConnectionException)
    (fun _ _ _ _ _ => Raise DataConnectionException).

(** A data layer whose relational store fails on every lookup. *)
Definition failing_store : data.layer :=
  data.mkLayer
    (Ok EsHandle)
    (Ok (mkPool [0%nat; 1%nat] []))
    (fun _ _ queries => Ok (map (fun _ => data.mkResult [[(N.ID, VStr "06")]] 1 0) queries))
    (fun _ queries =>
       Ok (map (fun _ => data.mkResult [sample_street; sample_street] 2 0) queries))
    (fun _ _ queries => Ok (map (fun _ => data.mkResult [] 0 0) queries))
    (fun _ _ _ _ _ => Raise DataConnectionException).

Definition sample_entity_params : params.ParameterSet :=
  params.mkParameterSet
    (fun _ => inr [(N.NAME, VStr "salta"); (N.FLATTEN, VBool true)])
    (fun _ _ _ => inr [[(N.NAME, VStr "salta")]; [(N.ID, VStr "06")]]).

Definition state_translations : keymap :=
  [(N.ID, "entity_id"); (N.NAME, "name"); (N.EXACT, "exact"); (N.ORDER, "order");
   (N.FIELDS, "fields"); (N.OFFSET, "offset")].

Definition sample_address_query : dict :=
  [("road_name", VStr "Callao"); ("number", VInt 150);
   ("fields", VList [VStr N.ID; VStr N.LOCATION_LAT; VStr N.GEOM;
                     VStr N.START_R; VStr N.END_L])].

(** ** Vocabulary of the failure handling *)

Definition is_connection_failure {A} (r : result A) : bool :=
  match r with
  | Raise DataConnectionException => true
  | _ => false
  end.

(** The call to the data layer that a trace event records was answered
    by a [DataConnectionException].  A checkout, a release and a log entry
    are not calls to the data layer. *)
Definition unreachable (D : data.layer) (e : event) : bool :=
  match e with
  | EsConnect => is_connection_failure (data.elasticsearch_connection D)
  | PoolCreate => is_connection_failure (data.postgres_db_connection_pool D)
  | SearchEntities name queries =>
      is_connection_failure (data.search_entities D EsHandle name queries)
  | SearchStreets queries =>
      is_connection_failure (data.search_streets D EsHandle queries)
  | SearchPlaces name queries =>
      is_connection_failure (data.search_places D EsHandle name queries)
  | StreetNumberLocation c geom number start end_ =>
      is_connection_failure (data.street_number_location D c geom number start end_)
  | GetConn _ | PutConn _ | LogException _ => false
  end.

Definition is_log (e : event) : bool :=
  match e with LogException _ => true | _ => false end.

(** An event of a request that goes well: a call that the data layer
    answered, a checkout or a release. *)
Definition answered (D : data.layer) (e : event) : Prop :=
  unreachable D e = false /\ is_log e = false.

(** The events of an operation that a connectivity failure aborted:
    events of a request that goes well, then the call that was not
    answered, then nothing but the release of a connection.  No call is
    made after the one that failed, that one included. *)
Definition aborted (D : data.layer) (evs : list event) : Prop :=
  exists pre call post,
    evs = pre ++ call :: post
    /\ Forall (answered D) pre
    /\ unreachable D call = true
    /\ Forall (fun e => is_release e = true) post.

(** A computation that a connectivity failure aborts.  Whether it returns
    or raises, it adds events to the trace and keeps the pool of the
    application.  Either every call was answered, and then it does not
    raise a [DataConnectionException] and what it returns satisfies [Q];
    or the events are those of an aborted operation, and it raises a
    [DataConnectionException]. *)
Definition stops_at_failure (D : data.layer) {A} (Q : A -> Prop) (m : M A) : Prop :=
  forall w r w',
    m w = (r, w') ->
    (app_postgres_pool w <> None -> app_postgres_pool w' <> None)
    /\ exists evs,
        trace w' = trace w ++ evs
        /\ ((Forall (answered D) evs
             /\ r <> Raise DataConnectionException
             /\ forall a, r = Ok a -> Q a)
            \/ (aborted D evs /\ r = Raise DataConnectionException)).

(** What a handler does with the failures of a request.  A parsing
    failure is answered at once by the parameter-error response of the
    path, the world untouched.  A [DataConnectionException] never leaves
    the handler.  When every call to the data layer was answered, the
    response is not the internal-error response; when one was not, the
    operation was aborted there, one log entry naming the resource
    follows, and the response is the internal-error response. *)
Definition answers_failures (D : data.layer)
    (handler : Request -> M formatter.Response)
    (parser : params.ParameterSet) (bulk_name resource : string) : Prop :=
  forall (request : Request) (w : world),
    (method request = "GET" ->
     forall errors,
       params.parse_get_params parser (args request) = inl errors ->
       handler request w
       = (Ok (formatter.create_param_error_response_single errors), w))
    /\ (method request <> "GET" ->
        forall errors,
          params.parse_post_params parser (args request) (json request) bulk_name
          = inl errors ->
          handler request w
          = (Ok (formatter.create_param_error_response_bulk errors), w))
    /\ (forall r w',
          handler request w = (r, w') ->
          r <> Raise DataConnectionException
          /\ exists evs,
              trace w' = trace w ++ evs
              /\ ((Forall (answered D) evs
                   /\ r <> Ok formatter.create_internal_error_response)
                  \/ (exists evs0,
                        evs = evs0 ++ [LogException (log_prefix ++ resource)]
                        /\ aborted D evs0
                        /\ r = Ok formatter.create_internal_error_response))).

(** A computation that leaves the pool of the application as it is and
    adds as many checkouts as releases to the trace, at most [bound] of
    each, whether it returns or raises. *)
Definition balanced (D : data.layer) (p : Pool) (bound : nat) {A} (m : M A) : Prop :=
  forall w r w',
    pool_after D w = Some p ->
    m w = (r, w') ->
    pool_after D w' = Some p
    /\ exists k,
        (k <= bound)%nat
        /\ checkouts (trace w') = (checkouts (trace w) + k)%nat
        /\ releases (trace w') = (releases (trace w) + k)%nat.

(** The number of addresses of a bulk request: the parameter sets its
    body parses into. *)
Definition bulk_size (P : params.ParameterSet) (request : Request) : nat :=
  match params.parse_post_params P (args request) (json request) N.ADDRESSES with
  | inl _ => 0%nat
  | inr body_params => List.length body_params
  end.

Definition sample_point : dict :=
  [("lat", VFloat (-27 # 1)); ("lon", VFloat (-55 # 1)); (N.FLATTEN, VBool true)].

Definition sample_place_params : params.ParameterSet :=
  params.mkParameterSet (fun _ => inr sample_point) (fun _ _ _ => inr [sample_point]).

(** ** The handlers of the four administrative entities *)

Definition department_translations : keymap :=
  [(N.ID, "entity_id"); (N.NAME, "name"); (N.STATE, "state"); (N.EXACT, "exact");
   (N.ORDER, "order"); (N.FIELDS, "fields"); (N.OFFSET, "offset")].

Definition municipality_translations : keymap :=
  [(N.ID, "entity_id"); (N.NAME, "name"); (N.STATE, "state");
   (N.DEPT, "department"); (N.EXACT, "exact"); (N.ORDER, "order");
   (N.FIELDS, "fields"); (N.OFFSET, "offset")].

Definition locality_translations : keymap :=
  [(N.ID, "entity_id"); (N.NAME, "name"); (N.STATE, "state");
   (N.DEPT, "department"); (N.MUN, "municipality"); (N.EXACT, "exact");
   (N.ORDER, "order"); (N.FIELDS, "fields"); (N.OFFSET, "offset")].

Section EntityHandlers.

Variable D : data.layer.
Variable F : formatter.tables.

(** The parameter sets of [service/params.py] used by name. *)
Variable PARAMS_STATES PARAMS_DEPARTMENTS PARAMS_MUNICIPALITIES PARAMS_LOCALITIES
  : params.ParameterSet.

Definition process_state (request : Request) : M formatter.Response :=
  process_entity D F request N.STATES PARAMS_STATES state_translations.

Definition process_department (request : Request) : M formatter.Response :=
  process_entity D F request N.DEPARTMENTS PARAMS_DEPARTMENTS department_translations.

Definition process_municipality (request : Request) : M formatter.Response :=
  process_entity D F request N.MUNICIPALITIES PARAMS_MUNICIPALITIES
    municipality_translations.

Definition process_locality (request : Request) : M formatter.Response :=
  process_entity D F request N.LOCALITIES PARAMS_LOCALITIES locality_translations.

End EntityHandlers.

(** ** Vocabulary of the further statements *)

(** The items of [d] that [translate_keys] keeps, and an item renamed. *)
Definition kept (ignore : option (list string)) (kv : string * value) : bool :=
  negb (str_in_list (fst kv) (ignore_list ignore)).

Definition rename_item (translations : keymap) (kv : string * value)
    : string * value :=
  (translation translations (fst kv), snd kv).

(** The entities of a response, whatever its shape. *)
Definition response_entities (resp : formatter.Response) : list dict :=
  match resp with
  | formatter.create_ok_response _ query_result _ => entities query_result
  | formatter.create_ok_response_bulk _ query_results _ =>
      List.concat (map entities query_results)
  | _ => []
  end.

(** An interpolation lookup whose bounds contain the number. *)
Definition lookup_in_range (e : event) : Prop :=
  match e with
  | StreetNumberLocation _ _ number start end_ =>
      chained_le start number end_ = Ok true
      /\ is_not_none start = true /\ is_not_none end_ = true
  | _ => False
  end.

(** The fields [build_addresses_result] writes or removes in a hit. *)
Definition address_fields : list string :=
  [N.FULL_NAME; N.DOOR_NUM; N.GEOM; N.LOCATION; N.SOURCE].

(** The keys of a place, in the order of the dictionary literal. *)
Definition place_keys : list string :=
  [N.STATE; N.DEPT; N.MUN; N.LAT; N.LON; N.SOURCE].

(** A door-number record as the fields requested by
    [build_address_query_format] describe it: start-right and end-left
    only. *)
Definition requested_door_numbers (start_r end_l : value) : value :=
  VDict [(N.START, VDict [(N.RIGHT, start_r)]); (N.END, VDict [(N.LEFT, end_l)])].

(** A data layer that cannot be reached at all, not even to create the
    handle or the pool. *)
Definition dead_data : data.layer :=
  data.mkLayer
    (Raise DataConnectionException)
    (Raise DataConnectionException)
    (fun _ _ _ => Raise DataConnectionException)
    (fun _ _ => Raise DataConnectionException)
    (fun _ _ _ => Raise DataConnectionException)
    (fun _ _ _ _ _ => Raise DataConnectionException).

(** A data layer whose street hits have lost their geometry. *)
Definition no_geometry_data : data.layer :=
  data.mkLayer
    (Ok EsHandle)
    (Ok (mkPool [0%nat; 1%nat] []))
    (fun _ _ queries => Ok (map (fun _ => data.mkResult [[(N.ID, VStr "06")]] 1 0) queries))
    (fun _ queries =>
       Ok (map (fun _ => data.mkResult [delitem sample_street N.GEOM] 1 0) queries))
    (fun _ _ queries => Ok (map (fun _ => data.mkResult [] 0 0) queries))
    (fun _ _ _ _ _ => Ok sample_location).

(** The query and the format rules of the two paths of [process_entity]. *)
Definition entity_query (key_translations : keymap) (parsed_params : dict) : dict :=
  translate_keys parsed_params key_translations (Some [N.FLATTEN; N.FORMAT]).

Definition single_format (csv : value) (qs_params : dict) : dict :=
  setitem (select_keys [N.FLATTEN; N.FIELDS; N.FORMAT] qs_params) N.CSV_FIELDS csv.

Definition bulk_format (parsed_params : dict) : dict :=
  select_keys [N.FLATTEN; N.FIELDS] parsed_params.

(** The contract of the search backend on streets: as many results as
    queries. *)
Definition streets_contract (D : data.layer) : Prop :=
  forall es queries results,
    data.search_streets D es queries = Ok results ->
    List.length results = List.length queries.

(** An address entity as it is handed to the formatter, for a query with
    these fields and this number: tagged with the source of the streets,
    without geometry, and with a door number only when the fields have
    it, the queried number then. *)
Definition address_entity (fields : value) (number : Z) (hit : dict) : Prop :=
  dict_get N.SOURCE hit = Some (VStr N.SOURCE_INDEC)
  /\ address_hit_clean fields number hit.

(** Two addresses whose door number is asked for. *)
Definition door_number_params : params.ParameterSet :=
  params.mkParameterSet
    (fun _ => inr [(N.ADDRESS, VTuple [VStr "Callao"; VInt 150]);
                   (N.FIELDS, VList [VStr N.ID; VStr N.DOOR_NUM])])
    (fun _ _ _ =>
       inr [[(N.ADDRESS, VTuple [VStr "Callao"; VInt 150]);
             (N.FIELDS, VList [VStr N.ID; VStr N.DOOR_NUM])];
            [(N.ADDRESS, VTuple [VStr "Santa Fe"; VInt 160]);
             (N.FIELDS, VList [VStr N.ID; VStr N.DOOR_NUM])]]).

(** At most [n] events, each an interpolation lookup on connection [c]
    whose bounds contain the number. *)
Definition ranged_lookups (c : Connection) (n : nat) (evs : list event) : Prop :=
  (List.length evs <= n)%nat
  /\ Forall (fun e => uses_connection c e /\ lookup_in_range e) evs.

(** A computation that leaves the application as it is and adds to the
    trace events that satisfy [Q], whether it returns or raises. *)
Definition adds_events (Q : list event -> Prop) {A} (m : M A) : Prop :=
  forall w r w',
    m w = (r, w') ->
    app_elasticsearch w' = app_elasticsearch w
    /\ app_postgres_pool w' = app_postgres_pool w
    /\ exists evs, trace w' = trace w ++ evs /\ Q evs.

(** The full-name step of the loop goes through: the full name is not
    requested, or the hit has one, a string. *)
Definition full_name_ready (fields : value) (street : dict) : Prop :=
  contains N.FULL_NAME fields = Ok false
  \/ (contains N.FULL_NAME fields = Ok true
      /\ exists full, dict_get N.FULL_NAME street = Some (VStr full)).

(** A street hit whose door numbers do not contain the queried number. *)
Definition far_street : dict :=
  setitem sample_street N.DOOR_NUM
    (door_numbers (VInt 1000) (VInt 1001) (VInt 2000) (VInt 2001)).

(** The world once the pool of [D] is on the application. *)
Definition with_pool_created (D : data.layer) (w : world) : world :=
  match app_postgres_pool w, data.postgres_db_connection_pool D with
  | None, Ok p => with_pool p (with_event PoolCreate w)
  | _, _ => w
  end.

(** A data layer whose pool has no connection left. *)
Definition exhausted_data : data.layer :=
  data.mkLayer
    (Ok EsHandle)
    (Ok (mkPool [] [0%nat; 1%nat]))
    (fun _ _ queries => Ok (map (fun _ => data.mkResult [[(N.ID, VStr "06")]] 1 0) queries))
    (fun _ queries => Ok (map (fun _ => data.mkResult [sample_street] 1 0) queries))
    (fun _ _ queries => Ok (map (fun _ => data.mkResult [] 0 0) queries))
    (fun _ _ _ _ _ => Ok sample_location).

(** The two point queries built for a location query. *)
Definition dept_fields : list string := [N.ID; N.NAME; N.STATE].

Definition muni_fields : list string := [N.ID; N.NAME].

(** A point query [pq] built from [query] with the given fields. *)
Definition point_query_of (fields : list string) (query pq : dict) : Prop :=
  dict_get "lat" pq = dict_get "lat" query
  /\ dict_get "lon" pq = dict_get "lon" query
  /\ dict_get "fields" pq = Some (VList (map VStr fields))
  /\ keys pq = ["lat"; "lon"; "fields"].

(** A place built for [query]. *)
Definition place_of (query place : dict) : Prop :=
  keys place = place_keys
  /\ dict_get N.LAT place = dict_get "lat" query
  /\ dict_get N.LON place = dict_get "lon" query.

Definition min3 (a b c : nat) : nat := Nat.min a (Nat.min b c).

(** A data layer whose department search fails. *)
Definition no_departments_data : data.layer :=
  data.mkLayer
    (Ok EsHandle)
    (Ok (mkPool [0%nat; 1%nat] []))
    (fun _ _ queries => Ok (map (fun _ => data.mkResult [[(N.ID, VStr "06")]] 1 0) queries))
    (fun _ queries => Ok (map (fun _ => data.mkResult [sample_street] 1 0) queries))
    (fun _ name queries =>
       if (name =? N.DEPARTMENTS)%string then Raise DataConnectionException
       else Ok (map (fun _ => data.mkResult [] 0 0) queries))
    (fun _ _ _ _ _ => Ok sample_location).

(** * Properties *)

(** ** Dictionaries *)

Section DictFacts.

Implicit Types (d : dict) (k : string) (v : value).

Lemma dict_get_setitem_eq d k v : dict_get k (setitem d k v) = Some v.
Proof.
  induction d as [|[k0 v0] d IH]; simpl.
  - now rewrite String.eqb_refl.
  - destruct (k0 =? k)%string eqn:E; simpl.
    + now rewrite String.eqb_refl.
    + now rewrite E.
Qed.

Lemma dict_get_setitem_neq d k k' v :
  k <> k' -> dict_get k' (setitem d k v) = dict_get k' d.
Proof.
  intros Hne. induction d as [|[k0 v0] d IH]; simpl.
  - apply String.eqb_neq in Hne. now rewrite Hne.
  - destruct (k0 =? k)%string eqn:E; simpl.
    + apply String.eqb_eq in E. subst k0.
      apply String.eqb_neq in Hne. now rewrite Hne.
    + now rewrite IH.
Qed.

Lemma dict_get_delitem_eq d k : dict_get k (delitem d k) = None.
Proof.
  induction d as [|[k0 v0] d IH]; simpl; auto.
  destruct (k0 =? k)%string eqn:E; simpl; auto.
  now rewrite E.
Qed.

Lemma dict_get_delitem_neq d k k' :
  k <> k' -> dict_get k' (delitem d k) = dict_get k' d.
Proof.
  intros Hne. induction d as [|[k0 v0] d IH]; simpl; auto.
  destruct (k0 =? k)%string eqn:E; simpl.
  - apply String.eqb_eq in E. subst k0.
    apply String.eqb_neq in Hne. now rewrite Hne.
  - now rewrite IH.
Qed.

Lemma keys_setitem d k v x :
  In x (keys (setitem d k v)) <-> x = k \/ In x (keys d).
Proof.
  induction d as [|[k0 v0] d IH]; simpl.
  - intuition.
  - destruct (k0 =? k)%string eqn:E; simpl.
    + apply String.eqb_eq in E. subst k0. intuition.
    + rewrite IH. intuition.
Qed.

Lemma wf_setitem d k v : wf_dict d -> wf_dict (setitem d k v).
Proof.
  unfold wf_dict. induction d as [|[k0 v0] d IH]; simpl; intros Hwf.
  - constructor; [intros [] | constructor].
  - inversion Hwf as [|? ? Hnin Hd]; subst.
    destruct (k0 =? k)%string eqn:E; simpl.
    + apply String.eqb_eq in E. subst k0. now constructor.
    + constructor; [|now apply IH].
      intros Hin. apply keys_setitem in Hin. destruct Hin as [->|Hin].
      * now rewrite String.eqb_refl in E.
      * now apply Hnin.
Qed.

Lemma dict_get_in_keys d k v : dict_get k d = Some v -> In k (keys d).
Proof.
  induction d as [|[k0 v0] d IH]; simpl; [discriminate|].
  destruct (k0 =? k)%string eqn:E; intros H.
  - apply String.eqb_eq in E. now left.
  - right. now apply IH.
Qed.

Lemma dict_get_not_in_keys d k : ~ In k (keys d) -> dict_get k d = None.
Proof.
  induction d as [|[k0 v0] d IH]; simpl; auto. intros Hnin.
  destruct (k0 =? k)%string eqn:E.
  - apply String.eqb_eq in E. tauto.
  - apply IH. tauto.
Qed.

Lemma str_in_list_In k l : str_in_list k l = true <-> In k l.
Proof.
  unfold str_in_list. rewrite existsb_exists. split.
  - intros [x [Hin E]]. apply String.eqb_eq in E. now subst.
  - intros Hin. exists k. split; [assumption | apply String.eqb_refl].
Qed.

End DictFacts.

(** ** First match in a list *)

Lemma find_none_forall {A} (p : A -> bool) (l : list A) :
  find p l = None -> Forall (fun x => p x = false) l.
Proof.
  induction l as [|x l IH]; simpl; intros H; [constructor|].
  destruct (p x) eqn:E; [discriminate|]. constructor; auto.
Qed.

Lemma find_some_first {A} (p : A -> bool) (l : list A) (x : A) :
  find p l = Some x ->
  exists pre post,
    l = pre ++ x :: post /\ Forall (fun y => p y = false) pre /\ p x = true.
Proof.
  induction l as [|y l IH]; simpl; intros H; [discriminate|].
  destruct (p y) eqn:E.
  - inversion H; subst. exists [], l. repeat split; auto.
  - destruct (IH H) as (pre & post & -> & Hpre & Hx).
    exists (y :: pre), post. repeat split; auto.
Qed.

Lemma find_app {A} (p : A -> bool) (l1 l2 : list A) :
  find p (l1 ++ l2) = match find p l1 with
                      | Some x => Some x
                      | None => find p l2
                      end.
Proof.
  induction l1 as [|x l1 IH]; simpl; auto.
  destruct (p x); auto.
Qed.

(** ** street_extents *)

Lemma within_b_spec number c : within_b number c = true <-> within number c.
Proof.
  unfold within_b, within. rewrite andb_true_iff, !Z.leb_le. tauto.
Qed.

Lemma within_b_false number c : within_b number c = false <-> ~ within number c.
Proof.
  rewrite <- within_b_spec. destruct (within_b number c); intuition congruence.
Qed.

Lemma first_extent_ints (cs : list (Z * Z)) (number : Z) :
  first_extent (map int_pair cs) number
  = Ok (match find (within_b number) cs with
        | Some c => int_pair c
        | None => none_pair
        end).
Proof.
  induction cs as [|[s e] cs IH]; simpl; auto.
  unfold chained_le, within_b; simpl.
  destruct (s <=? number); simpl; auto.
  destruct (number <=? e); simpl; auto.
Qed.

Lemma street_extents_unfold door_nums number start_r start_l end_r end_l :
  boundary door_nums N.START N.RIGHT = Ok start_r ->
  boundary door_nums N.START N.LEFT = Ok start_l ->
  boundary door_nums N.END N.RIGHT = Ok end_r ->
  boundary door_nums N.END N.LEFT = Ok end_l ->
  street_extents door_nums number
  = first_extent
      [(start_r, end_l); (start_l, end_r); (start_r, end_r); (start_l, end_l)]
      number.
Proof.
  unfold boundary, street_extents. intros Hsr Hsl Her Hel.
  destruct (subscript door_nums N.START) as [starts|]; simpl in *; [|discriminate].
  destruct (subscript door_nums N.END) as [ends|]; simpl in *; [|discriminate].
  rewrite Hsr; simpl. rewrite Hsl; simpl. rewrite Her; simpl. now rewrite Hel.
Qed.

Lemma first_extent_bounds (cs : list (option Z * option Z)) (number : Z) :
  (exists pre s e post,
      cs = pre ++ (Some s, Some e) :: post
      /\ Forall (fails number) pre
      /\ s <= number <= e
      /\ first_extent (map bound_pair cs) number = Ok (VInt s, VInt e))
  \/ (Forall (fails number) cs
      /\ first_extent (map bound_pair cs) number = Ok (VNone, VNone))
  \/ (exists pre c post,
        cs = pre ++ c :: post
        /\ Forall (fails number) pre
        /\ compares_null number c
        /\ first_extent (map bound_pair cs) number = Raise TypeError).
Proof.
  induction cs as [|[[s|] e] cs IH].
  - right. left. split; [constructor | reflexivity].
  - assert (Hrec : fails number (Some s, e) ->
                   first_extent (map bound_pair ((Some s, e) :: cs)) number
                   = first_extent (map bound_pair cs) number ->
                   (exists pre s0 e0 post,
                       (Some s, e) :: cs = pre ++ (Some s0, Some e0) :: post
                       /\ Forall (fails number) pre
                       /\ s0 <= number <= e0
                       /\ first_extent (map bound_pair ((Some s, e) :: cs)) number
                          = Ok (VInt s0, VInt e0))
                   \/ (Forall (fails number) ((Some s, e) :: cs)
                       /\ first_extent (map bound_pair ((Some s, e) :: cs)) number
                          = Ok (VNone, VNone))
                   \/ (exists pre c post,
                         (Some s, e) :: cs = pre ++ c :: post
                         /\ Forall (fails number) pre
                         /\ compares_null number c
                         /\ first_extent (map bound_pair ((Some s, e) :: cs)) number
                            = Raise TypeError)).
    { intros Hfails ->.
      destruct IH as [(pre & s0 & e0 & post & -> & Hpre & Hin & Hrun)
                     |[(Hall & Hrun)|(pre & c & post & -> & Hpre & Hc & Hrun)]].
      - left. exists ((Some s, e) :: pre), s0, e0, post. repeat split; auto; lia.
      - right. left. split; auto.
      - right. right. exists ((Some s, e) :: pre), c, post. repeat split; auto. }
    destruct (Z.leb_spec s number) as [Hle|Hlt].
    + destruct e as [e|].
      * destruct (Z.leb_spec number e) as [Hle'|Hlt'].
        -- left. exists [], s, e, cs. repeat split; auto; try lia.
           simpl. unfold chained_le. simpl.
           apply Z.leb_le in Hle, Hle'. now rewrite Hle, Hle'.
        -- apply Hrec.
           ++ exists s. split; [reflexivity|]. right. exists e. auto.
           ++ simpl. unfold chained_le. simpl.
              apply Z.leb_le in Hle. apply Z.leb_gt in Hlt'.
              now rewrite Hle, Hlt'.
      * right. right. exists [], (Some s, None), cs. repeat split; auto.
        -- right. exists s. auto.
        -- simpl. unfold chained_le. simpl.
           apply Z.leb_le in Hle. now rewrite Hle.
    + apply Hrec.
      * exists s. split; [reflexivity|]. now left.
      * simpl. unfold chained_le. simpl.
        apply Z.leb_gt in Hlt. now rewrite Hlt.
  - right. right. exists [], (None, e), cs. repeat split; auto.
    now left.
Qed.

(** C1 (as the code has it).  For a door-number record that exposes the
    four boundary values, each an integer or null, and a queried number
    [n], [street_extents] goes through the combinations (start-right,
    end-left), (start-left, end-right), (start-right, end-right),
    (start-left, end-left) in this order, testing [start <= n <= end] on
    each.  It returns the first combination that passes, bounds included,
    when the test is false on every combination before it; it returns
    [(None, None)] when the test is false on all four; and it raises a
    [TypeError] at the first combination whose test compares a null,
    without going on to the next.  When the four values are integers the
    last case does not arise: the result is the first combination with
    [start <= n <= end], every earlier one failing it, and [(None, None)]
    when none of the four has it. *)
Theorem street_extents_first_combination :
  forall (door_nums : value) (start_r start_l end_r end_l : option Z) (n : Z),
    boundary door_nums N.START N.RIGHT = Ok (bound start_r) ->
    boundary door_nums N.START N.LEFT = Ok (bound start_l) ->
    boundary door_nums N.END N.RIGHT = Ok (bound end_r) ->
    boundary door_nums N.END N.LEFT = Ok (bound end_l) ->
    let combinations :=
      [(start_r, end_l); (start_l, end_r); (start_r, end_r); (start_l, end_l)] in
    ((exists pre s e post,
         combinations = pre ++ (Some s, Some e) :: post
         /\ Forall (fails n) pre
         /\ s <= n <= e
         /\ street_extents door_nums n = Ok (VInt s, VInt e))
     \/ (Forall (fails n) combinations
         /\ street_extents door_nums n = Ok (VNone, VNone))
     \/ (exists pre c post,
           combinations = pre ++ c :: post
           /\ Forall (fails n) pre
           /\ compares_null n c
           /\ street_extents door_nums n = Raise TypeError))
    /\ (forall sr sl er el,
          start_r = Some sr -> start_l = Some sl ->
          end_r = Some er -> end_l = Some el ->
          let integers := [(sr, el); (sl, er); (sr, er); (sl, el)] in
          (exists pre s e post,
              integers = pre ++ (s, e) :: post
              /\ Forall (fun c => ~ within n c) pre
              /\ s <= n <= e
              /\ street_extents door_nums n = Ok (VInt s, VInt e))
          \/ (Forall (fun c => ~ within n c) integers
              /\ street_extents door_nums n = Ok (VNone, VNone))).
Proof.
  intros door_nums start_r start_l end_r end_l n Hsr Hsl Her Hel combinations.
  rewrite (street_extents_unfold door_nums n _ _ _ _ Hsr Hsl Her Hel).
  split.
  - change [(bound start_r, bound end_l); (bound start_l, bound end_r);
            (bound start_r, bound end_r); (bound start_l, bound end_l)]
      with (map bound_pair combinations).
    apply first_extent_bounds.
  - intros sr sl er el -> -> -> -> integers.
    change [(bound (Some sr), bound (Some el)); (bound (Some sl), bound (Some er));
            (bound (Some sr), bound (Some er)); (bound (Some sl), bound (Some el))]
      with (map int_pair integers).
    rewrite first_extent_ints.
    destruct (find (within_b n) integers) as [[s e]|] eqn:Hfind.
    + left. apply find_some_first in Hfind.
      destruct Hfind as (pre & post & Heq & Hpre & Hin).
      exists pre, s, e, post. repeat split; auto.
      * eapply Forall_impl; [|exact Hpre]. intros c Hc. now apply within_b_false.
      * apply within_b_spec in Hin. apply Hin.
      * apply within_b_spec in Hin. apply Hin.
    + right. split; auto.
      apply find_none_forall in Hfind.
      eapply Forall_impl; [|exact Hfind]. intros c Hc. now apply within_b_false.
Qed.

Lemma street_extents_first_combination_witness :
  (exists pre s e post,
      [(101, 200); (100, 201); (101, 201); (100, 200)] = pre ++ (s, e) :: post
      /\ Forall (fun c => ~ within 150 c) pre
      /\ s <= 150 <= e
      /\ street_extents (door_numbers (VInt 100) (VInt 101) (VInt 200) (VInt 201)) 150
         = Ok (VInt s, VInt e))
  /\ (exists pre s e post,
        [(Some 200, None); (Some 100, Some 180); (Some 200, Some 180);
         (Some 100, None)] = pre ++ (Some s, Some e) :: post
        /\ Forall (fails 150) pre
        /\ s <= 150 <= e
        /\ street_extents (door_numbers (VInt 100) (VInt 200) VNone (VInt 180)) 150
           = Ok (VInt s, VInt e)).
Proof.
  split.
  - destruct (street_extents_first_combination
                (door_numbers (VInt 100) (VInt 101) (VInt 200) (VInt 201))
                (Some 101) (Some 100) (Some 201) (Some 200) 150
                eq_refl eq_refl eq_refl eq_refl) as [_ Hints].
    destruct (Hints 101 100 201 200 eq_refl eq_refl eq_refl eq_refl) as [H | [_ H]].
    + exact H.
    + vm_compute in H. discriminate H.
  - destruct (street_extents_first_combination
                (door_numbers (VInt 100) (VInt 200) VNone (VInt 180))
                (Some 200) (Some 100) (Some 180) None 150
                eq_refl eq_refl eq_refl eq_refl) as [[H | [[_ H] | H]] _].
    + exact H.
    + vm_compute in H. discriminate H.
    + destruct H as (pre & c & post & _ & _ & _ & H).
      vm_compute in H. discriminate H.
Defined.

(** C1, counterexample.  A street numbered on its left side only, from
    100 to 200: the record exposes the four boundary values, the two of
    the right side null.  The number 150 satisfies the fourth combination
    (start-left, end-left), yet [street_extents] returns neither this
    combination nor [(None, None)]: the first combination compares the
    null start-right value and raises. *)
Lemma street_extents_one_sided_record :
  let door_nums := door_numbers (VInt 100) VNone (VInt 200) VNone in
  boundary door_nums N.START N.RIGHT = Ok VNone
  /\ boundary door_nums N.START N.LEFT = Ok (VInt 100)
  /\ boundary door_nums N.END N.RIGHT = Ok VNone
  /\ boundary door_nums N.END N.LEFT = Ok (VInt 200)
  /\ within 150 (100, 200)
  /\ street_extents door_nums 150 = Raise TypeError.
Proof.
  simpl. repeat split; try reflexivity; unfold within; simpl; lia.
Qed.

(** The two examples of the specification. *)
Example street_extents_inside :
  street_extents (door_numbers (VInt 100) (VInt 101) (VInt 200) (VInt 201)) 150
  = Ok (VInt 101, VInt 200).
Proof. reflexivity. Qed.

Example street_extents_outside :
  street_extents (door_numbers (VInt 100) (VInt 101) (VInt 200) (VInt 201)) 9999
  = Ok (VNone, VNone).
Proof. reflexivity. Qed.

(** C10. [street_extents] only returns when the boundary values it
    compares can be ordered against the queried number.  With all four
    boundaries present: a null start-right value makes the first
    comparison raise a [TypeError]; so does a null end-left value once
    start-right is at most the number; neither case moves on to the next
    combination nor yields [(None, None)].  Conversely, whenever a value
    is returned, the first boundary compared was a number. *)
Theorem street_extents_null_boundary :
  forall (door_nums : value) (start_r start_l end_r end_l : value) (n : Z),
    boundary door_nums N.START N.RIGHT = Ok start_r ->
    boundary door_nums N.START N.LEFT = Ok start_l ->
    boundary door_nums N.END N.RIGHT = Ok end_r ->
    boundary door_nums N.END N.LEFT = Ok end_l ->
    (start_r = VNone -> street_extents door_nums n = Raise TypeError)
    /\ (forall sr, start_r = VInt sr -> sr <= n -> end_l = VNone ->
        street_extents door_nums n = Raise TypeError)
    /\ (forall r, street_extents door_nums n = Ok r ->
        exists b, le_value_int start_r n = Ok b).
Proof.
  intros door_nums start_r start_l end_r end_l n Hsr Hsl Her Hel.
  rewrite (street_extents_unfold door_nums n _ _ _ _ Hsr Hsl Her Hel).
  repeat split.
  - intros ->. reflexivity.
  - intros sr -> Hle ->. simpl. unfold chained_le; simpl.
    apply Z.leb_le in Hle. now rewrite Hle.
  - intros r. simpl. unfold chained_le.
    destruct (le_value_int start_r n) as [b|e]; simpl; [eauto | discriminate].
Qed.

Lemma street_extents_null_boundary_witness :
  street_extents (door_numbers (VInt 100) VNone (VInt 200) (VInt 201)) 150
  = Raise TypeError
  /\ street_extents (door_numbers (VInt 100) (VInt 101) VNone (VInt 201)) 150
     = Raise TypeError.
Proof.
  split.
  - apply (street_extents_null_boundary
             (door_numbers (VInt 100) VNone (VInt 200) (VInt 201))
             VNone (VInt 100) (VInt 201) (VInt 200) 150
             eq_refl eq_refl eq_refl eq_refl).
    reflexivity.
  - eapply (street_extents_null_boundary
             (door_numbers (VInt 100) (VInt 101) VNone (VInt 201))
             (VInt 101) (VInt 100) (VInt 201) VNone 150
             eq_refl eq_refl eq_refl eq_refl).
    + reflexivity.
    + lia.
    + reflexivity.
Defined.

(** ** translate_keys *)

Lemma translate_keys_fold d translations ignore :
  translate_keys d translations ignore
  = fold_left (translate_item translations (ignore_list ignore)) d [].
Proof. destruct ignore as [[|x l]|]; reflexivity. Qed.

Lemma translate_fold_wf translations ig d :
  forall acc, wf_dict acc ->
    wf_dict (fold_left (translate_item translations ig) d acc).
Proof.
  induction d as [|kv d IH]; simpl; intros acc Hacc; auto.
  apply IH. unfold translate_item.
  destruct (negb (str_in_list (fst kv) ig)); auto using wf_setitem.
Qed.

Lemma translate_fold_keys translations ig d :
  forall acc k',
    In k' (keys (fold_left (translate_item translations ig) d acc))
    <-> In k' (keys acc)
        \/ exists k, In k (keys d) /\ ~ In k ig /\ translation translations k = k'.
Proof.
  induction d as [|[k0 v0] d IH]; simpl; intros acc k'.
  - split; [tauto|]. intros [H|(k & [] & _)]; exact H.
  - rewrite IH. unfold translate_item; simpl.
    destruct (str_in_list k0 ig) eqn:E; simpl.
    + apply str_in_list_In in E. split.
      * intros [H|(k & Hk & Hnin & Ht)]; [now left|].
        right. exists k. tauto.
      * intros [H|(k & [Hk|Hk] & Hnin & Ht)]; [now left| |].
        -- subst k. tauto.
        -- right. exists k. tauto.
    + assert (Hnin0 : ~ In k0 ig).
      { intros Hin. apply str_in_list_In in Hin. congruence. }
      rewrite keys_setitem. split.
      * intros [[H|H]|(k & Hk & Hnin & Ht)].
        -- right. exists k0. auto.
        -- now left.
        -- right. exists k. tauto.
      * intros [H|(k & [Hk|Hk] & Hnin & Ht)].
        -- left. now right.
        -- subst k. left. left. now symmetry.
        -- right. exists k. tauto.
Qed.

Lemma translate_fold_get translations ignore d k' :
  forall acc,
    dict_get k' (fold_left (translate_item translations (ignore_list ignore)) d acc)
    = match find (renamed_to translations ignore k') (rev d) with
      | Some kv => Some (snd kv)
      | None => dict_get k' acc
      end.
Proof.
  induction d as [|[k0 v0] d IH]; simpl; intros acc; auto.
  rewrite IH, find_app.
  destruct (find (renamed_to translations ignore k') (rev d)); auto.
  simpl. unfold renamed_to, translate_item; simpl.
  destruct (str_in_list k0 (ignore_list ignore)); simpl; auto.
  destruct (translation translations k0 =? k')%string eqn:E.
  - apply String.eqb_eq in E. subst k'. apply dict_get_setitem_eq.
  - apply String.eqb_neq in E. now apply dict_get_setitem_neq.
Qed.

Lemma dict_get_In d k v : dict_get k d = Some v -> In (k, v) d.
Proof.
  induction d as [|[k0 v0] d IH]; simpl; [discriminate|].
  destruct (k0 =? k)%string eqn:E; intros H.
  - apply String.eqb_eq in E. inversion H; subst. now left.
  - right. now apply IH.
Qed.

Lemma wf_dict_functional d k v1 v2 :
  wf_dict d -> In (k, v1) d -> In (k, v2) d -> v1 = v2.
Proof.
  unfold wf_dict. induction d as [|[k0 v0] d IH]; simpl; intros Hwf H1 H2; [tauto|].
  inversion Hwf as [|? ? Hnin Hd]; subst.
  destruct H1 as [H1|H1], H2 as [H2|H2].
  - congruence.
  - inversion H1; subst. exfalso. apply Hnin.
    change k with (fst (k, v2)). now apply in_map.
  - inversion H2; subst. exfalso. apply Hnin.
    change k with (fst (k, v1)). now apply in_map.
  - now apply IH.
Qed.

(** C5 (as the code has it).  [translate_keys] returns a new dictionary
    (a function of its three arguments, which it leaves as they are) whose
    keys are exactly the keys of [d] that are not in [ignore], each renamed
    by [translations] when it has a translation and kept otherwise.  The
    value under a new key is the value [d] has for the last, in the order
    of [d], of the kept keys renamed to it; so every value is carried over
    unchanged as long as no two kept keys are renamed to the same key. *)
Theorem translate_keys_projection :
  forall (d : dict) (translations : keymap) (ignore : option (list string)),
    let r := translate_keys d translations ignore in
    wf_dict r
    /\ (forall k', In k' (keys r) <->
          exists k, In k (keys d) /\ ~ In k (ignore_list ignore)
                    /\ translation translations k = k')
    /\ (forall k', dict_get k' r
                   = option_map snd (find (renamed_to translations ignore k') (rev d)))
    /\ (forall k v,
          wf_dict d -> dict_get k d = Some v -> ~ In k (ignore_list ignore) ->
          (forall k2, In k2 (keys d) -> ~ In k2 (ignore_list ignore) ->
                      translation translations k2 = translation translations k ->
                      k2 = k) ->
          dict_get (translation translations k) r = Some v).
Proof.
  intros d translations ignore r. subst r.
  rewrite translate_keys_fold.
  assert (Hget : forall k',
             dict_get k' (fold_left (translate_item translations (ignore_list ignore)) d [])
             = option_map snd (find (renamed_to translations ignore k') (rev d))).
  { intros k'. rewrite translate_fold_get.
    destruct (find (renamed_to translations ignore k') (rev d)); reflexivity. }
  repeat split.
  - apply translate_fold_wf. constructor.
  - intros H. apply translate_fold_keys in H. destruct H as [[]|H]. exact H.
  - intros H. apply translate_fold_keys. now right.
  - exact Hget.
  - intros k v Hwf Hk Hnin Hinj. rewrite Hget.
    destruct (find (renamed_to translations ignore (translation translations k)) (rev d))
      as [[k2 v2]|] eqn:Hfind; simpl.
    + apply find_some in Hfind. destruct Hfind as [Hin Hp].
      apply in_rev in Hin. unfold renamed_to in Hp; simpl in Hp.
      apply andb_true_iff in Hp. destruct Hp as [Hkeep Heq].
      apply String.eqb_eq in Heq.
      assert (k2 = k).
      { apply Hinj; auto.
        - change k2 with (fst (k2, v2)). now apply in_map.
        - intros Hin2. apply str_in_list_In in Hin2.
          rewrite Hin2 in Hkeep. discriminate. }
      subst k2. f_equal.
      eapply wf_dict_functional; eauto using dict_get_In.
    + exfalso.
      assert (Hp := find_none _ _ Hfind (k, v)).
      unfold renamed_to in Hp; simpl in Hp.
      rewrite String.eqb_refl, andb_true_r in Hp.
      apply Hnin, str_in_list_In, negb_false_iff, Hp.
      apply -> in_rev. now apply dict_get_In.
Qed.

Lemma translate_keys_projection_witness :
  dict_get "entity_id"
    (translate_keys [("id", VStr "06"); ("flatten", VBool true); ("name", VStr "x")]
       [("id", "entity_id")] (Some ["flatten"; "format"]))
  = Some (VStr "06").
Proof.
  destruct (translate_keys_projection
              [("id", VStr "06"); ("flatten", VBool true); ("name", VStr "x")]
              [("id", "entity_id")] (Some ["flatten"; "format"]))
    as (_ & _ & _ & Hvalue).
  apply (Hvalue "id" (VStr "06")).
  - repeat constructor; simpl; intuition discriminate.
  - reflexivity.
  - simpl. intuition discriminate.
  - simpl. intros k2 [H|[H|[H|[]]]] Hn Ht; subst k2; simpl in *;
      try reflexivity; try discriminate; exfalso; tauto.
Defined.

(** C5, counterexample.  Two kept keys renamed to the same key: ["a"] is
    renamed to ["b"], which [d] also has; the value of ["a"] is lost. *)
Lemma translate_keys_collision :
  let d := [("a", VInt 1); ("b", VInt 2)] in
  let translations := [("a", "b")] in
  wf_dict d
  /\ dict_get "a" d = Some (VInt 1)
  /\ translation translations "a" = "b"
  /\ translate_keys d translations None = [("b", VInt 2)]
  /\ dict_get (translation translations "a") (translate_keys d translations None)
     <> Some (VInt 1).
Proof.
  repeat split.
  - repeat constructor; simpl; intuition discriminate.
  - discriminate.
Qed.

(** ** Places *)

Lemma rbind_ok {A B} (r : result A) (k : A -> result B) b :
  rbind r k = Ok b -> exists a, r = Ok a /\ k a = Ok b.
Proof. destruct r; simpl; intros H; [eauto | discriminate]. Qed.

Lemma pop_ok d k v d' :
  pop d k = Ok (v, d') -> dict_get k d = Some v /\ d' = delitem d k.
Proof.
  unfold pop. destruct (dict_get k d); intros H; inversion H; auto.
Qed.

Lemma empty_entity_stub : VDict empty_entity = null_entity.
Proof. reflexivity. Qed.

Lemma pop_some d k v : dict_get k d = Some v -> pop d k = Ok (v, delitem d k).
Proof. unfold pop. now intros ->. Qed.

(** [build_place_result] on its two branches, for a query with [lat] and
    [lon]: a department that is [None] (or empty), and a department
    record carrying its state. *)
Lemma build_place_result_branches query lat lon :
  dict_get "lat" query = Some lat ->
  dict_get "lon" query = Some lon ->
  (forall dept muni,
      truthy dept = false ->
      exists place,
        build_place_result query dept muni = Ok place
        /\ dict_get N.STATE place = Some null_entity
        /\ dict_get N.DEPT place = Some null_entity
        /\ dict_get N.MUN place = Some null_entity
        /\ dict_get N.SOURCE place = Some VNone)
  /\ (forall dept muni state,
        dict_get N.STATE dept = Some state ->
        exists place,
          build_place_result query (VDict dept) muni = Ok place
          /\ dict_get N.STATE place = Some state
          /\ dict_get N.DEPT place = Some (VDict (delitem dept N.STATE))
          /\ dict_get N.MUN place
             = Some (if truthy muni then muni else null_entity)
          /\ dict_get N.SOURCE place = Some (VStr N.SOURCE_IGN)).
Proof.
  intros Hlat Hlon. split.
  - intros dept muni Hfalse. unfold build_place_result, getitem.
    rewrite Hfalse. simpl. rewrite Hlat, Hlon. simpl.
    eexists. split; [reflexivity|]. repeat split.
  - intros dept muni state Hstate.
    assert (Hpop := pop_some dept N.STATE state Hstate).
    destruct dept as [|kv dept']; [discriminate|].
    unfold build_place_result, getitem. simpl.
    rewrite Hpop. simpl. rewrite Hlat, Hlon. simpl.
    eexists. split; [reflexivity|]. repeat split.
Qed.

Lemma first_hit_cases r :
  first_hit r = Ok (match data.hits r with
                    | [] => VNone
                    | hit :: _ => VDict hit
                    end).
Proof. unfold first_hit, data.truth. now destruct (data.hits r). Qed.

Lemma getitem_ok d k v : getitem d k = Ok v -> dict_get k d = Some v.
Proof. unfold getitem. destruct (dict_get k d); now inversion 1. Qed.

Lemma build_place_result_point query dept muni place :
  build_place_result query dept muni = Ok place -> has_point query.
Proof.
  unfold build_place_result. intros H.
  apply rbind_ok in H. destruct H as ([[[state dept'] muni'] source] & _ & H).
  apply rbind_ok in H. destruct H as (lat & Hlat & H).
  apply rbind_ok in H. destruct H as (lon & Hlon & _).
  exists lat, lon. split; now apply getitem_ok.
Qed.

(** The place built in the loop of [process_place_queries] for one
    point. *)
Lemma build_place_result_composed query dept_result muni_result dept muni place :
  first_hit dept_result = Ok dept ->
  first_hit muni_result = Ok muni ->
  build_place_result query dept muni = Ok place ->
  composed query dept_result muni_result place.
Proof.
  rewrite !first_hit_cases. intros Hdept Hmuni Hrun.
  inversion Hdept; subst dept. inversion Hmuni; subst muni. clear Hdept Hmuni.
  destruct (build_place_result_point _ _ _ _ Hrun) as (lat & lon & Hlat & Hlon).
  destruct (build_place_result_branches query lat lon Hlat Hlon) as [Hnone Hsome].
  unfold composed, department_match, municipality_or_stub.
  assert (Hpoint : forall place0,
             build_place_result query
               match data.hits dept_result with [] => VNone | hit :: _ => VDict hit end
               match data.hits muni_result with [] => VNone | hit :: _ => VDict hit end
             = Ok place0 ->
             dict_get N.LAT place0 = Some lat /\ dict_get N.LON place0 = Some lon).
  { unfold build_place_result, getitem. rewrite Hlat, Hlon. intros place0 H.
    apply rbind_ok in H. destruct H as ([[[state dept'] muni'] source] & _ & H).
    simpl in H. inversion H. split; reflexivity. }
  destruct (Hpoint place Hrun) as [Hplat Hplon].
  rewrite Hplat, Hplon, Hlat, Hlon. split; [reflexivity|]. split; [reflexivity|].
  destruct (data.hits dept_result) as [|dept ds].
  - destruct (Hnone VNone
                match data.hits muni_result with [] => VNone | hit :: _ => VDict hit end
                eq_refl) as (place0 & Hrun0 & Hrest).
    rewrite Hrun in Hrun0. inversion Hrun0; subst place0. exact Hrest.
  - destruct dept as [|kv dept].
    + destruct (Hnone (VDict [])
                  match data.hits muni_result with [] => VNone | hit :: _ => VDict hit end
                  eq_refl) as (place0 & Hrun0 & Hrest).
      rewrite Hrun in Hrun0. inversion Hrun0; subst place0. exact Hrest.
    + assert (Hstate : exists state, dict_get N.STATE (kv :: dept) = Some state).
      { unfold build_place_result in Hrun.
        apply rbind_ok in Hrun.
        destruct Hrun as ([[[state dept'] muni'] source] & Hrun & _).
        cbn [truthy negb] in Hrun. unfold value_pop in Hrun.
        apply rbind_ok in Hrun. destruct Hrun as ([state0 dept0] & Hpop & _).
        apply rbind_ok in Hpop. destruct Hpop as ([x d'] & Hpop & _).
        apply pop_ok in Hpop. destruct Hpop as [Hget _]. eauto. }
      destruct Hstate as [state Hstate].
      destruct (Hsome (kv :: dept)
                  match data.hits muni_result with [] => VNone | hit :: _ => VDict hit end
                  state Hstate) as (place0 & Hrun0 & Hs & Hd & Hm & Hsrc).
      rewrite Hrun in Hrun0. inversion Hrun0; subst place0.
      exists state. repeat split; auto.
      rewrite Hm. destruct (data.hits muni_result) as [|[|kv' muni] ms]; reflexivity.
Qed.

Lemma build_places_composed :
  forall queries dept_results muni_results places,
    build_places queries dept_results muni_results = Ok places ->
    List.length places
    = Nat.min (List.length queries)
        (Nat.min (List.length dept_results) (List.length muni_results))
    /\ forall i query dept_result muni_result place,
        nth_error queries i = Some query ->
        nth_error dept_results i = Some dept_result ->
        nth_error muni_results i = Some muni_result ->
        nth_error places i = Some place ->
        composed query dept_result muni_result place.
Proof.
  induction queries as [|query0 queries IH];
    intros dept_results muni_results places H.
  { simpl in H. inversion H. split; [reflexivity|].
    intros i query dept_result muni_result place Hq. destruct i; discriminate. }
  destruct dept_results as [|dr0 dept_results].
  { simpl in H. inversion H. split; [reflexivity|].
    intros i query dept_result muni_result place _ Hd. destruct i; discriminate. }
  destruct muni_results as [|mr0 muni_results].
  { simpl in H. inversion H. split; [reflexivity|].
    intros i query dept_result muni_result place _ _ Hm. destruct i; discriminate. }
  simpl in H.
  apply rbind_ok in H. destruct H as (dept & Hdept & H).
  apply rbind_ok in H. destruct H as (muni & Hmuni & H).
  apply rbind_ok in H. destruct H as (place0 & Hplace & H).
  apply rbind_ok in H. destruct H as (rest & Hrest & H).
  inversion H; subst places. clear H.
  destruct (IH _ _ _ Hrest) as [Hlen Hnth]. split.
  - simpl. now rewrite Hlen.
  - intros [|i] query dept_result muni_result place Hq Hd Hm Hp; simpl in *.
    + inversion Hq; inversion Hd; inversion Hm; inversion Hp; subst.
      eapply build_place_result_composed; eauto.
    + eapply Hnth; eauto.
Qed.

Lemma build_places_returns :
  forall queries dept_results muni_results,
    Forall has_point queries ->
    Forall state_embedded dept_results ->
    exists places, build_places queries dept_results muni_results = Ok places.
Proof.
  induction queries as [|query queries IH];
    intros dept_results muni_results Hq Hd; [simpl; eauto|].
  destruct dept_results as [|dr dept_results]; [simpl; eauto|].
  destruct muni_results as [|mr muni_results]; [simpl; eauto|].
  inversion Hq as [|? ? (lat & lon & Hlat & Hlon) Hq']; subst.
  inversion Hd as [|? ? Hstate Hd']; subst.
  destruct (IH dept_results muni_results Hq' Hd') as [rest Hrest].
  destruct (build_place_result_branches query lat lon Hlat Hlon) as [Hnone Hsome].
  simpl. rewrite !first_hit_cases. simpl.
  assert (Hone : exists place,
             build_place_result query
               match data.hits dr with [] => VNone | hit :: _ => VDict hit end
               match data.hits mr with [] => VNone | hit :: _ => VDict hit end
             = Ok place).
  { unfold state_embedded, department_match in Hstate.
    destruct (data.hits dr) as [|[|kv dept] ds].
    - destruct (Hnone VNone
                  match data.hits mr with [] => VNone | hit :: _ => VDict hit end
                  eq_refl) as (place & Hrun & _). eauto.
    - destruct (Hnone (VDict [])
                  match data.hits mr with [] => VNone | hit :: _ => VDict hit end
                  eq_refl) as (place & Hrun & _). eauto.
    - destruct (Hstate _ eq_refl) as [state Hget].
      destruct (Hsome (kv :: dept)
                  match data.hits mr with [] => VNone | hit :: _ => VDict hit end
                  state Hget) as (place & Hrun & _). eauto. }
  destruct Hone as [place ->]. simpl. rewrite Hrest. simpl. eauto.
Qed.

(** C3. Place composition, for every point of a request.  On
    [build_place_result], for a query with [lat] and [lon]: without a
    department the place has the stub [{id: None, name: None}] as state,
    department and municipality, and [None] as source; with a department
    carrying its state, the place's state is that embedded record, its
    municipality is the municipality given, or the stub when there is
    none, and its source is the source of the department index.  On the
    loop of [process_place_queries], for lists of any length: the places
    are as many as the shortest of the three lists, and the place at
    position [i] is composed from the query, the department result and
    the municipality result at position [i], by that rule, with the first
    hit of each result as the match; the loop returns when every query
    has its point and every department match its state.
    [process_place_queries] itself returns what the loop makes of the
    results of its two searches. *)
Theorem place_composition :
  forall (queries : list dict) (dept_results muni_results : list data.Result),
    (forall query lat lon,
        dict_get "lat" query = Some lat ->
        dict_get "lon" query = Some lon ->
        (forall muni,
            exists place,
              build_place_result query VNone muni = Ok place
              /\ dict_get N.STATE place = Some null_entity
              /\ dict_get N.DEPT place = Some null_entity
              /\ dict_get N.MUN place = Some null_entity
              /\ dict_get N.SOURCE place = Some VNone)
        /\ (forall dept muni state,
              dict_get N.STATE dept = Some state ->
              exists place,
                build_place_result query (VDict dept) muni = Ok place
                /\ dict_get N.STATE place = Some state
                /\ dict_get N.MUN place
                   = Some (if truthy muni then muni else null_entity)
                /\ get_index_source N.DEPARTMENTS = Ok N.SOURCE_IGN
                /\ dict_get N.SOURCE place = Some (VStr N.SOURCE_IGN)))
    /\ (forall places,
          build_places queries dept_results muni_results = Ok places ->
          List.length places
          = Nat.min (List.length queries)
              (Nat.min (List.length dept_results) (List.length muni_results))
          /\ forall i query dept_result muni_result place,
              nth_error queries i = Some query ->
              nth_error dept_results i = Some dept_result ->
              nth_error muni_results i = Some muni_result ->
              nth_error places i = Some place ->
              composed query dept_result muni_result place)
    /\ (Forall has_point queries ->
        Forall state_embedded dept_results ->
        exists places, build_places queries dept_results muni_results = Ok places)
    /\ (forall D es w dept_queries muni_queries,
          rmap (point_query [N.ID; N.NAME; N.STATE]) queries = Ok dept_queries ->
          rmap (point_query [N.ID; N.NAME]) queries = Ok muni_queries ->
          data.search_places D es N.DEPARTMENTS dept_queries = Ok dept_results ->
          data.search_places D es N.MUNICIPALITIES muni_queries = Ok muni_results ->
          process_place_queries D es queries w
          = (build_places queries dept_results muni_results,
             with_event (SearchPlaces N.MUNICIPALITIES muni_queries)
               (with_event (SearchPlaces N.DEPARTMENTS dept_queries) w))).
Proof.
  intros queries dept_results muni_results.
  split; [|split; [|split]].
  - intros query lat lon Hlat Hlon.
    destruct (build_place_result_branches query lat lon Hlat Hlon) as [Hnone Hsome].
    split.
    + intros muni. now apply Hnone.
    + intros dept muni state Hstate.
      destruct (Hsome dept muni state Hstate) as (place & Hrun & Hs & _ & Hm & Hsrc).
      exists place. repeat split; auto.
  - apply build_places_composed.
  - apply build_places_returns.
  - intros D es w dept_queries muni_queries Hdq Hmq Hds Hms.
    unfold process_place_queries, bind, lift, search_places, emit.
    rewrite Hdq. simpl. rewrite Hds, Hmq. simpl. now rewrite Hms.
Qed.

Lemma place_composition_witness :
  let inside := [("lat", VFloat (-27 # 1)); ("lon", VFloat (-55 # 1))] in
  let outside := [("lat", VFloat (-40 # 1)); ("lon", VFloat (-30 # 1))] in
  let state := VDict [(N.ID, VStr "54"); (N.NAME, VStr "Misiones")] in
  let dept := [(N.ID, VStr "54028"); (N.NAME, VStr "Capital"); (N.STATE, state)] in
  exists first_place second_place,
    build_places [inside; outside]
      [data.mkResult [dept] 1 0; data.mkResult [] 0 0]
      [data.mkResult [] 0 0; data.mkResult [] 0 0]
    = Ok [first_place; second_place]
    /\ dict_get N.STATE first_place = Some state
    /\ dict_get N.DEPT first_place
       = Some (VDict [(N.ID, VStr "54028"); (N.NAME, VStr "Capital")])
    /\ dict_get N.MUN first_place = Some null_entity
    /\ dict_get N.SOURCE first_place = Some (VStr N.SOURCE_IGN)
    /\ dict_get N.STATE second_place = Some null_entity
    /\ dict_get N.DEPT second_place = Some null_entity
    /\ dict_get N.MUN second_place = Some null_entity
    /\ dict_get N.SOURCE second_place = Some VNone.
Proof.
  intros inside outside state dept.
  destruct (place_composition [inside; outside]
              [data.mkResult [dept] 1 0; data.mkResult [] 0 0]
              [data.mkResult [] 0 0; data.mkResult [] 0 0])
    as (_ & Hplaces & Hreturns & _).
  destruct Hreturns as [places Hrun].
  { repeat constructor; eexists; eexists; split; reflexivity. }
  { repeat constructor; intros d Hd; inversion Hd; subst; eexists; reflexivity. }
  destruct (Hplaces places Hrun) as [Hlen Hnth].
  destruct places as [|first_place [|second_place [|third places]]];
    try discriminate Hlen.
  exists first_place, second_place. split; [exact Hrun|].
  destruct (Hnth 0%nat _ _ _ _ eq_refl eq_refl eq_refl eq_refl)
    as (_ & _ & state0 & Hstate0 & Hs & Hd & Hm & _ & Hsrc).
  destruct (Hnth 1%nat _ _ _ _ eq_refl eq_refl eq_refl eq_refl)
    as (_ & _ & Hs2 & Hd2 & Hm2 & Hsrc2).
  inversion Hstate0; subst state0.
  repeat split; assumption.
Defined.

(** ** Strings: split and join *)

Lemma append_nil_r (s : string) : (s ++ "")%string = s.
Proof. induction s; simpl; congruence. Qed.

Lemma append_assoc (a b c : string) : ((a ++ b) ++ c = a ++ (b ++ c))%string.
Proof. induction a; simpl; congruence. Qed.

Lemma split_not_nil sep s : split sep s <> [].
Proof.
  destruct s as [|c s]; simpl; [discriminate|].
  destruct (Ascii.eqb c sep); [discriminate|].
  destruct (split sep s); discriminate.
Qed.

Lemma split_no_sep sep a : has_char sep a = false -> split sep a = [a].
Proof.
  induction a as [|c a IH]; simpl; auto.
  intros H. apply orb_false_iff in H. destruct H as [Hc Ha].
  rewrite Hc, (IH Ha). reflexivity.
Qed.

Lemma split_app_sep sep a b :
  has_char sep a = false ->
  split sep (a ++ String sep b) = a :: split sep b.
Proof.
  induction a as [|c a IH]; simpl.
  - intros _. now rewrite Ascii.eqb_refl.
  - intros H. apply orb_false_iff in H. destruct H as [Hc Ha].
    rewrite Hc, (IH Ha). reflexivity.
Qed.

Lemma join_cons sep p ps :
  ps <> [] -> join sep (p :: ps) = (p ++ sep ++ join sep ps)%string.
Proof. destruct ps; [congruence | reflexivity]. Qed.

Lemma join_split sep s : join (String sep "") (split sep s) = s.
Proof.
  induction s as [|c s IH]; simpl; auto.
  destruct (Ascii.eqb c sep) eqn:E.
  - apply Ascii.eqb_eq in E. subst c.
    rewrite join_cons by apply split_not_nil. simpl. now rewrite IH.
  - destruct (split sep s) as [|p ps] eqn:Hs; [now apply split_not_nil in Hs|].
    destruct ps as [|q qs]; simpl in *; congruence.
Qed.

(** The three statements of [build_addresses_result] on the full name. *)
Lemma full_name_augmented segment tail number p0 others :
  has_char "," segment = false -> comma_tail tail ->
  split "," (segment ++ tail) = p0 :: others ->
  join "," ((p0 ++ " " ++ str_of_int number)%string :: others)
  = name_with_number segment number tail.
Proof.
  unfold name_with_number. intros Hseg [->|[t ->]] Hsplit.
  - rewrite append_nil_r in Hsplit. rewrite (split_no_sep _ _ Hseg) in Hsplit.
    inversion Hsplit; subst. simpl. now rewrite append_nil_r.
  - rewrite (split_app_sep _ _ t Hseg) in Hsplit. inversion Hsplit; subst.
    rewrite join_cons by apply split_not_nil.
    rewrite join_split. now rewrite !append_assoc.
Qed.

(** ** The monad *)

Lemma bind_ok {A B} (m : M A) (k : A -> M B) w b w' :
  bind m k w = (Ok b, w') ->
  exists a w1, m w = (Ok a, w1) /\ k a w1 = (Ok b, w').
Proof.
  unfold bind. destruct (m w) as [[a|e] w1]; intros H; [eauto | discriminate].
Qed.

Lemma lift_ok {A} (r : result A) w a w' :
  lift r w = (Ok a, w') -> r = Ok a /\ w' = w.
Proof. unfold lift. intros H. inversion H. auto. Qed.

Lemma ret_ok {A} (x : A) w a w' : ret x w = (Ok a, w') -> a = x /\ w' = w.
Proof. unfold ret. intros H. inversion H. auto. Qed.

Tactic Notation "step_bind" hyp(H) "as" simple_intropattern(a) ident(Ha) :=
  apply bind_ok in H; destruct H as (a & ?w & Ha & H).

Ltac step_lift H := apply lift_ok in H; destruct H as [H ?]; subst.

Ltac step_ret H := apply ret_ok in H; destruct H as [? ?]; subst.

Lemma searches_app t1 t2 : searches (t1 ++ t2) = (searches t1 + searches t2)%nat.
Proof. unfold searches. now rewrite filter_app, length_app. Qed.

Lemma get_elasticsearch_searches D w r w1 :
  get_elasticsearch D w = (r, w1) ->
  app_postgres_pool w1 = app_postgres_pool w
  /\ exists evs, trace w1 = trace w ++ evs /\ searches evs = 0%nat
                 /\ checkouts evs = 0%nat /\ releases evs = 0%nat.
Proof.
  unfold get_elasticsearch.
  destruct (app_elasticsearch w).
  - intros H. inversion H; subst. split; auto.
    exists []. rewrite app_nil_r. auto.
  - destruct (data.elasticsearch_connection D); intros H; inversion H; subst;
      simpl; (split; [reflexivity|]); exists [EsConnect]; auto.
Qed.

(** ** Addresses: one hit *)

(** What a hit that [build_address_hit] returns went through. *)
Lemma build_address_hit_ok D connection fields number source street w street' w' :
  build_address_hit D connection fields number source street w = (Ok street', w') ->
  exists full_name_wanted street1 door_nums street2 start end_ geom street3
         door_num_wanted street5,
    contains N.FULL_NAME fields = Ok full_name_wanted
    /\ (if full_name_wanted : bool
        then exists full p0 others,
            dict_get N.FULL_NAME street = Some (VStr full)
            /\ split "," full = p0 :: others
            /\ street1 = setitem street N.FULL_NAME
                           (VStr (join "," ((p0 ++ " " ++ str_of_int number)%string
                                            :: others)))
        else street1 = street)
    /\ pop street1 N.DOOR_NUM = Ok (door_nums, street2)
    /\ street_extents door_nums number = Ok (start, end_)
    /\ pop street2 N.GEOM = Ok (geom, street3)
    /\ contains N.DOOR_NUM fields = Ok door_num_wanted
    /\ (let street4 := if door_num_wanted : bool
                       then setitem street3 N.DOOR_NUM (VInt number) else street3 in
        street5 = street4 \/ exists loc, street5 = setitem street4 N.LOCATION loc)
    /\ street' = setitem street5 N.SOURCE (VStr source).
Proof.
  unfold build_address_hit. intros H.
  step_bind H as fnw Hfnw. step_lift Hfnw.
  step_bind H as street1 Hfull.
  step_bind H as [door_nums street2] Hdoor. step_lift Hdoor.
  step_bind H as [start end_] Hext. step_lift Hext.
  step_bind H as [geom street3] Hgeom. step_lift Hgeom.
  step_bind H as dnw Hdnw. step_lift Hdnw.
  step_bind H as latw Hlatw. step_lift Hlatw.
  step_bind H as locw Hlocw.
  step_bind H as street5 Hloc.
  step_ret H.
  exists fnw, street1, door_nums, street2, start, end_, geom, street3, dnw, street5.
  repeat split; auto.
  - destruct fnw.
    + step_bind Hfull as full Hget. step_lift Hget.
      step_bind Hfull as parts Hparts. step_lift Hparts.
      unfold getitem in Hget.
      destruct (dict_get N.FULL_NAME street) as [full0|] eqn:Hfull0; [|discriminate].
      inversion Hget; subst full0.
      destruct full; try discriminate. simpl in Hparts. inversion Hparts; subst parts.
      destruct (split "," s) as [|p0 others] eqn:Hsplit; [discriminate|].
      step_ret Hfull.
      exists s, p0, others. auto.
    + step_ret Hfull. reflexivity.
  - destruct (locw && is_not_none start && is_not_none end_).
    + step_bind Hloc as loc Hcall. step_ret Hloc.
      right. eauto.
    + step_ret Hloc. now left.
Qed.

Lemma bind_lift_ok {A B} (a : A) (k : A -> M B) w : bind (lift (Ok a)) k w = k a w.
Proof. reflexivity. Qed.

Lemma bind_ret {A B} (a : A) (k : A -> M B) w : bind (ret a) k w = k a w.
Proof. reflexivity. Qed.

Lemma bind_bind {A B C} (m : M A) (f : A -> M B) (g : B -> M C) w :
  bind (bind m f) g w = bind m (fun a => bind (f a) g) w.
Proof. unfold bind. destruct (m w) as [[a|e] w1]; reflexivity. Qed.

(** A hit with a full name, door numbers whose extents can be computed and
    a geometry is returned, provided the relational store answers. *)
Lemma build_address_hit_returns D connection fields number source street w
    full door_nums start end_ geom loc :
  (forall k, exists b, contains k fields = Ok b) ->
  dict_get N.FULL_NAME street = Some (VStr full) ->
  dict_get N.DOOR_NUM street = Some door_nums ->
  street_extents door_nums number = Ok (start, end_) ->
  dict_get N.GEOM street = Some geom ->
  data.street_number_location D connection geom number start end_ = Ok loc ->
  exists street' w',
    build_address_hit D connection fields number source street w = (Ok street', w').
Proof.
  intros Hiter Hfull Hdoor Hext Hgeom Hloc.
  destruct (Hiter N.FULL_NAME) as [fnw Hfnw].
  destruct (Hiter N.DOOR_NUM) as [dnw Hdnw].
  destruct (Hiter N.LOCATION_LAT) as [latw Hlatw].
  destruct (Hiter N.LOCATION_LON) as [lonw Hlonw].
  assert (Hstreet1 : exists street1,
             (if fnw
              then (full_name <~ lift (getitem street N.FULL_NAME) ;;
                    parts <~ lift (str_split full_name) ;;
                    match parts with
                    | [] => raise IndexError
                    | part0 :: others =>
                        ret (setitem street N.FULL_NAME
                               (VStr (join ","
                                        ((part0 ++ " " ++ str_of_int number)%string
                                         :: others))))
                    end)%M
              else ret street) w = (Ok street1, w)
             /\ dict_get N.DOOR_NUM street1 = Some door_nums
             /\ dict_get N.GEOM street1 = Some geom).
  { destruct fnw.
    - unfold getitem. rewrite Hfull, bind_lift_ok. simpl str_split.
      rewrite bind_lift_ok.
      destruct (split "," full) as [|p0 others] eqn:Hsplit;
        [now apply split_not_nil in Hsplit|].
      eexists. split; [reflexivity|].
      rewrite !dict_get_setitem_neq by discriminate. auto.
    - exists street. auto. }
  destruct Hstreet1 as (street1 & Hrun1 & Hdoor1 & Hgeom1).
  assert (Hgeom2 : dict_get N.GEOM (delitem street1 N.DOOR_NUM) = Some geom).
  { rewrite dict_get_delitem_neq by discriminate. exact Hgeom1. }
  unfold build_address_hit.
  rewrite Hfnw, bind_lift_ok.
  unfold bind at 1. rewrite Hrun1.
  rewrite (pop_some _ _ _ Hdoor1), bind_lift_ok.
  rewrite Hext, bind_lift_ok.
  rewrite (pop_some _ _ _ Hgeom2), bind_lift_ok.
  rewrite Hdnw, bind_lift_ok.
  rewrite Hlatw, bind_lift_ok.
  assert (Hwanted : exists locw,
             (if latw then ret true else lift (contains N.LOCATION_LON fields)) w
             = (Ok locw, w)).
  { destruct latw; [exists true; reflexivity|].
    exists lonw. unfold lift. now rewrite Hlonw. }
  destruct Hwanted as (locw & Hwanted).
  unfold bind at 1. rewrite Hwanted.
  destruct (locw && is_not_none start && is_not_none end_).
  - unfold bind at 1, street_number_location, bind at 1, emit, lift.
    rewrite Hloc. eexists. eexists. reflexivity.
  - eexists. eexists. reflexivity.
Qed.

(** The full name of a hit that [build_address_hit] returns. *)
Lemma full_name_of_returned_hit :
  forall D connection fields number source street w street' w' segment tail,
    contains N.FULL_NAME fields = Ok true ->
    dict_get N.FULL_NAME street = Some (VStr (segment ++ tail)) ->
    has_char "," segment = false ->
    comma_tail tail ->
    build_address_hit D connection fields number source street w = (Ok street', w') ->
    dict_get N.FULL_NAME street'
    = Some (VStr (name_with_number segment number tail)).
Proof.
  intros D connection fields number source street w street' w' segment tail
    Hwanted Hname Hseg Htail Hrun.
  apply build_address_hit_ok in Hrun.
  destruct Hrun as (fnw & street1 & door_nums & street2 & start & end_ & geom
                    & street3 & dnw & street5 & Hfnw & Hfull & Hdoor & _ & Hgeom
                    & _ & Hloc & ->).
  rewrite Hwanted in Hfnw. inversion Hfnw; subst fnw.
  destruct Hfull as (full & p0 & others & Hget & Hsplit & ->).
  rewrite Hname in Hget. inversion Hget; subst full.
  rewrite (full_name_augmented segment tail number p0 others Hseg Htail Hsplit)
    in Hdoor.
  apply pop_ok in Hdoor. destruct Hdoor as [_ ->].
  apply pop_ok in Hgeom. destruct Hgeom as [_ ->].
  rewrite dict_get_setitem_neq by discriminate.
  assert (Hbase :
            dict_get N.FULL_NAME
              (if dnw
               then setitem
                      (delitem
                         (delitem
                            (setitem street N.FULL_NAME
                               (VStr (name_with_number segment number tail)))
                            N.DOOR_NUM) N.GEOM) N.DOOR_NUM (VInt number)
               else delitem
                      (delitem
                         (setitem street N.FULL_NAME
                            (VStr (name_with_number segment number tail)))
                         N.DOOR_NUM) N.GEOM)
            = Some (VStr (name_with_number segment number tail))).
  { destruct dnw.
    - rewrite dict_get_setitem_neq by discriminate.
      rewrite !dict_get_delitem_neq by discriminate.
      apply dict_get_setitem_eq.
    - rewrite !dict_get_delitem_neq by discriminate.
      apply dict_get_setitem_eq. }
  simpl in Hloc. destruct Hloc as [->|[loc ->]]; auto.
  rewrite dict_get_setitem_neq by discriminate. exact Hbase.
Qed.

(** C8. For an address hit whose requested fields include the full name,
    the queried door number is appended, after a space, to the first
    comma-delimited segment of the full name and what follows that
    segment is left as it is: ["Callao"] with number 123 becomes
    ["Callao 123"] and ["Callao,CABA"] becomes ["Callao 123,CABA"].  This
    is the full name of every hit the loop body returns, and the loop body
    does return the hit when it has its door numbers, with extents that
    can be computed, and its geometry, and the relational store answers. *)
Theorem full_name_with_door_number :
  forall D connection fields number source street w segment tail,
    contains N.FULL_NAME fields = Ok true ->
    dict_get N.FULL_NAME street = Some (VStr (segment ++ tail)) ->
    has_char "," segment = false ->
    comma_tail tail ->
    (forall street' w',
        build_address_hit D connection fields number source street w
        = (Ok street', w') ->
        dict_get N.FULL_NAME street'
        = Some (VStr (name_with_number segment number tail)))
    /\ (forall door_nums start end_ geom loc,
          (forall k, exists b, contains k fields = Ok b) ->
          dict_get N.DOOR_NUM street = Some door_nums ->
          street_extents door_nums number = Ok (start, end_) ->
          dict_get N.GEOM street = Some geom ->
          data.street_number_location D connection geom number start end_ = Ok loc ->
          exists street' w',
            build_address_hit D connection fields number source street w
            = (Ok street', w')
            /\ dict_get N.FULL_NAME street'
               = Some (VStr (name_with_number segment number tail))).
Proof.
  intros D connection fields number source street w segment tail
    Hwanted Hname Hseg Htail. split.
  - intros street' w' Hrun.
    eapply full_name_of_returned_hit; eauto.
  - intros door_nums start end_ geom loc Hiter Hdoor Hext Hgeom Hloc.
    destruct (build_address_hit_returns D connection fields number source street w
                (segment ++ tail)%string door_nums start end_ geom loc
                Hiter Hname Hdoor Hext Hgeom Hloc) as (street' & w' & Hrun).
    exists street', w'. split; [exact Hrun|].
    eapply full_name_of_returned_hit; eauto.
Qed.

Lemma fields_list_iterable (l : list value) (k : string) :
  exists b, contains k (VList l) = Ok b.
Proof. simpl. eauto. Qed.

Lemma full_name_with_door_number_witness :
  (exists street' w',
      build_address_hit sample_data 0%nat (VList [VStr N.FULL_NAME]) 123 N.SOURCE_INDEC
        sample_street ready_world = (Ok street', w')
      /\ dict_get N.FULL_NAME street' = Some (VStr "Callao 123,CABA"))
  /\ (exists street' w',
      build_address_hit sample_data 0%nat (VList [VStr N.FULL_NAME]) 123 N.SOURCE_INDEC
        (setitem sample_street N.FULL_NAME (VStr "Callao")) ready_world
      = (Ok street', w')
      /\ dict_get N.FULL_NAME street' = Some (VStr "Callao 123")).
Proof.
  split.
  - destruct (full_name_with_door_number sample_data 0%nat
                (VList [VStr N.FULL_NAME]) 123 N.SOURCE_INDEC sample_street
                ready_world "Callao" ",CABA" eq_refl eq_refl eq_refl
                (or_intror (ex_intro _ "CABA" eq_refl))) as [_ Hreturns].
    apply (Hreturns (door_numbers (VInt 100) (VInt 101) (VInt 200) (VInt 201))
             (VInt 101) (VInt 200) (VStr "0105000020E6100000") sample_location);
      try reflexivity.
    apply fields_list_iterable.
  - destruct (full_name_with_door_number sample_data 0%nat
                (VList [VStr N.FULL_NAME]) 123 N.SOURCE_INDEC
                (setitem sample_street N.FULL_NAME (VStr "Callao"))
                ready_world "Callao" "" eq_refl eq_refl eq_refl
                (or_introl eq_refl)) as [_ Hreturns].
    apply (Hreturns (door_numbers (VInt 100) (VInt 101) (VInt 200) (VInt 201))
             (VInt 101) (VInt 200) (VStr "0105000020E6100000") sample_location);
      try reflexivity.
    apply fields_list_iterable.
Defined.

(** ** Addresses: the query and the returned hits *)

Lemma mapM_ok {A B} (f : A -> M B) (l : list A) :
  forall w l' w',
    mapM f l w = (Ok l', w') ->
    Forall2 (fun x y => exists w1 w2, f x w1 = (Ok y, w2)) l l'.
Proof.
  induction l as [|x l IH]; simpl; intros w l' w' H.
  - step_ret H. constructor.
  - step_bind H as y Hy. step_bind H as ys Hys. step_ret H.
    constructor; eauto.
Qed.

Lemma build_address_hit_clean D connection fields number source street w street' w' :
  build_address_hit D connection fields number source street w = (Ok street', w') ->
  address_hit_clean fields number street'.
Proof.
  intros Hrun. apply build_address_hit_ok in Hrun.
  destruct Hrun as (fnw & street1 & door_nums & street2 & start & end_ & geom
                    & street3 & dnw & street5 & _ & _ & Hdoor & _ & Hgeom
                    & Hdnw & Hloc & ->).
  apply pop_ok in Hdoor. destruct Hdoor as [_ ->].
  apply pop_ok in Hgeom. destruct Hgeom as [_ ->].
  simpl in Hloc. split.
  - rewrite dict_get_setitem_neq by discriminate.
    assert (Hbase :
              dict_get N.GEOM
                (if dnw
                 then setitem (delitem (delitem street1 N.DOOR_NUM) N.GEOM)
                        N.DOOR_NUM (VInt number)
                 else delitem (delitem street1 N.DOOR_NUM) N.GEOM) = None).
    { destruct dnw.
      - rewrite dict_get_setitem_neq by discriminate. apply dict_get_delitem_eq.
      - apply dict_get_delitem_eq. }
    destruct Hloc as [->|[loc ->]]; auto.
    rewrite dict_get_setitem_neq by discriminate. exact Hbase.
  - exists dnw. split; auto.
    rewrite dict_get_setitem_neq by discriminate.
    assert (Hbase :
              dict_get N.DOOR_NUM
                (if dnw
                 then setitem (delitem (delitem street1 N.DOOR_NUM) N.GEOM)
                        N.DOOR_NUM (VInt number)
                 else delitem (delitem street1 N.DOOR_NUM) N.GEOM)
              = if dnw then Some (VInt number) else None).
    { destruct dnw.
      - apply dict_get_setitem_eq.
      - rewrite dict_get_delitem_neq by discriminate. apply dict_get_delitem_eq. }
    destruct Hloc as [->|[loc ->]]; auto.
    rewrite dict_get_setitem_neq by discriminate. exact Hbase.
Qed.

Lemma get_postgres_db_connection_ok {A} (body : Connection -> M A) w a w' :
  get_postgres_db_connection body w = (Ok a, w') ->
  exists connection w1 w2, body connection w1 = (Ok a, w2).
Proof.
  unfold get_postgres_db_connection.
  destruct (getconn w) as [[connection|e] w1]; [|discriminate].
  destruct (body connection w1) as [r w2] eqn:Hbody.
  destruct (putconn connection w2) as [[u|e] w3]; [|discriminate].
  intros H. inversion H; subst. eauto.
Qed.

Lemma build_addresses_result_ok D result query source w result' w' :
  build_addresses_result D result query source w = (Ok result', w') ->
  exists fields number,
    dict_get "fields" query = Some fields
    /\ dict_get "number" query = Some (VInt number)
    /\ data.total result' = data.total result
    /\ data.offset result' = data.offset result
    /\ Forall2 (fun street street' =>
                  exists connection w1 w2,
                    build_address_hit D connection fields number source street w1
                    = (Ok street', w2))
         (data.hits result) (data.hits result').
Proof.
  unfold build_addresses_result. intros H.
  step_bind H as fields Hfields. step_lift Hfields.
  step_bind H as number Hnumber. step_lift Hnumber.
  step_bind H as u Hpool.
  apply get_postgres_db_connection_ok in H.
  destruct H as (connection & w2 & w3 & H).
  step_bind H as hits' Hhits. step_ret H.
  apply mapM_ok in Hhits.
  apply rbind_ok in Hnumber. destruct Hnumber as (nv & Hnv & Hint).
  unfold getitem in Hfields, Hnv.
  destruct (dict_get "fields" query) as [fv|]; [|discriminate].
  destruct (dict_get "number" query) as [nv'|]; [|discriminate].
  inversion Hfields; inversion Hnv; subst.
  destruct nv; try discriminate. inversion Hint; subst.
  exists fields, number. simpl. repeat split; auto.
  eapply Forall2_impl; [|exact Hhits].
  intros street street' (w4 & w5 & Hrun). eauto.
Qed.

(** C9. Whatever fields the client asked for, the query built for the
    backend asks for them followed by the geometry field and the
    start-right and end-left boundary fields.  Every hit of a result that
    [build_addresses_result] returns has lost its geometry and its
    door-number range: the door-number field is back only when the query's
    fields have it, and then it is the queried number itself. *)
Theorem address_internal_fields :
  (forall F parsed_params address road_name number requested,
      dict_get N.ADDRESS parsed_params = Some address ->
      unpack2 address = Ok (road_name, number) ->
      dict_get N.FIELDS parsed_params = Some (VList requested) ->
      exists query fmt,
        build_address_query_format F parsed_params = Ok (query, fmt)
        /\ dict_get "fields" query = Some (VList (requested ++ internal_fields)))
  /\ (forall D result query source w result' w',
      build_addresses_result D result query source w = (Ok result', w') ->
      exists fields number,
        dict_get "fields" query = Some fields
        /\ dict_get "number" query = Some (VInt number)
        /\ List.length (data.hits result') = List.length (data.hits result)
        /\ Forall (address_hit_clean fields number) (data.hits result')).
Proof.
  split.
  - intros F parsed_params address road_name number requested Haddr Hpair Hfields.
    unfold build_address_query_format.
    rewrite (pop_some _ _ _ Haddr). simpl. rewrite Hpair. simpl.
    unfold getitem.
    rewrite !dict_get_setitem_neq by discriminate.
    rewrite dict_get_delitem_neq by discriminate.
    rewrite Hfields. simpl.
    eexists. eexists. split; [reflexivity|].
    apply dict_get_setitem_eq.
  - intros D result query source w result' w' Hrun.
    apply build_addresses_result_ok in Hrun.
    destruct Hrun as (fields & number & Hf & Hn & _ & _ & Hhits).
    exists fields, number. repeat split; auto.
    + symmetry. eapply Forall2_length; eauto.
    + clear Hf Hn. induction Hhits as [|street street' l l' Hone _ IH]; constructor; auto.
      destruct Hone as (connection & w1 & w2 & Hone).
      eapply build_address_hit_clean; eauto.
Qed.

Lemma address_internal_fields_witness :
  exists query fmt,
    build_address_query_format sample_tables
      [(N.ADDRESS, VTuple [VStr "Callao"; VInt 123]); (N.FIELDS, VList [VStr N.ID])]
    = Ok (query, fmt)
    /\ dict_get "fields" query
       = Some (VList [VStr N.ID; VStr N.GEOM; VStr N.START_R; VStr N.END_L]).
Proof.
  destruct address_internal_fields as [Hquery _].
  apply (Hquery sample_tables
           [(N.ADDRESS, VTuple [VStr "Callao"; VInt 123]); (N.FIELDS, VList [VStr N.ID])]
           (VTuple [VStr "Callao"; VInt 123]) (VStr "Callao") (VInt 123) [VStr N.ID]);
    reflexivity.
Defined.

(** ** The connection of the relational store *)

Section Lookups.

Variable c : Connection.

Lemma lookups_only_ret {A} (a : A) : lookups_only c (ret a).
Proof.
  intros w r w' H. inversion H; subst. repeat split; auto.
  exists []. now rewrite app_nil_r.
Qed.

Lemma lookups_only_raise {A} (e : exn) : lookups_only c (@raise A e).
Proof.
  intros w r w' H. inversion H; subst. repeat split; auto.
  exists []. now rewrite app_nil_r.
Qed.

Lemma lookups_only_lift {A} (x : result A) : lookups_only c (lift x).
Proof.
  intros w r w' H. inversion H; subst. repeat split; auto.
  exists []. now rewrite app_nil_r.
Qed.

Lemma lookups_only_bind {A B} (m : M A) (k : A -> M B) :
  lookups_only c m -> (forall a, lookups_only c (k a)) -> lookups_only c (bind m k).
Proof.
  intros Hm Hk w r w' H. unfold bind in H.
  destruct (m w) as [[a|e] w1] eqn:Em.
  - destruct (Hm _ _ _ Em) as (Hes & Hpool & evs1 & Ht1 & Hf1).
    destruct (Hk a _ _ _ H) as (Hes' & Hpool' & evs2 & Ht2 & Hf2).
    repeat split; try congruence.
    exists (evs1 ++ evs2). split.
    + rewrite Ht2, Ht1. now rewrite app_assoc.
    + apply Forall_app. auto.
  - inversion H; subst. exact (Hm _ _ _ Em).
Qed.

Lemma lookups_only_location D geom number start end_ :
  lookups_only c (street_number_location D c geom number start end_).
Proof.
  intros w r w' H. unfold street_number_location, bind, emit, lift in H.
  simpl in H.
  destruct (data.street_number_location D c geom number start end_);
    inversion H; subst; simpl; repeat split; auto;
    eexists; (split; [reflexivity|]); repeat constructor.
Qed.

Lemma lookups_only_mapM {A B} (f : A -> M B) (l : list A) :
  (forall x, lookups_only c (f x)) -> lookups_only c (mapM f l).
Proof.
  intros Hf. induction l as [|x l IH]; simpl.
  - apply lookups_only_ret.
  - apply lookups_only_bind; [apply Hf|]. intros y.
    apply lookups_only_bind; [apply IH|]. intros ys. apply lookups_only_ret.
Qed.

Ltac lookups :=
  repeat first
    [ apply lookups_only_ret
    | apply lookups_only_raise
    | apply lookups_only_lift
    | apply lookups_only_location
    | apply lookups_only_bind; [|intros]
    | match goal with
      | |- lookups_only _ (match ?x with _ => _ end) => destruct x
      end ].

Lemma lookups_only_hit D fields number source street :
  lookups_only c (build_address_hit D c fields number source street).
Proof. unfold build_address_hit. lookups. Qed.

End Lookups.

Lemma remove_head_fresh (c : Connection) (l : list Connection) :
  ~ In c l -> remove Nat.eq_dec c (c :: l) = l.
Proof.
  intros Hnin. simpl. destruct (Nat.eq_dec c c) as [_|Hne]; [|congruence].
  now apply notin_remove.
Qed.

(** The [with] block: one checkout, the lookups of the block, one
    release, and the pool as it was, whether the block returns or raises. *)
Lemma get_postgres_db_connection_discipline {A} (body : Connection -> M A)
    w p c rest r w' :
  app_postgres_pool w = Some p ->
  idle p = c :: rest ->
  ~ In c (used p) ->
  lookups_only c (body c) ->
  get_postgres_db_connection body w = (r, w') ->
  app_postgres_pool w' = Some p
  /\ app_elasticsearch w' = app_elasticsearch w
  /\ exists lookups,
      trace w' = trace w ++ [GetConn c] ++ lookups ++ [PutConn c]
      /\ Forall (uses_connection c) lookups.
Proof.
  intros Hpool Hidle Hfresh Hbody.
  unfold get_postgres_db_connection, getconn. rewrite Hpool, Hidle.
  destruct (body c (with_event (GetConn c) (with_pool (mkPool rest (c :: used p)) w)))
    as [r0 w2] eqn:Hrun.
  destruct (Hbody _ _ _ Hrun) as (Hes & Hp & lookups & Ht & Hl).
  simpl in Hes, Hp, Ht.
  unfold putconn. rewrite Hp.
  intros H. inversion H; subst; clear H.
  unfold with_event, with_pool.
  cbn [app_postgres_pool app_elasticsearch trace idle used].
  assert (Hrem := remove_head_fresh c (used p) Hfresh).
  simpl in Hrem. rewrite Hrem.
  repeat split.
  - destruct p as [i u]. simpl in *. now subst i.
  - exact Hes.
  - exists lookups. split; auto.
    rewrite Ht. now rewrite <- !app_assoc.
Qed.

Lemma lookups_only_hits D c fields number source (result : data.Result) :
  lookups_only c
    (hits <~ mapM (build_address_hit D c fields number source) (data.hits result) ;;
     ret (data.mkResult hits (data.total result) (data.offset result)))%M.
Proof.
  apply lookups_only_bind; [|intros; apply lookups_only_ret].
  apply lookups_only_mapM. intros street. apply lookups_only_hit.
Qed.

Lemma build_addresses_result_discipline D result query source w p c rest r w' :
  address_query query ->
  pool_after D w = Some p ->
  idle p = c :: rest ->
  ~ In c (used p) ->
  build_addresses_result D result query source w = (r, w') ->
  app_postgres_pool w' = Some p
  /\ app_elasticsearch w' = app_elasticsearch w
  /\ exists lookups,
      trace w' = trace w ++ pool_creation w ++ [GetConn c] ++ lookups ++ [PutConn c]
      /\ Forall (uses_connection c) lookups.
Proof.
  intros (fields & number & Hf & Hn) Hafter Hidle Hfresh.
  unfold build_addresses_result, bind at 1 2 3, lift, getitem.
  rewrite Hf, Hn. simpl.
  unfold get_postgres_db_connection_pool, pool_after, pool_creation in *.
  destruct (app_postgres_pool w) as [p0|] eqn:Hpool.
  - inversion Hafter; subst p0. intros H.
    exact (get_postgres_db_connection_discipline _ w p c rest r w' Hpool Hidle Hfresh
             (lookups_only_hits D c fields number source result) H).
  - destruct (data.postgres_db_connection_pool D) as [p0|e]; [|discriminate].
    inversion Hafter; subst p0. intros H.
    destruct (get_postgres_db_connection_discipline _
                (with_pool p (with_event PoolCreate w)) p c rest r w' eq_refl Hidle
                Hfresh (lookups_only_hits D c fields number source result) H)
      as (Hp & Hes & lookups & Ht & Hl).
    simpl in Hes, Ht.
    repeat split; auto.
    exists lookups. split; auto. rewrite Ht. now rewrite <- !app_assoc.
Qed.

Lemma checkouts_app t1 t2 : checkouts (t1 ++ t2) = (checkouts t1 + checkouts t2)%nat.
Proof. unfold checkouts. now rewrite filter_app, length_app. Qed.

Lemma releases_app t1 t2 : releases (t1 ++ t2) = (releases t1 + releases t2)%nat.
Proof. unfold releases. now rewrite filter_app, length_app. Qed.

Lemma lookups_no_checkout c evs :
  Forall (uses_connection c) evs -> checkouts evs = 0%nat /\ releases evs = 0%nat.
Proof.
  induction 1 as [|e evs He _ [IH1 IH2]]; [now split|].
  destruct e; simpl in He; try contradiction.
  unfold checkouts, releases in *. simpl. auto.
Qed.

Lemma build_addresses_result_counts D result query source w p c rest r w' :
  address_query query ->
  pool_after D w = Some p ->
  idle p = c :: rest ->
  ~ In c (used p) ->
  build_addresses_result D result query source w = (r, w') ->
  app_postgres_pool w' = Some p
  /\ checkouts (trace w') = S (checkouts (trace w))
  /\ releases (trace w') = S (releases (trace w)).
Proof.
  intros Hq Hafter Hidle Hfresh Hrun.
  destruct (build_addresses_result_discipline D result query source w p c rest r w'
              Hq Hafter Hidle Hfresh Hrun) as (Hp & _ & lookups & Ht & Hl).
  split; auto. rewrite Ht.
  destruct (lookups_no_checkout c lookups Hl) as [Hc Hr].
  rewrite !checkouts_app, !releases_app, Hc, Hr.
  unfold pool_creation.
  destruct (app_postgres_pool w); unfold checkouts, releases; simpl; lia.
Qed.

(** *** The whole request *)

Lemma build_addresses_result_balanced D result query source w p c rest r w' :
  idle p = c :: rest ->
  ~ In c (used p) ->
  pool_after D w = Some p ->
  build_addresses_result D result query source w = (r, w') ->
  pool_after D w' = Some p
  /\ exists k,
      (k <= 1)%nat
      /\ checkouts (trace w') = (checkouts (trace w) + k)%nat
      /\ releases (trace w') = (releases (trace w) + k)%nat
      /\ (is_ok r = true -> k = 1%nat).
Proof.
  intros Hidle Hfresh Hafter Hrun.
  destruct (dict_get "fields" query) as [fields|] eqn:Hf.
  - destruct (dict_get "number" query) as [nv|] eqn:Hn.
    + destruct nv as [| | number | | | | |];
        try (unfold build_addresses_result, bind, lift, getitem in Hrun;
             rewrite Hf, Hn in Hrun; simpl in Hrun; inversion Hrun; subst;
             split; [assumption|]; exists 0%nat; repeat split; try lia;
             discriminate).
      assert (Hq : address_query query) by (exists fields, number; auto).
      destruct (build_addresses_result_counts D result query source w p c rest r w'
                  Hq Hafter Hidle Hfresh Hrun) as (Hp & Hc & Hr).
      split; [unfold pool_after; now rewrite Hp|].
      exists 1%nat. repeat split; lia.
    + unfold build_addresses_result, bind, lift, getitem in Hrun.
      rewrite Hf, Hn in Hrun. simpl in Hrun. inversion Hrun; subst.
      split; [assumption|]. exists 0%nat. repeat split; try lia. discriminate.
  - unfold build_addresses_result, bind, lift, getitem in Hrun.
    rewrite Hf in Hrun. simpl in Hrun. inversion Hrun; subst.
    split; [assumption|]. exists 0%nat. repeat split; try lia. discriminate.
Qed.

(** The loop of [process_address_bulk]: as many checkouts as results
    were processed, each followed by its release. *)
Lemma build_addresses_results_counts D source p c rest :
  idle p = c :: rest ->
  ~ In c (used p) ->
  forall results queries w r w',
    pool_after D w = Some p ->
    build_addresses_results D results queries source w = (r, w') ->
    pool_after D w' = Some p
    /\ exists k,
        checkouts (trace w') = (checkouts (trace w) + k)%nat
        /\ releases (trace w') = (releases (trace w) + k)%nat
        /\ (k <= Nat.min (List.length results) (List.length queries))%nat
        /\ (is_ok r = true ->
            k = Nat.min (List.length results) (List.length queries)).
Proof.
  intros Hidle Hfresh.
  induction results as [|result results IH]; intros queries w r w' Hafter Hrun.
  - simpl in Hrun. inversion Hrun; subst. split; auto.
    exists 0%nat. simpl. repeat split; lia.
  - destruct queries as [|query queries].
    + simpl in Hrun. inversion Hrun; subst. split; auto.
      exists 0%nat. simpl. repeat split; lia.
    + simpl in Hrun. unfold bind at 1 in Hrun.
      destruct (build_addresses_result D result query source w) as [r1 w1] eqn:Hone.
      destruct (build_addresses_result_balanced D result query source w p c rest r1 w1
                  Hidle Hfresh Hafter Hone) as (Hafter1 & k1 & Hk1 & Hc1 & Hr1 & Hok1).
      destruct r1 as [result1|e].
      * specialize (Hok1 eq_refl). subst k1.
        unfold bind at 1 in Hrun.
        destruct (build_addresses_results D results queries source w1)
          as [r2 w2] eqn:Hrest.
        destruct (IH queries w1 r2 w2 Hafter1 Hrest)
          as (Hafter2 & k & Hc2 & Hr2 & Hle & Hok).
        destruct r2 as [rest2|e]; inversion Hrun; subst; (split; [assumption|]);
          exists (S k); simpl; repeat split; try lia;
          intros Hk; try discriminate Hk; rewrite Hok; auto.
      * inversion Hrun; subst. split; auto.
        exists k1. simpl. repeat split; lia.
Qed.

Lemma build_addresses_results_length D source results :
  forall queries w results' w',
    build_addresses_results D results queries source w = (Ok results', w') ->
    List.length results' = List.length results.
Proof.
  induction results as [|result results IH]; intros queries w results' w' Hrun.
  - simpl in Hrun. inversion Hrun. reflexivity.
  - destruct queries as [|query queries].
    + simpl in Hrun. inversion Hrun. reflexivity.
    + simpl in Hrun.
      step_bind Hrun as result1 Hone. step_bind Hrun as rest1 Hrest.
      step_ret Hrun. simpl. f_equal. eapply IH; eauto.
Qed.

Section Balanced.

Variable D : data.layer.
Variable p : Pool.

Lemma balanced_weaken {A} (m : M A) b b' :
  (b <= b')%nat -> balanced D p b m -> balanced D p b' m.
Proof.
  intros Hle Hm w r w' Hafter Hrun.
  destruct (Hm w r w' Hafter Hrun) as (Hp & k & Hk & Hc & Hr).
  split; auto. exists k. repeat split; auto. lia.
Qed.

Lemma balanced_silent {A} (m : M A) :
  (forall w r w',
      m w = (r, w') ->
      app_postgres_pool w' = app_postgres_pool w
      /\ exists evs, trace w' = trace w ++ evs
                     /\ checkouts evs = 0%nat /\ releases evs = 0%nat) ->
  balanced D p 0 m.
Proof.
  intros Hm w r w' Hafter Hrun.
  destruct (Hm w r w' Hrun) as (Hp & evs & Ht & Hc & Hr).
  split.
  - unfold pool_after in *. now rewrite Hp.
  - exists 0%nat. rewrite Ht, checkouts_app, releases_app, Hc, Hr. auto.
Qed.

Lemma balanced_ret {A} (a : A) : balanced D p 0 (ret a).
Proof.
  apply balanced_silent. intros w r w' H. inversion H; subst. split; auto.
  exists []. rewrite app_nil_r. auto.
Qed.

Lemma balanced_lift {A} (x : result A) : balanced D p 0 (lift x).
Proof.
  apply balanced_silent. intros w r w' H. inversion H; subst. split; auto.
  exists []. rewrite app_nil_r. auto.
Qed.

Lemma balanced_emit e :
  is_checkout e = false -> is_release e = false -> balanced D p 0 (emit e).
Proof.
  intros Hc Hr. apply balanced_silent. intros w r w' H. inversion H; subst.
  split; auto. exists [e]. unfold checkouts, releases. simpl.
  rewrite Hc, Hr. auto.
Qed.

Lemma balanced_bind {A B} (m : M A) (k : A -> M B) b1 b2 :
  balanced D p b1 m -> (forall a, balanced D p b2 (k a)) ->
  balanced D p (b1 + b2) (bind m k).
Proof.
  intros Hm Hk w r w' Hafter Hrun. unfold bind in Hrun.
  destruct (m w) as [[a|e] w1] eqn:Em.
  - destruct (Hm w _ w1 Hafter Em) as (Hp1 & k1 & Hk1 & Hc1 & Hr1).
    destruct (Hk a w1 r w' Hp1 Hrun) as (Hp2 & k2 & Hk2 & Hc2 & Hr2).
    split; auto. exists (k1 + k2)%nat. repeat split; lia.
  - inversion Hrun; subst.
    destruct (Hm w _ w' Hafter Em) as (Hp1 & k1 & Hk1 & Hc1 & Hr1).
    split; auto. exists k1. repeat split; lia.
Qed.

Lemma balanced_get_elasticsearch : balanced D p 0 (get_elasticsearch D).
Proof.
  apply balanced_silent. intros w r w' H.
  destruct (get_elasticsearch_searches D w r w' H) as (Hp & evs & Ht & _ & Hc & Hr).
  eauto.
Qed.

Lemma balanced_search_streets es queries : balanced D p 0 (search_streets D es queries).
Proof.
  unfold search_streets.
  apply (balanced_bind _ _ 0 0); [now apply balanced_emit|].
  intros _. apply balanced_lift.
Qed.

Lemma balanced_try_except {A} (body handler : M A) b :
  balanced D p b body -> balanced D p 0 handler ->
  balanced D p b (try_except_connection body handler).
Proof.
  intros Hbody Hhandler w r w' Hafter Hrun. unfold try_except_connection in Hrun.
  destruct (body w) as [[a|e] w1] eqn:Eb.
  - inversion Hrun; subst. exact (Hbody w _ w' Hafter Eb).
  - destruct (Hbody w _ w1 Hafter Eb) as (Hp1 & k1 & Hk1 & Hc1 & Hr1).
    destruct e; try (inversion Hrun; subst; split; auto; exists k1; auto).
    destruct (Hhandler w1 r w' Hp1 Hrun) as (Hp2 & k2 & Hk2 & Hc2 & Hr2).
    split; auto. exists k1. repeat split; lia.
Qed.

Variable c : Connection.
Variable rest : list Connection.
Hypothesis Hidle : idle p = c :: rest.
Hypothesis Hfresh : ~ In c (used p).

Lemma balanced_build_addresses_result result query source :
  balanced D p 1 (build_addresses_result D result query source).
Proof.
  intros w r w' Hafter Hrun.
  destruct (build_addresses_result_balanced D result query source w p c rest r w'
              Hidle Hfresh Hafter Hrun) as (Hp & k & Hk & Hc & Hr & _).
  split; auto. exists k. auto.
Qed.

Lemma balanced_build_addresses_results source results :
  forall queries,
    balanced D p (List.length queries)
      (build_addresses_results D results queries source).
Proof.
  induction results as [|result results IH]; intros queries.
  - simpl. apply (balanced_weaken _ 0); [lia | apply balanced_ret].
  - destruct queries as [|query queries].
    + simpl. apply balanced_ret.
    + simpl. apply (balanced_bind _ _ 1 (List.length queries)).
      * apply balanced_build_addresses_result.
      * intros result'.
        apply (balanced_weaken _ (List.length queries + 0)); [lia|].
        apply balanced_bind.
        -- apply IH.
        -- intros rest'. apply balanced_ret.
Qed.

Lemma rmap_length {A B} (f : A -> result B) (l : list A) l' :
  rmap f l = Ok l' -> List.length l' = List.length l.
Proof.
  revert l'. induction l as [|x l IH]; simpl; intros l' H.
  - inversion H. reflexivity.
  - destruct (f x) as [y|e]; [|discriminate]. simpl in H.
    destruct (rmap f l) as [ys|e]; [|discriminate]. simpl in H.
    inversion H; subst. simpl. now rewrite (IH ys).
Qed.

Lemma balanced_process_address_single F P request :
  balanced D p 1 (process_address_single D F P request).
Proof.
  unfold process_address_single.
  destruct (params.parse_get_params P (args request)) as [errors|qs_params].
  { apply (balanced_weaken _ 0); [lia | apply balanced_ret]. }
  apply (balanced_bind _ _ 0 1); [apply balanced_lift|]. intros [query fmt].
  apply (balanced_bind _ _ 0 1); [apply balanced_get_elasticsearch|]. intros es.
  apply (balanced_bind _ _ 0 1); [apply balanced_search_streets|]. intros results.
  apply (balanced_bind _ _ 0 1); [apply balanced_lift|]. intros result.
  apply (balanced_bind _ _ 0 1); [apply balanced_lift|]. intros source.
  apply (balanced_bind _ _ 1 0); [apply balanced_build_addresses_result|].
  intros result'. apply balanced_ret.
Qed.

Lemma balanced_process_address_bulk F P request :
  balanced D p (bulk_size P request) (process_address_bulk D F P request).
Proof.
  unfold process_address_bulk, bulk_size.
  destruct (params.parse_post_params P (args request) (json request) N.ADDRESSES)
    as [errors|body_params].
  { apply balanced_ret. }
  intros w r w' Hafter Hrun. unfold bind at 1, lift at 1 in Hrun.
  destruct (rmap (build_address_query_format F) body_params) as [pairs|e] eqn:Hpairs.
  2:{ inversion Hrun; subst. split; auto. exists 0%nat. repeat split; lia. }
  assert (Hlen : List.length (map fst pairs) = List.length body_params).
  { rewrite length_map. now apply rmap_length in Hpairs. }
  rewrite <- Hlen. revert w r w' Hafter Hrun.
  change (balanced D p (List.length (map fst pairs))
            (es <~ get_elasticsearch D ;;
             results <~ search_streets D es (map fst pairs) ;;
             source <~ lift (get_index_source N.STREETS) ;;
             results0 <~ build_addresses_results D results (map fst pairs) source ;;
             ret (formatter.create_ok_response_bulk N.ADDRESSES
                    (map query_result_of results0) (map snd pairs)))%M).
  apply (balanced_bind _ _ 0); [apply balanced_get_elasticsearch|]. intros es.
  apply (balanced_bind _ _ 0); [apply balanced_search_streets|]. intros results.
  apply (balanced_bind _ _ 0); [apply balanced_lift|]. intros source.
  eapply balanced_weaken;
    [|apply balanced_bind;
      [apply balanced_build_addresses_results
      |intros results'; apply balanced_ret]].
  rewrite Nat.add_0_r. apply le_n.
Qed.

Lemma balanced_process_address F P request :
  balanced D p (if (method request =? "GET")%string then 1%nat
                else bulk_size P request)
    (process_address D F P request).
Proof.
  unfold process_address. apply balanced_try_except.
  - destruct (method request =? "GET")%string.
    + apply balanced_process_address_single.
    + apply balanced_process_address_bulk.
  - apply (balanced_bind _ _ 0 0); [now apply balanced_emit|].
    intros _. apply balanced_ret.
Qed.

Lemma process_address_single_ok F P request w name query_result fmt w' :
  pool_after D w = Some p ->
  process_address_single D F P request w
  = (Ok (formatter.create_ok_response name query_result fmt), w') ->
  checkouts (trace w') = S (checkouts (trace w))
  /\ releases (trace w') = S (releases (trace w)).
Proof.
  intros Hafter H. unfold process_address_single in H.
  destruct (params.parse_get_params P (args request)) as [errors|qs_params];
    [discriminate|].
  step_bind H as [query fmt0] Hformat. step_lift Hformat.
  step_bind H as es Hes.
  step_bind H as results Hsearch.
  step_bind H as result Hfirst. step_lift Hfirst.
  step_bind H as source Hsource. step_lift Hsource.
  step_bind H as result' Hbuild.
  step_ret H.
  destruct (balanced_get_elasticsearch _ _ _ Hafter Hes)
    as (Hafter1 & k1 & Hk1 & Hc1 & Hr1).
  destruct (balanced_search_streets es [query] _ _ _ Hafter1 Hsearch)
    as (Hafter2 & k2 & Hk2 & Hc2 & Hr2).
  destruct (build_addresses_result_balanced D result query source _ p c rest _ _
              Hidle Hfresh Hafter2 Hbuild) as (_ & k3 & _ & Hc3 & Hr3 & Hok).
  specialize (Hok eq_refl). lia.
Qed.

Lemma process_address_bulk_ok F P request w name query_results formats w' :
  pool_after D w = Some p ->
  process_address_bulk D F P request w
  = (Ok (formatter.create_ok_response_bulk name query_results formats), w') ->
  let k := Nat.min (List.length query_results) (List.length formats) in
  checkouts (trace w') = (checkouts (trace w) + k)%nat
  /\ releases (trace w') = (releases (trace w) + k)%nat.
Proof.
  intros Hafter H. unfold process_address_bulk in H.
  destruct (params.parse_post_params P (args request) (json request) N.ADDRESSES)
    as [errors|body_params]; [discriminate|].
  step_bind H as pairs Hpairs. step_lift Hpairs.
  step_bind H as es Hes.
  step_bind H as results Hsearch.
  step_bind H as source Hsource. step_lift Hsource.
  step_bind H as results' Hbuild.
  step_ret H.
  match goal with
  | E : formatter.create_ok_response_bulk _ _ _ = _ |- _ => inversion E; subst
  end.
  destruct (balanced_get_elasticsearch _ _ _ Hafter Hes)
    as (Hafter1 & k1 & Hk1 & Hc1 & Hr1).
  destruct (balanced_search_streets es (map fst pairs) _ _ _ Hafter1 Hsearch)
    as (Hafter2 & k2 & Hk2 & Hc2 & Hr2).
  destruct (build_addresses_results_counts D source p c rest Hidle Hfresh
              results (map fst pairs) _ _ _ Hafter2 Hbuild)
    as (_ & k3 & Hc3 & Hr3 & _ & Hok).
  specialize (Hok eq_refl).
  apply build_addresses_results_length in Hbuild.
  simpl. rewrite !length_map in *. rewrite Hbuild. lia.
Qed.

Lemma process_address_single_shape F P request w name query_results formats w' :
  process_address_single D F P request w
  <> (Ok (formatter.create_ok_response_bulk name query_results formats), w').
Proof.
  intros H. unfold process_address_single in H.
  destruct (params.parse_get_params P (args request)) as [errors|qs_params];
    [discriminate|].
  step_bind H as [query fmt0] Hformat.
  step_bind H as es Hes.
  step_bind H as results Hsearch.
  step_bind H as result Hfirst.
  step_bind H as source Hsource.
  step_bind H as result' Hbuild.
  step_ret H. discriminate.
Qed.

Lemma process_address_bulk_shape F P request w name query_result fmt w' :
  process_address_bulk D F P request w
  <> (Ok (formatter.create_ok_response name query_result fmt), w').
Proof.
  intros H. unfold process_address_bulk in H.
  destruct (params.parse_post_params P (args request) (json request) N.ADDRESSES)
    as [errors|body_params]; [discriminate|].
  step_bind H as pairs Hpairs.
  step_bind H as es Hes.
  step_bind H as results Hsearch.
  step_bind H as source Hsource.
  step_bind H as results' Hbuild.
  step_ret H. discriminate.
Qed.

(** A whole address request: the pool is as before, every checkout has
    its release, and a request that is answered made one checkout when
    single and one per (result, query) pair when bulk. *)
Lemma process_address_checkouts F P request w r w' :
  pool_after D w = Some p ->
  process_address D F P request w = (r, w') ->
  pool_after D w' = Some p
  /\ exists k,
      checkouts (trace w') = (checkouts (trace w) + k)%nat
      /\ releases (trace w') = (releases (trace w) + k)%nat
      /\ (k <= if (method request =? "GET")%string then 1 else bulk_size P request)%nat
      /\ (forall name query_result fmt,
            r = Ok (formatter.create_ok_response name query_result fmt) ->
            k = 1%nat)
      /\ (forall name query_results formats,
            r = Ok (formatter.create_ok_response_bulk name query_results formats) ->
            k = Nat.min (List.length query_results) (List.length formats)).
Proof.
  intros Hafter Hrun.
  destruct (balanced_process_address F P request w r w' Hafter Hrun)
    as (Hafter' & k & Hk & Hc & Hr).
  split; auto. exists k. repeat split; auto.
  - intros name query_result fmt ->.
    unfold process_address, try_except_connection in Hrun.
    destruct (method request =? "GET")%string.
    + destruct (process_address_single D F P request w) as [[resp|[]] w1] eqn:Hbody;
        inversion Hrun; subst.
      destruct (process_address_single_ok F P request w _ _ _ _ Hafter Hbody). lia.
    + destruct (process_address_bulk D F P request w) as [[resp|[]] w1] eqn:Hbody;
        inversion Hrun; subst.
      now apply process_address_bulk_shape in Hbody.
  - intros name query_results formats ->.
    unfold process_address, try_except_connection in Hrun.
    destruct (method request =? "GET")%string.
    + destruct (process_address_single D F P request w) as [[resp|[]] w1] eqn:Hbody;
        inversion Hrun; subst.
      now apply process_address_single_shape in Hbody.
    + destruct (process_address_bulk D F P request w) as [[resp|[]] w1] eqn:Hbody;
        inversion Hrun; subst.
      destruct (process_address_bulk_ok F P request w _ _ _ _ Hafter Hbody). lia.
Qed.

End Balanced.

(** C2 (as the code has it).  A connection is checked out once for every
    backend result that is enriched, that is once in [build_addresses_result]
    (one checkout for a single request, one per processed (result, query)
    pair of a bulk request, each released before the next), and not once per
    hit.  With a pool that has a connection [c] to hand out: within one
    result the trace gains one checkout of [c], then only interpolation
    lookups, all of them on [c], then one release of [c], and the pool is
    as before, whether the loop over the hits returns or raises.  Over the
    loop of a bulk request the checkouts and the releases both number the
    pairs processed.  A whole request, whatever its outcome, leaves the
    pool as it was with as many releases as checkouts: one of each when a
    single request is answered, one per (result, query) pair when a bulk
    request is. *)
Theorem connection_per_result :
  forall (D : data.layer) (p : Pool) (c : Connection) (rest : list Connection),
    idle p = c :: rest ->
    ~ In c (used p) ->
    (forall source result query w r w',
        address_query query ->
        pool_after D w = Some p ->
        build_addresses_result D result query source w = (r, w') ->
        app_postgres_pool w' = Some p
        /\ exists lookups,
            trace w' = trace w ++ pool_creation w ++ [GetConn c] ++ lookups
                         ++ [PutConn c]
            /\ Forall (uses_connection c) lookups)
    /\ (forall source results queries w r w',
        pool_after D w = Some p ->
        build_addresses_results D results queries source w = (r, w') ->
        pool_after D w' = Some p
        /\ exists k,
            checkouts (trace w') = (checkouts (trace w) + k)%nat
            /\ releases (trace w') = (releases (trace w) + k)%nat
            /\ (k <= Nat.min (List.length results) (List.length queries))%nat
            /\ (is_ok r = true ->
                k = Nat.min (List.length results) (List.length queries)))
    /\ (forall F P request w r w',
        pool_after D w = Some p ->
        process_address D F P request w = (r, w') ->
        pool_after D w' = Some p
        /\ exists k,
            checkouts (trace w') = (checkouts (trace w) + k)%nat
            /\ releases (trace w') = (releases (trace w) + k)%nat
            /\ (k <= if (method request =? "GET")%string
                     then 1 else bulk_size P request)%nat
            /\ (forall name query_result fmt,
                  r = Ok (formatter.create_ok_response name query_result fmt) ->
                  k = 1%nat)
            /\ (forall name query_results formats,
                  r = Ok (formatter.create_ok_response_bulk name query_results
                            formats) ->
                  k = Nat.min (List.length query_results) (List.length formats))).
Proof.
  intros D p c rest Hidle Hfresh. split; [|split].
  - intros source result query w r w' Hq Hafter Hrun.
    destruct (build_addresses_result_discipline D result query source w p c rest r w'
                Hq Hafter Hidle Hfresh Hrun) as (Hp & _ & Hlookups).
    auto.
  - intros source results queries w r w'.
    now apply build_addresses_results_counts with (c := c) (rest := rest).
  - intros F P request w r w'.
    now apply process_address_checkouts with (c := c) (rest := rest).
Qed.

Lemma connection_per_result_witness :
  let run :=
    build_addresses_result failing_store
      (data.mkResult [sample_street; sample_street] 2 0) sample_address_query
      N.SOURCE_INDEC ready_world in
  fst run = Raise DataConnectionException
  /\ app_postgres_pool (snd run) = Some (mkPool [0%nat; 1%nat] [])
  /\ exists lookups,
      trace (snd run) = [GetConn 0%nat] ++ lookups ++ [PutConn 0%nat]
      /\ Forall (uses_connection 0%nat) lookups.
Proof.
  intros run. split; [reflexivity|].
  destruct (connection_per_result failing_store
              (mkPool [0%nat; 1%nat] []) 0%nat [1%nat] eq_refl (fun H => H))
    as [Hone _].
  apply (Hone N.SOURCE_INDEC (data.mkResult [sample_street; sample_street] 2 0)
           sample_address_query ready_world (fst run) (snd run)).
  - exists (VList [VStr N.ID; VStr N.LOCATION_LAT; VStr N.GEOM;
                   VStr N.START_R; VStr N.END_L]), 150.
    split; reflexivity.
  - reflexivity.
  - reflexivity.
Defined.

(** C2, counterexample.  A bulk request of two addresses on a fresh
    application: one top-level request, answered, two checkouts (and two
    releases). *)
Lemma bulk_request_two_checkouts :
  let run :=
    process_address sample_data sample_tables sample_params sample_post new_world in
  is_ok (fst run) = true
  /\ checkouts (trace (snd run)) = 2%nat
  /\ releases (trace (snd run)) = 2%nat
  /\ checkouts (trace (snd run)) <> 1%nat.
Proof. vm_compute. repeat split; discriminate. Qed.

(** ** Entities: the bulk path *)

Lemma tagged_source source hits hit :
  In hit (tagged source hits) -> dict_get N.SOURCE hit = Some (VStr source).
Proof.
  unfold tagged. intros H. apply in_map_iff in H.
  destruct H as (m & <- & _). apply dict_get_setitem_eq.
Qed.

(** C4. A bulk request whose body parses into N parameter sets builds N
    queries and makes one batch search call with them.  When the backend
    answers with N results (its contract) the response carries N
    [QueryResult]s, the i-th built from the i-th backend result: its hits
    tagged with the source, its total and its offset.  Every hit of every
    result has the source of the entity type under the source key. *)
Theorem process_entity_bulk_ordered :
  forall (D : data.layer) (request : Request) (name : string)
         (param_parser : params.ParameterSet) (key_translations : keymap)
         (body_params : list dict) (es : Elasticsearch) (w w1 : world)
         (results : list data.Result) (source : string),
    params.parse_post_params param_parser (args request) (json request) name
    = inr body_params ->
    get_elasticsearch D w = (Ok es, w1) ->
    let queries := entity_queries key_translations body_params in
    data.search_entities D es name queries = Ok results ->
    List.length results = List.length queries ->
    get_index_source name = Ok source ->
    exists query_results formats,
      process_entity_bulk D request name param_parser key_translations w
      = (Ok (formatter.create_ok_response_bulk name query_results formats),
         with_event (SearchEntities name queries) w1)
      /\ List.length queries = List.length body_params
      /\ searches (trace (with_event (SearchEntities name queries) w1))
         = S (searches (trace w))
      /\ List.length query_results = List.length body_params
      /\ (forall i result,
             nth_error results i = Some result ->
             nth_error query_results i
             = Some (from_entity_list (tagged source (data.hits result))
                       (data.total result) (data.offset result)))
      /\ (forall query_result hit,
             In query_result query_results -> In hit (entities query_result) ->
             dict_get N.SOURCE hit = Some (VStr source)).
Proof.
  intros D request name param_parser key_translations body_params es w w1 results
    source Hparse Hes queries Hsearch Hlen Hsource.
  exists (map query_result_of (map (tag_source source) results)).
  exists (map (fun parsed_params => select_keys [N.FLATTEN; N.FIELDS] parsed_params)
            body_params).
  assert (Hqueries : List.length queries = List.length body_params).
  { unfold queries, entity_queries. apply length_map. }
  repeat split.
  - unfold process_entity_bulk. rewrite Hparse.
    unfold bind at 1. rewrite Hes.
    unfold bind at 1, search_entities, bind at 1, emit, lift.
    fold (entity_queries key_translations body_params). fold queries.
    rewrite Hsearch. unfold bind, lift. rewrite Hsource. reflexivity.
  - exact Hqueries.
  - destruct (get_elasticsearch_searches D w (Ok es) w1 Hes)
      as (_ & evs & Ht & Hs & _).
    simpl. rewrite Ht, !searches_app, Hs. unfold searches. simpl. lia.
  - rewrite !length_map. congruence.
  - intros i result Hnth. rewrite !nth_error_map, Hnth. reflexivity.
  - intros query_result hit Hin Hhit.
    apply in_map_iff in Hin. destruct Hin as (result' & <- & Hin).
    apply in_map_iff in Hin. destruct Hin as (result & <- & _).
    simpl in Hhit. now apply tagged_source in Hhit.
Qed.

Lemma process_entity_bulk_ordered_witness :
  exists query_results formats,
    process_entity_bulk sample_data sample_post N.STATES sample_entity_params
      state_translations new_world
    = (Ok (formatter.create_ok_response_bulk N.STATES query_results formats),
       with_event
         (SearchEntities N.STATES
            (entity_queries state_translations
               [[(N.NAME, VStr "salta")]; [(N.ID, VStr "06")]]))
         (with_elasticsearch EsHandle (with_event EsConnect new_world)))
    /\ List.length query_results = 2%nat.
Proof.
  destruct (process_entity_bulk_ordered sample_data sample_post N.STATES
              sample_entity_params state_translations
              [[(N.NAME, VStr "salta")]; [(N.ID, VStr "06")]]
              EsHandle new_world
              (with_elasticsearch EsHandle (with_event EsConnect new_world))
              [data.mkResult [[(N.ID, VStr "06")]] 1 0;
               data.mkResult [[(N.ID, VStr "06")]] 1 0]
              N.SOURCE_IGN eq_refl eq_refl eq_refl eq_refl eq_refl)
    as (query_results & formats & Hrun & _ & _ & Hlen & _).
  exists query_results, formats. split; assumption.
Defined.

(** ** Failures *)

(** *** Pure code raises no connection failure *)

Lemma quiet_rbind {A B} (c : result A) (k : A -> result B) :
  c <> Raise DataConnectionException ->
  (forall a, k a <> Raise DataConnectionException) ->
  rbind c k <> Raise DataConnectionException.
Proof. destruct c as [a|e]; simpl; auto. congruence. Qed.

Lemma quiet_getitem d k : getitem d k <> Raise DataConnectionException.
Proof. unfold getitem. destruct (dict_get k d); discriminate. Qed.

Lemma quiet_pop d k : pop d k <> Raise DataConnectionException.
Proof. unfold pop. destruct (dict_get k d); discriminate. Qed.

Lemma quiet_first {A} (l : list A) : first l <> Raise DataConnectionException.
Proof. destruct l; discriminate. Qed.

Lemma quiet_get_index_source index :
  get_index_source index <> Raise DataConnectionException.
Proof.
  unfold get_index_source.
  destruct (str_in_list index _); [discriminate|].
  destruct (index =? N.LOCALITIES)%string; [discriminate|].
  destruct (index =? N.STREETS)%string; discriminate.
Qed.

Lemma quiet_contains k v : contains k v <> Raise DataConnectionException.
Proof. destruct v; discriminate. Qed.

Lemma quiet_subscript v k : subscript v k <> Raise DataConnectionException.
Proof. destruct v; try discriminate. apply quiet_getitem. Qed.

Lemma quiet_chained_le start number end_ :
  chained_le start number end_ <> Raise DataConnectionException.
Proof.
  unfold chained_le. apply quiet_rbind.
  - destruct start; discriminate.
  - intros [|]; [destruct end_|]; discriminate.
Qed.

Lemma quiet_first_extent combinations number :
  first_extent combinations number <> Raise DataConnectionException.
Proof.
  induction combinations as [|[start end_] rest IH]; simpl; [discriminate|].
  apply quiet_rbind; [apply quiet_chained_le|].
  intros [|]; [discriminate | exact IH].
Qed.

Lemma quiet_street_extents door_nums number :
  street_extents door_nums number <> Raise DataConnectionException.
Proof.
  unfold street_extents.
  repeat (apply quiet_rbind; [apply quiet_subscript | intros ?]).
  apply quiet_first_extent.
Qed.

Lemma quiet_rmap {A B} (f : A -> result B) (l : list A) :
  (forall x, f x <> Raise DataConnectionException) ->
  rmap f l <> Raise DataConnectionException.
Proof.
  intros Hf. induction l as [|x l IH]; simpl; [discriminate|].
  apply quiet_rbind; [apply Hf | intros y].
  apply quiet_rbind; [exact IH | discriminate].
Qed.

Lemma quiet_build_address_query_format F parsed_params :
  build_address_query_format F parsed_params <> Raise DataConnectionException.
Proof.
  unfold build_address_query_format.
  apply quiet_rbind; [apply quiet_pop | intros [address params1]].
  apply quiet_rbind; [|intros [road_name number]].
  { unfold unpack2. repeat match goal with
                           | |- context [match ?x with _ => _ end] => destruct x
                           end; discriminate. }
  cbv zeta.
  apply quiet_rbind; [apply quiet_getitem | intros fields].
  apply quiet_rbind; [destruct fields; discriminate | discriminate].
Qed.

Lemma quiet_point_query fields query :
  point_query fields query <> Raise DataConnectionException.
Proof.
  unfold point_query.
  apply quiet_rbind; [apply quiet_getitem | intros lat].
  apply quiet_rbind; [apply quiet_getitem | discriminate].
Qed.

Lemma quiet_build_place_result query dept muni :
  build_place_result query dept muni <> Raise DataConnectionException.
Proof.
  unfold build_place_result.
  apply quiet_rbind.
  - destruct (negb (truthy dept)); [discriminate|].
    apply quiet_rbind.
    + unfold value_pop. destruct dept; try discriminate.
      apply quiet_rbind; [apply quiet_pop | intros [x d']; discriminate].
    + intros [state dept']. cbv zeta.
      apply quiet_rbind; [apply quiet_get_index_source | discriminate].
  - intros [[[state dept'] muni'] source].
    apply quiet_rbind; [apply quiet_getitem | intros lat].
    apply quiet_rbind; [apply quiet_getitem | discriminate].
Qed.

Lemma quiet_build_places queries :
  forall dept_results muni_results,
    build_places queries dept_results muni_results <> Raise DataConnectionException.
Proof.
  induction queries as [|query queries IH]; intros [|dr drs] [|mr mrs]; simpl;
    try discriminate.
  rewrite !first_hit_cases. simpl.
  apply quiet_rbind; [apply quiet_build_place_result | intros place].
  apply quiet_rbind; [apply IH | discriminate].
Qed.

(** *** Computations that a connectivity failure aborts *)

Lemma is_connection_failure_true {A} (r : result A) :
  is_connection_failure r = true -> r = Raise DataConnectionException.
Proof. destruct r as [a|[]]; simpl; congruence. Qed.

Lemma is_connection_failure_false {A} (r : result A) :
  is_connection_failure r = false -> r <> Raise DataConnectionException.
Proof. intros H ->. discriminate. Qed.

Section Failures.

Variable D : data.layer.

Lemma stops_ret {A} (Q : A -> Prop) (a : A) : Q a -> stops_at_failure D Q (ret a).
Proof.
  intros HQ w r w' H. inversion H; subst. split; [auto|].
  exists []. split; [now rewrite app_nil_r|]. left.
  split; [constructor|]. split; [discriminate|].
  intros a0 Ha. inversion Ha; subst. exact HQ.
Qed.

Lemma stops_lift {A} (r : result A) :
  r <> Raise DataConnectionException ->
  stops_at_failure D (fun _ => True) (lift r).
Proof.
  intros Hr w r0 w' H. inversion H; subst. split; [auto|].
  exists []. split; [now rewrite app_nil_r|]. left.
  repeat split; [constructor | assumption].
Qed.

Lemma stops_raise {A} (Q : A -> Prop) (e : exn) :
  e <> DataConnectionException -> stops_at_failure D Q (raise e).
Proof.
  intros He w r w' H. inversion H; subst. split; [auto|].
  exists []. split; [now rewrite app_nil_r|]. left.
  repeat split; [constructor | congruence | discriminate].
Qed.

Lemma stops_bind {A B} (Q1 : A -> Prop) (Q2 : B -> Prop) (m : M A) (k : A -> M B) :
  stops_at_failure D Q1 m ->
  (forall a, Q1 a -> stops_at_failure D Q2 (k a)) ->
  stops_at_failure D Q2 (bind m k).
Proof.
  intros Hm Hk w r w' H. unfold bind in H.
  destruct (m w) as [[a|e] w1] eqn:Hmw.
  - destruct (Hm w (Ok a) w1 Hmw)
      as (Hp1 & evs1 & Ht1 & [(Hall1 & _ & HQ) | (_ & Hr)]); [|discriminate].
    destruct (Hk a (HQ a eq_refl) w1 r w' H) as (Hp2 & evs2 & Ht2 & Hcases).
    split; [auto|]. exists (evs1 ++ evs2).
    split; [rewrite Ht2, Ht1; now rewrite app_assoc|].
    destruct Hcases
      as [(Hall2 & Hr & HQ2) | ((pre & call & post & -> & Hpre & Hcall & Hpost) & Hr)].
    + left. repeat split; auto. now apply Forall_app.
    + right. split; auto. exists (evs1 ++ pre), call, post.
      repeat split; auto; [now rewrite app_assoc | now apply Forall_app].
  - inversion H; subst.
    destruct (Hm w (Raise e) w' Hmw) as (Hp & evs & Ht & Hcases).
    split; [auto|]. exists evs. split; [auto|].
    destruct Hcases as [(Hall & Hr & _) | (Hab & Hr)].
    + left. split; [exact Hall|]. split; [congruence|].
      intros a Ha. discriminate Ha.
    + right. split; [exact Hab | congruence].
Qed.

Lemma stops_then {A B} (Q : B -> Prop) (m : M A) (k : A -> M B) :
  stops_at_failure D (fun _ => True) m ->
  (forall a, stops_at_failure D Q (k a)) ->
  stops_at_failure D Q (bind m k).
Proof. intros Hm Hk. eapply stops_bind; [exact Hm | auto]. Qed.

(** One call to the data layer, answered or not. *)
Lemma one_call_cases {A} (ev : event) (r : result A) :
  is_log ev = false ->
  unreachable D ev = is_connection_failure r ->
  (Forall (answered D) [ev]
   /\ r <> Raise DataConnectionException
   /\ forall a : A, r = Ok a -> True)
  \/ (aborted D [ev] /\ r = Raise DataConnectionException).
Proof.
  intros Hlog Hev. destruct (is_connection_failure r) eqn:E.
  - right. split; [|now apply is_connection_failure_true].
    exists [], ev, []. split; [reflexivity|]. split; [constructor|].
    split; [congruence | constructor].
  - left. split; [|split; [now apply is_connection_failure_false | auto]].
    constructor; [|constructor]. split; congruence.
Qed.

Lemma no_call_cases {A} (Q : A -> Prop) (r : result A) :
  r <> Raise DataConnectionException ->
  (forall a, r = Ok a -> Q a) ->
  (Forall (answered D) []
   /\ r <> Raise DataConnectionException
   /\ forall a : A, r = Ok a -> Q a)
  \/ (aborted D [] /\ r = Raise DataConnectionException).
Proof. intros Hr HQ. left. split; [constructor|]. split; assumption. Qed.

(** A call to the data layer: its event, then its answer. *)
Lemma stops_call {A} (ev : event) (r : result A) :
  is_log ev = false ->
  unreachable D ev = is_connection_failure r ->
  stops_at_failure D (fun _ => True) (emit ev ;;; lift r)%M.
Proof.
  intros Hlog Hev w r0 w' H. unfold bind, emit, lift in H. simpl in H.
  inversion H; subst. split; [auto|].
  exists [ev]. split; [reflexivity|]. now apply one_call_cases.
Qed.

Lemma stops_search_entities es name queries :
  stops_at_failure D (fun _ => True) (search_entities D es name queries).
Proof. apply stops_call; [reflexivity | now destruct es]. Qed.

Lemma stops_search_streets es queries :
  stops_at_failure D (fun _ => True) (search_streets D es queries).
Proof. apply stops_call; [reflexivity | now destruct es]. Qed.

Lemma stops_search_places es name queries :
  stops_at_failure D (fun _ => True) (search_places D es name queries).
Proof. apply stops_call; [reflexivity | now destruct es]. Qed.

Lemma stops_street_number_location connection geom number start end_ :
  stops_at_failure D (fun _ => True)
    (street_number_location D connection geom number start end_).
Proof. apply stops_call; reflexivity. Qed.

Lemma stops_get_elasticsearch :
  stops_at_failure D (fun _ => True) (get_elasticsearch D).
Proof.
  intros w r w' H. unfold get_elasticsearch in H.
  destruct (app_elasticsearch w) as [es|].
  { inversion H; subst. split; [auto|]. exists [].
    split; [now rewrite app_nil_r|]. apply no_call_cases; [discriminate | auto]. }
  destruct (data.elasticsearch_connection D) as [es|e] eqn:E;
    inversion H; subst; (split; [auto|]); exists [EsConnect];
    (split; [reflexivity|]); apply one_call_cases;
    try reflexivity; simpl; now rewrite E.
Qed.

Lemma stops_get_postgres_db_connection_pool :
  stops_at_failure D (fun _ => True) (get_postgres_db_connection_pool D).
Proof.
  intros w r w' H. unfold get_postgres_db_connection_pool in H.
  destruct (app_postgres_pool w) as [p|] eqn:Hp.
  { inversion H; subst. split; [congruence|]. exists [].
    split; [now rewrite app_nil_r|]. apply no_call_cases; [discriminate | auto]. }
  destruct (data.postgres_db_connection_pool D) as [p|e] eqn:E;
    inversion H; subst; (split; [simpl; congruence|]); exists [PoolCreate];
    (split; [reflexivity|]); apply one_call_cases;
    try reflexivity; simpl; rewrite E; reflexivity.
Qed.

(** The [with] block: the release follows whatever the block did. *)
Lemma stops_get_postgres_db_connection {A} (Q : A -> Prop) (body : Connection -> M A) :
  (forall connection, stops_at_failure D Q (body connection)) ->
  stops_at_failure D Q (get_postgres_db_connection body).
Proof.
  intros Hbody w r w' H. unfold get_postgres_db_connection, getconn in H.
  destruct (app_postgres_pool w) as [p|] eqn:Hp.
  2:{ inversion H; subst. split; [congruence|]. exists [].
      split; [now rewrite app_nil_r|].
      apply no_call_cases; [discriminate | discriminate]. }
  destruct (idle p) as [|c rest].
  { inversion H; subst. split; [congruence|]. exists [].
    split; [now rewrite app_nil_r|].
    apply no_call_cases; [discriminate | discriminate]. }
  match type of H with
  | context [body c ?w1] => destruct (body c w1) as [r2 w2] eqn:Hrun
  end.
  destruct (Hbody c _ r2 w2 Hrun) as (Hpool & evs & Ht & Hcases).
  simpl in Hpool, Ht. unfold putconn in H.
  destruct (app_postgres_pool w2) as [p2|] eqn:Hp2;
    [|exfalso; apply Hpool; [discriminate | reflexivity]].
  inversion H; subst. split; [simpl; discriminate|].
  exists (GetConn c :: evs ++ [PutConn c]). split.
  { simpl. rewrite Ht. rewrite <- !app_assoc. reflexivity. }
  destruct Hcases
    as [(Hall & Hr & HQ) | ((pre & call & post & -> & Hpre & Hcall & Hpost) & Hr)].
  - left. split; [|split; assumption].
    constructor; [split; reflexivity|].
    apply Forall_app. split; [assumption|].
    constructor; [split; reflexivity | constructor].
  - right. split; [|assumption].
    exists (GetConn c :: pre), call, (post ++ [PutConn c]).
    split; [simpl; now rewrite <- app_assoc|].
    split; [constructor; [split; reflexivity | assumption]|].
    split; [assumption|].
    apply Forall_app. split; [assumption|]. constructor; [reflexivity | constructor].
Qed.

Lemma stops_mapM {A B} (f : A -> M B) (l : list A) :
  (forall x, stops_at_failure D (fun _ => True) (f x)) ->
  stops_at_failure D (fun _ => True) (mapM f l).
Proof.
  intros Hf. induction l as [|x l IH]; simpl.
  - now apply stops_ret.
  - apply stops_then; [apply Hf | intros y].
    apply stops_then; [exact IH | intros ys]. now apply stops_ret.
Qed.

Ltac stops_lift_pure :=
  apply stops_lift;
  first [ apply quiet_getitem | apply quiet_pop | apply quiet_first
        | apply quiet_get_index_source | apply quiet_contains
        | apply quiet_street_extents | apply quiet_build_address_query_format
        | apply quiet_build_places
        | apply quiet_rmap; intros ?;
          first [ apply quiet_build_address_query_format | apply quiet_point_query ] ].

Lemma stops_build_address_hit connection fields number source street :
  stops_at_failure D (fun _ => True)
    (build_address_hit D connection fields number source street).
Proof.
  unfold build_address_hit.
  apply stops_then; [stops_lift_pure | intros full_name_wanted].
  apply stops_then.
  { destruct full_name_wanted; [|now apply stops_ret].
    apply stops_then; [stops_lift_pure | intros full_name].
    apply stops_then; [apply stops_lift; destruct full_name; discriminate|].
    intros [|part0 others]; [now apply stops_raise | now apply stops_ret]. }
  intros street1.
  apply stops_then; [stops_lift_pure | intros [door_nums street2]].
  apply stops_then; [stops_lift_pure | intros [start end_]].
  apply stops_then; [stops_lift_pure | intros [geom street3]].
  apply stops_then; [stops_lift_pure | intros door_num_wanted].
  cbv zeta.
  apply stops_then; [stops_lift_pure | intros lat_wanted].
  apply stops_then.
  { destruct lat_wanted; [now apply stops_ret | stops_lift_pure]. }
  intros location_wanted.
  apply stops_then.
  { destruct (location_wanted && is_not_none start && is_not_none end_);
      [|now apply stops_ret].
    apply stops_then; [apply stops_street_number_location | intros loc].
    now apply stops_ret. }
  intros street5. now apply stops_ret.
Qed.

Lemma stops_build_addresses_result result query source :
  stops_at_failure D (fun _ => True) (build_addresses_result D result query source).
Proof.
  unfold build_addresses_result.
  apply stops_then; [stops_lift_pure | intros fields].
  apply stops_then.
  { apply stops_lift. apply quiet_rbind; [apply quiet_getitem|].
    intros v. destruct v; discriminate. }
  intros number.
  apply stops_then; [apply stops_get_postgres_db_connection_pool | intros _].
  apply stops_get_postgres_db_connection. intros connection.
  apply stops_then; [|intros hits; now apply stops_ret].
  apply stops_mapM. intros street. apply stops_build_address_hit.
Qed.

Lemma stops_build_addresses_results source results :
  forall queries,
    stops_at_failure D (fun _ => True)
      (build_addresses_results D results queries source).
Proof.
  induction results as [|result results IH]; intros [|query queries]; simpl;
    try (now apply stops_ret).
  apply stops_then; [apply stops_build_addresses_result | intros result1].
  apply stops_then; [apply IH | intros rest]. now apply stops_ret.
Qed.

Lemma stops_process_place_queries es queries :
  stops_at_failure D (fun _ => True) (process_place_queries D es queries).
Proof.
  unfold process_place_queries.
  apply stops_then; [stops_lift_pure | intros dept_queries].
  apply stops_then; [apply stops_search_places | intros dept_results].
  apply stops_then; [stops_lift_pure | intros muni_queries].
  apply stops_then; [apply stops_search_places | intros muni_results].
  stops_lift_pure.
Qed.

(** The two paths of the four handlers answer with a parameter-error
    response or an OK response, never with the internal-error response. *)
Lemma stops_process_entity_single F request name param_parser key_translations :
  stops_at_failure D (fun resp => resp <> formatter.create_internal_error_response)
    (process_entity_single D F request name param_parser key_translations).
Proof.
  unfold process_entity_single.
  destruct (params.parse_get_params param_parser (args request))
    as [errors|qs_params]; [apply stops_ret; discriminate|].
  cbv zeta.
  apply stops_then; [stops_lift_pure | intros csv].
  apply stops_then; [apply stops_get_elasticsearch | intros es].
  apply stops_then; [apply stops_search_entities | intros results].
  apply stops_then; [stops_lift_pure | intros result].
  apply stops_then; [stops_lift_pure | intros source].
  apply stops_ret. discriminate.
Qed.

Lemma stops_process_entity_bulk request name param_parser key_translations :
  stops_at_failure D (fun resp => resp <> formatter.create_internal_error_response)
    (process_entity_bulk D request name param_parser key_translations).
Proof.
  unfold process_entity_bulk.
  destruct (params.parse_post_params param_parser (args request) (json request) name)
    as [errors|body_params]; [apply stops_ret; discriminate|].
  cbv zeta.
  apply stops_then; [apply stops_get_elasticsearch | intros es].
  apply stops_then; [apply stops_search_entities | intros results].
  apply stops_then; [stops_lift_pure | intros source].
  apply stops_ret. discriminate.
Qed.

Lemma stops_process_street_single F P request :
  stops_at_failure D (fun resp => resp <> formatter.create_internal_error_response)
    (process_street_single D F P request).
Proof.
  unfold process_street_single.
  destruct (params.parse_get_params P (args request))
    as [errors|qs_params]; [apply stops_ret; discriminate|].
  destruct (build_street_query_format F qs_params) as [query fmt].
  apply stops_then; [apply stops_get_elasticsearch | intros es].
  apply stops_then; [apply stops_search_streets | intros results].
  apply stops_then; [stops_lift_pure | intros result].
  apply stops_then; [stops_lift_pure | intros source].
  apply stops_ret. discriminate.
Qed.

Lemma stops_process_street_bulk F P request :
  stops_at_failure D (fun resp => resp <> formatter.create_internal_error_response)
    (process_street_bulk D F P request).
Proof.
  unfold process_street_bulk.
  destruct (params.parse_post_params P (args request) (json request) N.STREETS)
    as [errors|body_params]; [apply stops_ret; discriminate|].
  cbv zeta.
  apply stops_then; [apply stops_get_elasticsearch | intros es].
  apply stops_then; [apply stops_search_streets | intros results].
  apply stops_then; [stops_lift_pure | intros source].
  apply stops_ret. discriminate.
Qed.

Lemma stops_process_address_single F P request :
  stops_at_failure D (fun resp => resp <> formatter.create_internal_error_response)
    (process_address_single D F P request).
Proof.
  unfold process_address_single.
  destruct (params.parse_get_params P (args request))
    as [errors|qs_params]; [apply stops_ret; discriminate|].
  apply stops_then; [stops_lift_pure | intros [query fmt]].
  apply stops_then; [apply stops_get_elasticsearch | intros es].
  apply stops_then; [apply stops_search_streets | intros results].
  apply stops_then; [stops_lift_pure | intros result].
  apply stops_then; [stops_lift_pure | intros source].
  apply stops_then; [apply stops_build_addresses_result | intros result1].
  apply stops_ret. discriminate.
Qed.

Lemma stops_process_address_bulk F P request :
  stops_at_failure D (fun resp => resp <> formatter.create_internal_error_response)
    (process_address_bulk D F P request).
Proof.
  unfold process_address_bulk.
  destruct (params.parse_post_params P (args request) (json request) N.ADDRESSES)
    as [errors|body_params]; [apply stops_ret; discriminate|].
  apply stops_then; [stops_lift_pure | intros pairs].
  cbv zeta.
  apply stops_then; [apply stops_get_elasticsearch | intros es].
  apply stops_then; [apply stops_search_streets | intros results].
  apply stops_then; [stops_lift_pure | intros source].
  apply stops_then; [apply stops_build_addresses_results | intros results1].
  apply stops_ret. discriminate.
Qed.

Lemma stops_process_place_single P request :
  stops_at_failure D (fun resp => resp <> formatter.create_internal_error_response)
    (process_place_single D P request).
Proof.
  unfold process_place_single.
  destruct (params.parse_get_params P (args request))
    as [errors|qs_params]; [apply stops_ret; discriminate|].
  destruct (build_place_query_format qs_params) as [query fmt].
  apply stops_then; [apply stops_get_elasticsearch | intros es].
  apply stops_then; [apply stops_process_place_queries | intros places].
  apply stops_then; [stops_lift_pure | intros place].
  apply stops_ret. discriminate.
Qed.

Lemma stops_process_place_bulk P request :
  stops_at_failure D (fun resp => resp <> formatter.create_internal_error_response)
    (process_place_bulk D P request).
Proof.
  unfold process_place_bulk.
  destruct (params.parse_post_params P (args request) (json request) N.PLACES)
    as [errors|body_params]; [apply stops_ret; discriminate|].
  cbv zeta.
  apply stops_then; [apply stops_get_elasticsearch | intros es].
  apply stops_then; [apply stops_process_place_queries | intros places].
  apply stops_ret. discriminate.
Qed.

(** From the paths to the handler: the [except] clause. *)
Lemma answers_failures_intro handler single bulk parser bulk_name resource :
  (forall request,
      handler request
      = try_except_connection
          (if (method request =? "GET")%string then single request else bulk request)
          (logger_exception (log_prefix ++ resource) ;;;
           ret formatter.create_internal_error_response)%M) ->
  (forall request,
      stops_at_failure D (fun resp => resp <> formatter.create_internal_error_response)
        (single request)) ->
  (forall request,
      stops_at_failure D (fun resp => resp <> formatter.create_internal_error_response)
        (bulk request)) ->
  (forall request w errors,
      params.parse_get_params parser (args request) = inl errors ->
      single request w
      = (Ok (formatter.create_param_error_response_single errors), w)) ->
  (forall request w errors,
      params.parse_post_params parser (args request) (json request) bulk_name
      = inl errors ->
      bulk request w = (Ok (formatter.create_param_error_response_bulk errors), w)) ->
  answers_failures D handler parser bulk_name resource.
Proof.
  intros Hhandler Hstops_single Hstops_bulk Hsingle Hbulk request w.
  rewrite Hhandler. split; [|split].
  - intros Hget errors Hparse. apply String.eqb_eq in Hget. rewrite Hget.
    unfold try_except_connection. now rewrite (Hsingle request w errors Hparse).
  - intros Hpost errors Hparse. apply String.eqb_neq in Hpost. rewrite Hpost.
    unfold try_except_connection. now rewrite (Hbulk request w errors Hparse).
  - intros r w' H.
    assert (Hpath : stops_at_failure D
                      (fun resp => resp <> formatter.create_internal_error_response)
                      (if (method request =? "GET")%string
                       then single request else bulk request)).
    { destruct (method request =? "GET")%string; auto. }
    unfold try_except_connection in H.
    destruct ((if (method request =? "GET")%string
               then single request else bulk request) w) as [r1 w1] eqn:Hrun.
    destruct (Hpath w r1 w1 Hrun) as (_ & evs & Ht & Hcases).
    destruct Hcases as [(Hall & Hr & HQ) | (Hab & ->)].
    + assert (Hsame : (r, w') = (r1, w1)).
      { destruct r1 as [resp|e]; [congruence|].
        destruct e; congruence. }
      inversion Hsame; subst. split; [assumption|].
      exists evs. split; [assumption|]. left. split; [assumption|].
      intros ->. now apply (HQ _ eq_refl).
    + unfold bind, logger_exception, emit, ret in H. simpl in H.
      inversion H; subst. split; [discriminate|].
      exists (evs ++ [LogException (log_prefix ++ resource)]). split.
      * simpl. rewrite Ht. now rewrite app_assoc.
      * right. exists evs. auto.
Qed.

End Failures.

Ltac parse_failure :=
  let H := fresh in
  intros ? ? ? H; cbv beta;
  first [ unfold process_entity_single; rewrite H
        | unfold process_entity_bulk; rewrite H
        | unfold process_street_single; rewrite H
        | unfold process_street_bulk; rewrite H
        | unfold process_address_single; rewrite H
        | unfold process_address_bulk; rewrite H
        | unfold process_place_single; rewrite H
        | unfold process_place_bulk; rewrite H ];
  reflexivity.

(** Both paths of [process_entity] call the search backend at most once. *)
Lemma process_entity_single_searches D F request name param_parser key_translations
    w r w' :
  process_entity_single D F request name param_parser key_translations w = (r, w') ->
  exists evs, trace w' = trace w ++ evs /\ (searches evs <= 1)%nat.
Proof.
  unfold process_entity_single.
  destruct (params.parse_get_params param_parser (args request)) as [errors|qs_params].
  { intros H. inversion H; subst. exists []. rewrite app_nil_r. auto. }
  unfold bind at 1, lift.
  destruct (getitem (formatter.ENDPOINT_CSV_FIELDS F) name) as [csv|e].
  2:{ intros H. inversion H; subst. exists []. rewrite app_nil_r. auto. }
  unfold bind at 1.
  destruct (get_elasticsearch D w) as [[es|e] w1] eqn:Hes;
    destruct (get_elasticsearch_searches D w _ w1 Hes) as (_ & evs & Ht & Hs & _).
  2:{ intros H. inversion H; subst. exists evs. split; auto. lia. }
  unfold bind at 1, search_entities, bind at 1, emit, lift.
  assert (Hevs : (searches (evs ++ [SearchEntities name
                    [translate_keys qs_params key_translations
                       (Some [N.FLATTEN; N.FORMAT])]]) <= 1)%nat).
  { rewrite searches_app, Hs. unfold searches. simpl. lia. }
  destruct (data.search_entities D es name _) as [results|e].
  2:{ intros H. inversion H; subst. simpl. rewrite Ht, <- app_assoc. eauto. }
  unfold bind at 1.
  destruct (first results) as [result|e].
  2:{ intros H. inversion H; subst. simpl. rewrite Ht, <- app_assoc. eauto. }
  unfold bind at 1.
  destruct (get_index_source name) as [source|e];
    intros H; inversion H; subst; simpl; rewrite Ht, <- app_assoc; eauto.
Qed.

Lemma process_entity_bulk_searches D request name param_parser key_translations
    w r w' :
  process_entity_bulk D request name param_parser key_translations w = (r, w') ->
  exists evs, trace w' = trace w ++ evs /\ (searches evs <= 1)%nat.
Proof.
  unfold process_entity_bulk.
  destruct (params.parse_post_params param_parser (args request) (json request) name)
    as [errors|body_params].
  { intros H. inversion H; subst. exists []. rewrite app_nil_r. auto. }
  unfold bind at 1.
  destruct (get_elasticsearch D w) as [[es|e] w1] eqn:Hes;
    destruct (get_elasticsearch_searches D w _ w1 Hes) as (_ & evs & Ht & Hs & _).
  2:{ intros H. inversion H; subst. exists evs. split; auto. lia. }
  unfold bind at 1, search_entities, bind at 1, emit, lift.
  assert (Hevs : (searches (evs ++ [SearchEntities name
                    (entity_queries key_translations body_params)]) <= 1)%nat).
  { rewrite searches_app, Hs. unfold searches. simpl. lia. }
  fold (entity_queries key_translations body_params).
  destruct (data.search_entities D es name _) as [results|e].
  2:{ intros H. inversion H; subst. simpl. rewrite Ht, <- app_assoc. eauto. }
  unfold bind at 1.
  destruct (get_index_source name) as [source|e];
    intros H; inversion H; subst; simpl; rewrite Ht, <- app_assoc; eauto.
Qed.

(** C6. For every handler (entities, streets, addresses, places) and both
    of its paths.  A parameter-parsing failure is answered at once by the
    validation-error response of the path (the flat list of errors for a
    single request, the list of per-item lists for a bulk one) and leaves
    the world as it is, so before any backend call.  A connectivity
    failure aborts the operation: when a call to the data layer (creating
    the handle or the pool, a search, an interpolation lookup) is answered
    by a [DataConnectionException], no further call is made, the failed
    one is not made again, only the connection checked out is released;
    the response is the generic internal-error response, with no result,
    after one log entry that names the resource; the exception never
    leaves the handler.  When every call was answered the response is not
    the internal-error response.  [process_entity] calls the search
    backend at most once per request. *)
Theorem failure_handling :
  forall (D : data.layer) (F : formatter.tables),
    (forall name param_parser key_translations,
        answers_failures D
          (fun request => process_entity D F request name param_parser key_translations)
          param_parser name name)
    /\ (forall P, answers_failures D (process_street D F P) P N.STREETS "calles")
    /\ (forall P,
          answers_failures D (process_address D F P) P N.ADDRESSES "direcciones")
    /\ (forall P, answers_failures D (process_place D P) P N.PLACES "ubicacion")
    /\ (forall request name param_parser key_translations w r w',
        process_entity D F request name param_parser key_translations w = (r, w') ->
        exists evs, trace w' = trace w ++ evs /\ (searches evs <= 1)%nat).
Proof.
  intros D F. split; [|split; [|split; [|split]]].
  - intros name param_parser key_translations.
    apply (answers_failures_intro D _
             (fun request =>
                process_entity_single D F request name param_parser key_translations)
             (fun request =>
                process_entity_bulk D request name param_parser key_translations));
      [reflexivity | intros; apply stops_process_entity_single
      | intros; apply stops_process_entity_bulk | parse_failure | parse_failure].
  - intros P.
    apply (answers_failures_intro D _ (process_street_single D F P)
             (process_street_bulk D F P));
      [reflexivity | intros; apply stops_process_street_single
      | intros; apply stops_process_street_bulk | parse_failure | parse_failure].
  - intros P.
    apply (answers_failures_intro D _ (process_address_single D F P)
             (process_address_bulk D F P));
      [reflexivity | intros; apply stops_process_address_single
      | intros; apply stops_process_address_bulk | parse_failure | parse_failure].
  - intros P.
    apply (answers_failures_intro D _ (process_place_single D P)
             (process_place_bulk D P));
      [reflexivity | intros; apply stops_process_place_single
      | intros; apply stops_process_place_bulk | parse_failure | parse_failure].
  - intros request name param_parser key_translations w r w' H.
    unfold process_entity, try_except_connection in H.
    destruct ((if (method request =? "GET")%string
               then process_entity_single D F request name param_parser key_translations
               else process_entity_bulk D request name param_parser key_translations) w)
      as [body_r w1] eqn:Hbody.
    assert (Hone : exists evs, trace w1 = trace w ++ evs /\ (searches evs <= 1)%nat).
    { destruct (method request =? "GET")%string.
      - eapply process_entity_single_searches; eauto.
      - eapply process_entity_bulk_searches; eauto. }
    destruct Hone as (evs & Ht & Hs).
    destruct body_r as [resp|[]]; inversion H; subst; eauto.
    simpl. exists (evs ++ [LogException (log_prefix ++ name)]). split.
    + rewrite Ht. now rewrite <- app_assoc.
    + rewrite searches_app. unfold searches at 2. simpl. lia.
Qed.

(** ** QueryResult *)

(** C7 (as the code has it).  A singular result has [iterable = false],
    [total = 1], [offset = 0] and exactly one entity.  A list result has
    [iterable = true] and stores the entities, total and offset it is
    given as they are: it has [len(entities) <= total] exactly when the
    total passed in is at least the number of entities passed in.  The
    result of a point query is singular; the result of an entity query is
    a list result built from the hits, total and offset of the backend
    result, so it has [len(entities) <= total] exactly when the backend
    returned no more hits than its total.  The fields are only read
    afterwards: a [QueryResult] is an immutable record with four
    accessors. *)
Theorem query_result_shapes :
  (forall entity : dict,
      let qr := from_single_entity entity in
      iterable qr = false /\ total qr = 1 /\ offset qr = 0
      /\ entities qr = [entity] /\ List.length (entities qr) = 1%nat)
  /\ (forall (ents : list dict) (tot off : Z),
      let qr := from_entity_list ents tot off in
      iterable qr = true /\ entities qr = ents /\ total qr = tot
      /\ offset qr = off
      /\ (Z.of_nat (List.length (entities qr)) <= total qr
          <-> Z.of_nat (List.length ents) <= tot))
  /\ (forall D P request w name query_result fmt w',
      process_place_single D P request w
      = (Ok (formatter.create_ok_response name query_result fmt), w') ->
      exists place,
        query_result = from_single_entity place
        /\ iterable query_result = false /\ total query_result = 1
        /\ offset query_result = 0 /\ entities query_result = [place])
  /\ (forall D F request name param_parser key_translations w name' query_result
             fmt w',
      process_entity_single D F request name param_parser key_translations w
      = (Ok (formatter.create_ok_response name' query_result fmt), w') ->
      exists result source,
        query_result = from_entity_list (tagged source (data.hits result))
                         (data.total result) (data.offset result)
        /\ iterable query_result = true
        /\ (Z.of_nat (List.length (entities query_result)) <= total query_result
            <-> Z.of_nat (List.length (data.hits result)) <= data.total result)).
Proof.
  split; [|split; [|split]].
  - intros entity qr. subst qr. simpl. auto.
  - intros ents tot off qr. subst qr. simpl. repeat split; auto.
  - intros D P request w name query_result fmt w' H.
    unfold process_place_single in H.
    destruct (params.parse_get_params P (args request)) as [errors|qs_params];
      [discriminate|].
    destruct (build_place_query_format qs_params) as [query fmt0].
    step_bind H as es Hes. step_bind H as places Hplaces.
    step_bind H as place Hplace. step_ret H.
    match goal with
    | E : formatter.create_ok_response _ _ _ = _ |- _ => inversion E; subst
    end.
    exists place. simpl. auto.
  - intros D F request name param_parser key_translations w name' query_result
      fmt w' H.
    unfold process_entity_single in H.
    destruct (params.parse_get_params param_parser (args request))
      as [errors|qs_params]; [discriminate|].
    step_bind H as csv Hcsv. step_bind H as es Hes.
    step_bind H as results Hresults. step_bind H as result Hresult.
    step_bind H as source Hsource. step_ret H.
    match goal with
    | E : formatter.create_ok_response _ _ _ = _ |- _ => inversion E; subst
    end.
    exists result, source. unfold query_result_of, tag_source, tagged. simpl.
    rewrite length_map. repeat split; auto.
Qed.

(** C7, counterexample.  A list result built from two entities and a
    total of zero. *)
Lemma query_result_total_below_length :
  let qr := from_entity_list [[(N.ID, VStr "02")]; [(N.ID, VStr "06")]] 0 0 in
  iterable qr = true /\ ~ (Z.of_nat (List.length (entities qr)) <= total qr).
Proof. simpl. split; [reflexivity | lia]. Qed.

(** ** Failures: a request against an unreachable backend *)

Lemma failure_handling_witness :
  let run := process_address failing_store sample_tables sample_params sample_get
               new_world in
  fst run = Ok formatter.create_internal_error_response
  /\ exists evs0,
      trace (snd run) = evs0 ++ [LogException (log_prefix ++ "direcciones")]
      /\ aborted failing_store evs0.
Proof.
  intros run.
  destruct (failure_handling failing_store sample_tables) as (_ & _ & Haddress & _).
  destruct (Haddress sample_params sample_get new_world) as (_ & _ & Hrun).
  destruct (Hrun (fst run) (snd run) (surjective_pairing run))
    as (_ & evs & Ht & [(_ & Hnot) | (evs0 & -> & Hab & Hr)]).
  - exfalso. apply Hnot. reflexivity.
  - split; [exact Hr|]. exists evs0. split; [exact Ht | exact Hab].
Defined.

(** ** QueryResult: the result of a point query *)

Lemma query_result_shapes_witness :
  exists query_result fmt w',
    process_place_single sample_data sample_place_params sample_get new_world
    = (Ok (formatter.create_ok_response N.PLACE query_result fmt), w')
    /\ iterable query_result = false
    /\ total query_result = 1
    /\ offset query_result = 0
    /\ List.length (entities query_result) = 1%nat.
Proof.
  destruct query_result_shapes as (_ & _ & Hplace & _).
  eassert (Hrun : process_place_single sample_data sample_place_params sample_get
                    new_world
                  = (Ok (formatter.create_ok_response N.PLACE _ _), _))
    by (vm_compute; reflexivity).
  destruct (Hplace _ _ _ _ _ _ _ _ Hrun) as (place & _ & Hit & Htot & Hoff & Hents).
  eexists. eexists. eexists. split; [exact Hrun|].
  rewrite Hents. auto.
Defined.

(** * Further properties of the module *)

(** ** translate_keys: order and copies *)

Lemma setitem_fresh (d : dict) k v : ~ In k (keys d) -> setitem d k v = d ++ [(k, v)].
Proof.
  induction d as [|[k0 v0] d IH]; simpl; intros Hnin; auto.
  destruct (k0 =? k)%string eqn:E.
  - apply String.eqb_eq in E. tauto.
  - rewrite IH; tauto.
Qed.

Lemma translate_fold_ordered translations ignore (d : dict) :
  forall acc,
    NoDup (keys acc ++ map (translation translations) (keys (filter (kept ignore) d))) ->
    fold_left (translate_item translations (ignore_list ignore)) d acc
    = acc ++ map (rename_item translations) (filter (kept ignore) d).
Proof.
  induction d as [|[k v] d IH]; simpl; intros acc Hnd.
  - now rewrite app_nil_r.
  - destruct (kept ignore (k, v)) eqn:Hkeep.
    + assert (Hstep : translate_item translations (ignore_list ignore) acc (k, v)
                      = setitem acc (translation translations k) v).
      { unfold translate_item. unfold kept in Hkeep. now rewrite Hkeep. }
      simpl in Hnd.
      assert (Hfresh : ~ In (translation translations k) (keys acc)).
      { intros Hin. apply NoDup_remove_2 in Hnd. apply Hnd.
        apply in_or_app. now left. }
      rewrite Hstep, (setitem_fresh _ _ _ Hfresh), IH.
      * simpl. now rewrite <- app_assoc.
      * unfold keys in *. rewrite map_app. simpl. now rewrite <- app_assoc.
    + assert (Hstep : translate_item translations (ignore_list ignore) acc (k, v)
                      = acc).
      { unfold translate_item. unfold kept in Hkeep. now rewrite Hkeep. }
      rewrite Hstep. now apply IH.
Qed.

(** X1. When the kept keys of [d] are renamed to pairwise different keys,
    [translate_keys] returns the kept items of [d], renamed, in the order
    of [d]. *)
Theorem translate_keys_ordered :
  forall (d : dict) (translations : keymap) (ignore : option (list string)),
    NoDup (map (translation translations) (keys (filter (kept ignore) d))) ->
    translate_keys d translations ignore
    = map (rename_item translations) (filter (kept ignore) d).
Proof.
  intros d translations ignore Hnd.
  rewrite translate_keys_fold.
  now rewrite translate_fold_ordered.
Qed.

Lemma translate_keys_ordered_witness :
  translate_keys [("id", VStr "06"); ("flatten", VBool true); ("name", VStr "x")]
    [("id", "entity_id")] (Some ["flatten"; "format"])
  = [("entity_id", VStr "06"); ("name", VStr "x")].
Proof.
  apply (translate_keys_ordered
           [("id", VStr "06"); ("flatten", VBool true); ("name", VStr "x")]
           [("id", "entity_id")] (Some ["flatten"; "format"])).
  simpl. repeat constructor; simpl; intuition discriminate.
Defined.

Lemma translation_nil k : translation [] k = k.
Proof. reflexivity. Qed.

Lemma filter_keys_NoDup (p : string * value -> bool) (d : dict) :
  wf_dict d -> wf_dict (filter p d).
Proof.
  unfold wf_dict, keys. induction d as [|kv d IH]; simpl; intros Hwf; auto.
  inversion Hwf as [|? ? Hnin Hd]; subst.
  destruct (p kv); simpl; auto.
  constructor; auto.
  intros Hin. apply Hnin. apply in_map_iff in Hin.
  destruct Hin as (x & Hx & Hin). apply filter_In in Hin.
  apply in_map_iff. exists x. tauto.
Qed.

(** X2. Without translations [translate_keys] copies a dictionary, less
    the ignored keys: the result is [d] itself when nothing is ignored, and
    has no ignored key and every other item of [d] otherwise. *)
Theorem translate_keys_copy :
  forall (d : dict) (ignore : option (list string)),
    wf_dict d ->
    translate_keys d [] ignore = filter (kept ignore) d
    /\ translate_keys d [] None = d
    /\ (forall k, In k (ignore_list ignore) ->
                  dict_get k (translate_keys d [] ignore) = None)
    /\ (forall k, ~ In k (ignore_list ignore) ->
                  dict_get k (translate_keys d [] ignore) = dict_get k d).
Proof.
  intros d ignore Hwf.
  assert (Hcopy : forall ig, translate_keys d [] ig = filter (kept ig) d).
  { intros ig. rewrite translate_keys_fold, translate_fold_ordered.
    - unfold rename_item. simpl.
      rewrite <- (map_id (filter (kept ig) d)) at 2.
      apply map_ext. now intros [k v].
    - rewrite map_ext with (g := fun k => k) by apply translation_nil.
      rewrite map_id. now apply filter_keys_NoDup. }
  split; [apply Hcopy|]. split.
  - rewrite Hcopy. clear.
    induction d as [|kv d IH]; simpl; [reflexivity|].
    now f_equal.
  - split; intros k Hk; rewrite Hcopy; clear Hcopy Hwf;
      induction d as [|[k0 v0] d IH]; simpl; auto; unfold kept at 1; simpl.
    + destruct (str_in_list k0 (ignore_list ignore)) eqn:E; simpl; auto.
      destruct (k0 =? k)%string eqn:Ek; auto.
      apply String.eqb_eq in Ek. subst k0.
      apply str_in_list_In in Hk. congruence.
    + destruct (k0 =? k)%string eqn:Ek.
      * apply String.eqb_eq in Ek. subst k0.
        destruct (str_in_list k (ignore_list ignore)) eqn:E; simpl.
        -- apply str_in_list_In in E. contradiction.
        -- now rewrite String.eqb_refl.
      * destruct (str_in_list k0 (ignore_list ignore)); simpl; auto.
        now rewrite Ek.
Qed.

Lemma translate_keys_copy_witness :
  translate_keys sample_point [] (Some [N.FLATTEN; N.FORMAT])
  = [("lat", VFloat (-27 # 1)); ("lon", VFloat (-55 # 1))].
Proof.
  apply (translate_keys_copy sample_point (Some [N.FLATTEN; N.FORMAT])).
  repeat constructor; simpl; intuition discriminate.
Defined.

(** ** street_extents: what it reads and what it returns *)

Lemma street_extents_reads door_nums number r :
  street_extents door_nums number = Ok r ->
  exists start_r start_l end_r end_l,
    boundary door_nums N.START N.RIGHT = Ok start_r
    /\ boundary door_nums N.START N.LEFT = Ok start_l
    /\ boundary door_nums N.END N.RIGHT = Ok end_r
    /\ boundary door_nums N.END N.LEFT = Ok end_l
    /\ first_extent
         [(start_r, end_l); (start_l, end_r); (start_r, end_r); (start_l, end_l)]
         number = Ok r.
Proof.
  unfold street_extents, boundary. intros H.
  destruct (subscript door_nums N.START) as [starts|]; simpl in *; [|discriminate].
  destruct (subscript starts N.RIGHT) as [start_r|]; simpl in *; [|discriminate].
  destruct (subscript starts N.LEFT) as [start_l|]; simpl in *; [|discriminate].
  destruct (subscript door_nums N.END) as [ends|]; simpl in *; [|discriminate].
  destruct (subscript ends N.RIGHT) as [end_r|]; simpl in *; [|discriminate].
  destruct (subscript ends N.LEFT) as [end_l|]; simpl in *; [|discriminate].
  exists start_r, start_l, end_r, end_l. auto.
Qed.

(** X3. [street_extents] reads the four boundaries before it compares
    anything: it returns only for a record that has all four, and a record
    with start-right and end-left alone (the two boundary fields the address
    query asks the backend for) makes it raise a [KeyError], also when these
    two contain the number. *)
Theorem street_extents_needs_four_boundaries :
  forall (door_nums : value) (number : Z),
    (forall r,
        street_extents door_nums number = Ok r ->
        is_ok (boundary door_nums N.START N.RIGHT) = true
        /\ is_ok (boundary door_nums N.START N.LEFT) = true
        /\ is_ok (boundary door_nums N.END N.RIGHT) = true
        /\ is_ok (boundary door_nums N.END N.LEFT) = true)
    /\ (forall start_r end_l,
        street_extents (requested_door_numbers start_r end_l) number
        = Raise (KeyError N.LEFT)).
Proof.
  intros door_nums number. split.
  - intros r H. apply street_extents_reads in H.
    destruct H as (sr & sl & er & el & -> & -> & -> & -> & _). auto.
  - intros start_r end_l. reflexivity.
Qed.

Lemma street_extents_needs_four_boundaries_witness :
  street_extents (door_numbers (VInt 100) (VInt 101) (VInt 200) (VInt 201)) 150
  = Ok (VInt 101, VInt 200)
  /\ is_ok (boundary (door_numbers (VInt 100) (VInt 101) (VInt 200) (VInt 201))
             N.END N.LEFT) = true
  /\ street_extents (requested_door_numbers (VInt 101) (VInt 200)) 150
     = Raise (KeyError N.LEFT).
Proof.
  destruct (street_extents_needs_four_boundaries
              (door_numbers (VInt 100) (VInt 101) (VInt 200) (VInt 201)) 150)
    as [Hreads Hraises].
  split; [reflexivity|]. split.
  - apply (Hreads (VInt 101, VInt 200)). reflexivity.
  - apply Hraises.
Defined.

Lemma first_extent_sound combinations number r :
  first_extent combinations number = Ok r ->
  r = none_pair
  \/ (In r combinations /\ chained_le (fst r) number (snd r) = Ok true).
Proof.
  induction combinations as [|[s e] cs IH]; simpl; intros H.
  - inversion H. now left.
  - destruct (chained_le s number e) as [[|]|] eqn:Hle; simpl in H;
      [| |discriminate].
    + inversion H; subst. right. simpl. auto.
    + destruct (IH H) as [Hn|[Hin Hc]]; auto.
Qed.

Lemma chained_le_numbers start number end_ :
  chained_le start number end_ = Ok true ->
  is_not_none start = true /\ is_not_none end_ = true.
Proof.
  unfold chained_le. destruct start; simpl; try discriminate;
    match goal with
    | |- (if ?b then _ else _) = _ -> _ => destruct b; try discriminate
    end;
    destruct end_; simpl; try discriminate; auto.
Qed.

(** X4. Whatever [street_extents] returns is [(None, None)] or one of the
    four combinations of the record's own boundary values, one that passes
    the test [start <= number <= end]; its two bounds are then not
    [None]. *)
Theorem street_extents_sound :
  forall (door_nums : value) (number : Z) (start end_ : value),
    street_extents door_nums number = Ok (start, end_) ->
    (start, end_) = (VNone, VNone)
    \/ (chained_le start number end_ = Ok true
        /\ is_not_none start = true /\ is_not_none end_ = true
        /\ exists a b,
            boundary door_nums N.START a = Ok start
            /\ boundary door_nums N.END b = Ok end_).
Proof.
  intros door_nums number start end_ H.
  apply street_extents_reads in H.
  destruct H as (sr & sl & er & el & Hsr & Hsl & Her & Hel & H).
  apply first_extent_sound in H. destruct H as [H|[Hin Hle]]; [now left|].
  right. simpl in Hle. split; [exact Hle|].
  destruct (chained_le_numbers _ _ _ Hle) as [Hs He]. repeat split; auto.
  simpl in Hin.
  destruct Hin as [Hin|[Hin|[Hin|[Hin|[]]]]]; inversion Hin; subst; eauto.
Qed.

Lemma street_extents_sound_witness :
  chained_le (VInt 101) 150 (VInt 200) = Ok true.
Proof.
  destruct (street_extents_sound
              (door_numbers (VInt 100) (VInt 101) (VInt 200) (VInt 201)) 150
              (VInt 101) (VInt 200) eq_refl) as [H|[H _]].
  - discriminate H.
  - exact H.
Defined.

(** X5. A number below both start values is in no combination, whatever
    the end values are: they are not compared, so even null end values
    give [(None, None)] and not an error. *)
Theorem street_extents_below_starts :
  forall (door_nums : value) (sr sl number : Z) (end_r end_l : value),
    boundary door_nums N.START N.RIGHT = Ok (VInt sr) ->
    boundary door_nums N.START N.LEFT = Ok (VInt sl) ->
    boundary door_nums N.END N.RIGHT = Ok end_r ->
    boundary door_nums N.END N.LEFT = Ok end_l ->
    number < sr -> number < sl ->
    street_extents door_nums number = Ok (VNone, VNone).
Proof.
  intros door_nums sr sl number end_r end_l Hsr Hsl Her Hel Hr Hl.
  rewrite (street_extents_unfold door_nums number _ _ _ _ Hsr Hsl Her Hel).
  simpl. unfold chained_le. simpl.
  apply Z.leb_gt in Hr, Hl. now rewrite Hr, Hl.
Qed.

Lemma street_extents_below_starts_witness :
  street_extents (door_numbers (VInt 100) (VInt 101) VNone VNone) 50
  = Ok (VNone, VNone).
Proof.
  apply (street_extents_below_starts
           (door_numbers (VInt 100) (VInt 101) VNone VNone) 101 100 50 VNone VNone);
    try reflexivity.
Defined.

(** ** The handles of the application *)

(** X6. The search handle and the connection pool are created on first
    use and kept: once [get_elasticsearch] (or
    [get_postgres_db_connection_pool]) has returned, a further call returns
    the same object and leaves the world, trace included, as it is,
    whatever has become of the data layer.  A creation that fails leaves
    the application without the object, so that the next call tries
    again. *)
Theorem handles_created_once :
  forall (D : data.layer) (w w1 : world),
    (forall es,
        get_elasticsearch D w = (Ok es, w1) ->
        forall D', get_elasticsearch D' w1 = (Ok es, w1))
    /\ (forall e,
        get_elasticsearch D w = (Raise e, w1) ->
        app_elasticsearch w1 = None
        /\ get_elasticsearch D w1
           = (Raise e, with_event EsConnect w1))
    /\ (get_postgres_db_connection_pool D w = (Ok tt, w1) ->
        forall D', get_postgres_db_connection_pool D' w1 = (Ok tt, w1))
    /\ (forall e,
        get_postgres_db_connection_pool D w = (Raise e, w1) ->
        app_postgres_pool w1 = None
        /\ get_postgres_db_connection_pool D w1
           = (Raise e, with_event PoolCreate w1)).
Proof.
  intros D w w1. split; [|split; [|split]].
  - intros es H D'. unfold get_elasticsearch in *.
    destruct (app_elasticsearch w) as [es0|] eqn:Hes.
    + inversion H; subst. now rewrite Hes.
    + destruct (data.elasticsearch_connection D); inversion H; subst. reflexivity.
  - intros e H. unfold get_elasticsearch in *.
    destruct (app_elasticsearch w) as [es0|] eqn:Hes; [discriminate|].
    destruct (data.elasticsearch_connection D) eqn:Hc; inversion H; subst.
    simpl. rewrite Hes. auto.
  - intros H D'. unfold get_postgres_db_connection_pool in *.
    destruct (app_postgres_pool w) as [p0|] eqn:Hp.
    + inversion H; subst. now rewrite Hp.
    + destruct (data.postgres_db_connection_pool D); inversion H; subst. reflexivity.
  - intros e H. unfold get_postgres_db_connection_pool in *.
    destruct (app_postgres_pool w) as [p0|] eqn:Hp; [discriminate|].
    destruct (data.postgres_db_connection_pool D) eqn:Hc; inversion H; subst.
    simpl. rewrite Hp. auto.
Qed.

Lemma handles_created_once_witness :
  get_elasticsearch dead_data
    (with_elasticsearch EsHandle (with_event EsConnect new_world))
  = (Ok EsHandle, with_elasticsearch EsHandle (with_event EsConnect new_world)).
Proof.
  destruct (handles_created_once sample_data new_world
              (with_elasticsearch EsHandle (with_event EsConnect new_world)))
    as [Hkept _].
  apply (Hkept EsHandle). reflexivity.
Defined.

(** ** What the handlers catch *)

Lemma try_except_connection_other {A} (body handler : M A) w e w1 :
  e <> DataConnectionException ->
  body w = (Raise e, w1) ->
  try_except_connection body handler w = (Raise e, w1).
Proof.
  intros Hne Hbody. unfold try_except_connection. rewrite Hbody.
  destruct e; try reflexivity. congruence.
Qed.

(** X7. The handlers catch [DataConnectionException] and nothing else:
    any other exception raised by the path of the request (a [KeyError]
    of a hit without geometry, the [ValueError] of an index without source,
    a [TypeError] of a null boundary, the error of an exhausted pool)
    leaves the handler as it is, with no response and no log entry. *)
Theorem handlers_catch_connection_only :
  forall (D : data.layer) (F : formatter.tables) (P : params.ParameterSet)
         (request : Request) (w : world) (e : exn) (w1 : world),
    e <> DataConnectionException ->
    (forall name key_translations,
        (if (method request =? "GET")%string
         then process_entity_single D F request name P key_translations
         else process_entity_bulk D request name P key_translations) w
        = (Raise e, w1) ->
        process_entity D F request name P key_translations w = (Raise e, w1))
    /\ ((if (method request =? "GET")%string
         then process_street_single D F P request
         else process_street_bulk D F P request) w = (Raise e, w1) ->
        process_street D F P request w = (Raise e, w1))
    /\ ((if (method request =? "GET")%string
         then process_address_single D F P request
         else process_address_bulk D F P request) w = (Raise e, w1) ->
        process_address D F P request w = (Raise e, w1))
    /\ ((if (method request =? "GET")%string
         then process_place_single D P request
         else process_place_bulk D P request) w = (Raise e, w1) ->
        process_place D P request w = (Raise e, w1)).
Proof.
  intros D F P request w e w1 Hne.
  split; [|split; [|split]]; intros; try intros H;
    now apply try_except_connection_other.
Qed.

Lemma handlers_catch_connection_only_witness :
  exists w1,
    process_address no_geometry_data sample_tables sample_params sample_get new_world
    = (Raise (KeyError N.GEOM), w1)
    /\ checkouts (trace w1) = 1%nat /\ releases (trace w1) = 1%nat.
Proof.
  eexists. split.
  - destruct (handlers_catch_connection_only no_geometry_data sample_tables
                sample_params sample_get new_world (KeyError N.GEOM)
                (snd (process_address_single no_geometry_data sample_tables
                        sample_params sample_get new_world)))
      as (_ & _ & Haddress & _).
    + discriminate.
    + apply Haddress. reflexivity.
  - split; reflexivity.
Defined.

(** ** Entities: the single path and the four handlers *)

Lemma select_keys_get (ks : list string) (d : dict) (k : string) :
  dict_get k (select_keys ks d)
  = if str_in_list k ks then dict_get k d else None.
Proof.
  unfold select_keys.
  assert (H : forall acc,
             dict_get k (fold_left
                           (fun acc k0 => match dict_get k0 d with
                                          | Some v => setitem acc k0 v
                                          | None => acc
                                          end) ks acc)
             = if str_in_list k ks
               then match dict_get k d with
                    | Some v => Some v
                    | None => dict_get k acc
                    end
               else dict_get k acc).
  { induction ks as [|k0 ks IH]; simpl; intros acc; auto.
    rewrite IH.
    destruct (k0 =? k)%string eqn:E; simpl.
    - apply String.eqb_eq in E. subst k0.
      destruct (dict_get k d) as [v|] eqn:Hk.
      + destruct (str_in_list k ks); auto. apply dict_get_setitem_eq.
      + destruct (str_in_list k ks); auto.
    - apply String.eqb_neq in E.
      destruct (dict_get k0 d) as [v0|]; auto.
      rewrite dict_get_setitem_neq by assumption. reflexivity. }
  rewrite H. simpl.
  destruct (str_in_list k ks); auto. destruct (dict_get k d); auto.
Qed.

Lemma process_entity_single_inv D F request name P key_translations w resp w' :
  process_entity_single D F request name P key_translations w = (Ok resp, w') ->
  (exists errors,
      params.parse_get_params P (args request) = inl errors
      /\ resp = formatter.create_param_error_response_single errors /\ w' = w)
  \/ (exists qs_params csv es w1 result others source,
      params.parse_get_params P (args request) = inr qs_params
      /\ getitem (formatter.ENDPOINT_CSV_FIELDS F) name = Ok csv
      /\ get_elasticsearch D w = (Ok es, w1)
      /\ data.search_entities D es name [entity_query key_translations qs_params]
         = Ok (result :: others)
      /\ get_index_source name = Ok source
      /\ resp = formatter.create_ok_response name
                  (from_entity_list (tagged source (data.hits result))
                     (data.total result) (data.offset result))
                  (single_format csv qs_params)
      /\ w' = with_event
                (SearchEntities name [entity_query key_translations qs_params]) w1).
Proof.
  unfold process_entity_single. intros H.
  destruct (params.parse_get_params P (args request)) as [errors|qs_params].
  { left. step_ret H. eauto. }
  right.
  step_bind H as csv Hcsv. step_lift Hcsv.
  step_bind H as es Hes.
  step_bind H as results Hsearch.
  step_bind H as result Hfirst. step_lift Hfirst.
  step_bind H as source Hsource. step_lift Hsource.
  step_ret H.
  unfold search_entities, bind, emit, lift in Hsearch. simpl in Hsearch.
  destruct (data.search_entities D es name _) as [results0|] eqn:Hdata;
    inversion Hsearch; subst.
  destruct results as [|result0 others]; simpl in Hfirst; inversion Hfirst; subst.
  exists qs_params, csv, es, w0, result, others, source.
  repeat split; auto.
Qed.

Lemma process_entity_bulk_inv D request name P key_translations w resp w' :
  process_entity_bulk D request name P key_translations w = (Ok resp, w') ->
  (exists errors,
      params.parse_post_params P (args request) (json request) name = inl errors
      /\ resp = formatter.create_param_error_response_bulk errors /\ w' = w)
  \/ (exists body_params es w1 results source,
      params.parse_post_params P (args request) (json request) name
      = inr body_params
      /\ get_elasticsearch D w = (Ok es, w1)
      /\ data.search_entities D es name (entity_queries key_translations body_params)
         = Ok results
      /\ get_index_source name = Ok source
      /\ resp = formatter.create_ok_response_bulk name
                  (map query_result_of (map (tag_source source) results))
                  (map bulk_format body_params)
      /\ w' = with_event
                (SearchEntities name (entity_queries key_translations body_params))
                w1).
Proof.
  unfold process_entity_bulk. intros H.
  destruct (params.parse_post_params P (args request) (json request) name)
    as [errors|body_params].
  { left. step_ret H. eauto. }
  right.
  step_bind H as es Hes.
  step_bind H as results Hsearch.
  step_bind H as source Hsource. step_lift Hsource.
  step_ret H.
  unfold search_entities, bind, emit, lift in Hsearch. simpl in Hsearch.
  fold (entity_queries key_translations body_params) in Hsearch.
  destruct (data.search_entities D es name _) as [results0|] eqn:Hdata;
    inversion Hsearch; subst.
  exists body_params, es, w0, results, source. repeat split; auto.
Qed.

Lemma process_entity_tags D F request name P key_translations w resp w' hit :
  process_entity D F request name P key_translations w = (Ok resp, w') ->
  In hit (response_entities resp) ->
  exists source,
    get_index_source name = Ok source
    /\ dict_get N.SOURCE hit = Some (VStr source).
Proof.
  unfold process_entity, try_except_connection. intros H Hin.
  destruct (method request =? "GET")%string.
  - destruct (process_entity_single D F request name P key_translations w)
      as [[resp0|e] w1] eqn:Hbody.
    + inversion H; subst.
      apply process_entity_single_inv in Hbody.
      destruct Hbody as [(errors & _ & -> & _)
                        |(qs & csv & es & w2 & result & others & source & _ & _ & _
                          & _ & Hsource & -> & _)]; [contradiction|].
      simpl in Hin. exists source. split; auto. now apply tagged_source in Hin.
    + destruct e; inversion H; subst. contradiction.
  - destruct (process_entity_bulk D request name P key_translations w)
      as [[resp0|e] w1] eqn:Hbody.
    + inversion H; subst.
      apply process_entity_bulk_inv in Hbody.
      destruct Hbody as [(errors & _ & -> & _)
                        |(body & es & w2 & results & source & _ & _ & _
                          & Hsource & -> & _)]; [contradiction|].
      simpl in Hin. exists source. split; auto.
      apply in_concat in Hin. destruct Hin as (ents & Hents & Hhit).
      apply in_map_iff in Hents. destruct Hents as (qr & <- & Hqr).
      apply in_map_iff in Hqr. destruct Hqr as (r1 & <- & Hr1).
      apply in_map_iff in Hr1. destruct Hr1 as (r0 & <- & _).
      simpl in Hhit. now apply tagged_source in Hhit.
    + destruct e; inversion H; subst. contradiction.
Qed.

(** X8. Every entity of a response of the four entity handlers, single or
    bulk, carries the source of its index under the source key: IGN for
    states, departments and municipalities, BAHRA for localities. *)
Theorem entity_handlers_sources :
  forall (D : data.layer) (F : formatter.tables) (P : params.ParameterSet)
         (request : Request) (w : world) (resp : formatter.Response) (w' : world)
         (hit : dict),
    In hit (response_entities resp) ->
    (process_state D F P request w = (Ok resp, w') ->
     dict_get N.SOURCE hit = Some (VStr N.SOURCE_IGN))
    /\ (process_department D F P request w = (Ok resp, w') ->
        dict_get N.SOURCE hit = Some (VStr N.SOURCE_IGN))
    /\ (process_municipality D F P request w = (Ok resp, w') ->
        dict_get N.SOURCE hit = Some (VStr N.SOURCE_IGN))
    /\ (process_locality D F P request w = (Ok resp, w') ->
        dict_get N.SOURCE hit = Some (VStr N.SOURCE_BAHRA)).
Proof.
  intros D F P request w resp w' hit Hin.
  split; [|split; [|split]]; intros H;
    destruct (process_entity_tags _ _ _ _ _ _ _ _ _ _ H Hin) as (source & Hs & Hhit);
    inversion Hs; subst; exact Hhit.
Qed.

Lemma entity_handlers_sources_witness :
  exists resp w',
    process_locality sample_data sample_tables sample_entity_params sample_post
      new_world = (Ok resp, w')
    /\ In [(N.ID, VStr "06"); (N.SOURCE, VStr N.SOURCE_BAHRA)] (response_entities resp)
    /\ dict_get N.SOURCE [(N.ID, VStr "06"); (N.SOURCE, VStr N.SOURCE_BAHRA)]
       = Some (VStr N.SOURCE_BAHRA).
Proof.
  eexists. eexists.
  assert (Hrun : process_locality sample_data sample_tables sample_entity_params
                   sample_post new_world
                 = (Ok (formatter.create_ok_response_bulk N.LOCALITIES
                          [from_entity_list
                             [[(N.ID, VStr "06"); (N.SOURCE, VStr N.SOURCE_BAHRA)]] 1 0;
                           from_entity_list
                             [[(N.ID, VStr "06"); (N.SOURCE, VStr N.SOURCE_BAHRA)]] 1 0]
                          [[]; []]),
                    snd (process_locality sample_data sample_tables
                           sample_entity_params sample_post new_world)))
    by reflexivity.
  assert (Hin : In [(N.ID, VStr "06"); (N.SOURCE, VStr N.SOURCE_BAHRA)]
                  (response_entities
                     (formatter.create_ok_response_bulk N.LOCALITIES
                        [from_entity_list
                           [[(N.ID, VStr "06"); (N.SOURCE, VStr N.SOURCE_BAHRA)]] 1 0;
                         from_entity_list
                           [[(N.ID, VStr "06"); (N.SOURCE, VStr N.SOURCE_BAHRA)]] 1 0]
                        [[]; []])))
    by (simpl; now left).
  split; [exact Hrun|]. split; [exact Hin|].
  destruct (entity_handlers_sources sample_data sample_tables sample_entity_params
              sample_post new_world _
              (snd (process_locality sample_data sample_tables
                      sample_entity_params sample_post new_world))
              _ Hin) as (_ & _ & _ & Hlocality).
  exact (Hlocality Hrun).
Defined.

Lemma search_entities_run D es name queries w :
  search_entities D es name queries w
  = (data.search_entities D es name queries,
     with_event (SearchEntities name queries) w).
Proof. reflexivity. Qed.

Lemma process_entity_single_run D F request name P key_translations qs_params csv w :
  params.parse_get_params P (args request) = inr qs_params ->
  getitem (formatter.ENDPOINT_CSV_FIELDS F) name = Ok csv ->
  process_entity_single D F request name P key_translations w
  = match get_elasticsearch D w with
    | (Ok es, w1) =>
        let w2 := with_event
                    (SearchEntities name [entity_query key_translations qs_params])
                    w1 in
        match data.search_entities D es name
                [entity_query key_translations qs_params] with
        | Ok results =>
            match first results with
            | Ok result =>
                match get_index_source name with
                | Ok source =>
                    (Ok (formatter.create_ok_response name
                           (query_result_of (tag_source source result))
                           (single_format csv qs_params)), w2)
                | Raise e => (Raise e, w2)
                end
            | Raise e => (Raise e, w2)
            end
        | Raise e => (Raise e, w2)
        end
    | (Raise e, w1) => (Raise e, w1)
    end.
Proof.
  intros Hparse Hcsv. unfold process_entity_single. rewrite Hparse.
  unfold bind at 1, lift at 1. rewrite Hcsv.
  unfold bind at 1.
  destruct (get_elasticsearch D w) as [[es|e] w1]; [|reflexivity].
  unfold bind at 1. rewrite search_entities_run.
  fold (entity_query key_translations qs_params).
  destruct (data.search_entities D es name _) as [results|e]; [|reflexivity].
  unfold bind at 1, lift at 1.
  destruct (first results) as [result|e]; [|reflexivity].
  unfold bind at 1, lift at 1.
  destruct (get_index_source name) as [source|e]; reflexivity.
Qed.

Lemma process_entity_bulk_run D request name P key_translations body_params w :
  params.parse_post_params P (args request) (json request) name = inr body_params ->
  process_entity_bulk D request name P key_translations w
  = match get_elasticsearch D w with
    | (Ok es, w1) =>
        let w2 := with_event
                    (SearchEntities name
                       (entity_queries key_translations body_params)) w1 in
        match data.search_entities D es name
                (entity_queries key_translations body_params) with
        | Ok results =>
            match get_index_source name with
            | Ok source =>
                (Ok (formatter.create_ok_response_bulk name
                       (map query_result_of (map (tag_source source) results))
                       (map bulk_format body_params)), w2)
            | Raise e => (Raise e, w2)
            end
        | Raise e => (Raise e, w2)
        end
    | (Raise e, w1) => (Raise e, w1)
    end.
Proof.
  intros Hparse. unfold process_entity_bulk. rewrite Hparse.
  unfold bind at 1.
  destruct (get_elasticsearch D w) as [[es|e] w1]; [|reflexivity].
  unfold bind at 1. rewrite search_entities_run.
  fold (entity_queries key_translations body_params).
  destruct (data.search_entities D es name _) as [results|e]; [|reflexivity].
  unfold bind at 1, lift at 1.
  destruct (get_index_source name) as [source|e]; reflexivity.
Qed.

(** X9. The single path of an entity request answers with the first
    result of the backend and no other: its hits tagged with the source,
    its total and its offset, after one search call with the one query.
    The format rules are the [flatten], [fields] and [format] parameters
    the request has, and the CSV columns of the entity. *)
Theorem process_entity_single_first_result :
  forall (D : data.layer) (F : formatter.tables) (request : Request) (name : string)
         (P : params.ParameterSet) (key_translations : keymap) (qs_params : dict)
         (csv : value) (es : Elasticsearch) (w w1 : world)
         (result : data.Result) (others : list data.Result) (source : string),
    params.parse_get_params P (args request) = inr qs_params ->
    getitem (formatter.ENDPOINT_CSV_FIELDS F) name = Ok csv ->
    get_elasticsearch D w = (Ok es, w1) ->
    data.search_entities D es name [entity_query key_translations qs_params]
    = Ok (result :: others) ->
    get_index_source name = Ok source ->
    process_entity_single D F request name P key_translations w
    = (Ok (formatter.create_ok_response name
             (from_entity_list (tagged source (data.hits result))
                (data.total result) (data.offset result))
             (single_format csv qs_params)),
       with_event (SearchEntities name [entity_query key_translations qs_params]) w1)
    /\ dict_get N.CSV_FIELDS (single_format csv qs_params) = Some csv
    /\ (forall k, In k [N.FLATTEN; N.FIELDS; N.FORMAT] ->
                  dict_get k (single_format csv qs_params) = dict_get k qs_params)
    /\ (forall k, ~ In k [N.FLATTEN; N.FIELDS; N.FORMAT; N.CSV_FIELDS] ->
                  dict_get k (single_format csv qs_params) = None).
Proof.
  intros D F request name P key_translations qs_params csv es w w1 result others
    source Hparse Hcsv Hes Hsearch Hsource.
  split; [|split; [|split]].
  - rewrite (process_entity_single_run D F request name P key_translations
               qs_params csv w Hparse Hcsv).
    rewrite Hes. cbv zeta. rewrite Hsearch. simpl first. cbv iota beta.
    rewrite Hsource. reflexivity.
  - apply dict_get_setitem_eq.
  - intros k Hk. unfold single_format.
    rewrite dict_get_setitem_neq.
    + rewrite select_keys_get.
      apply str_in_list_In in Hk. now rewrite Hk.
    + simpl in Hk. intros <-. intuition discriminate.
  - intros k Hk. unfold single_format.
    rewrite dict_get_setitem_neq.
    + rewrite select_keys_get.
      destruct (str_in_list k [N.FLATTEN; N.FIELDS; N.FORMAT]) eqn:E; auto.
      apply str_in_list_In in E. exfalso. apply Hk. simpl in *. tauto.
    + intros <-. apply Hk. simpl. tauto.
Qed.

Lemma process_entity_single_first_result_witness :
  process_entity_single sample_data sample_tables sample_get N.STATES
    sample_entity_params state_translations new_world
  = (Ok (formatter.create_ok_response N.STATES
           (from_entity_list [[(N.ID, VStr "06"); (N.SOURCE, VStr N.SOURCE_IGN)]] 1 0)
           [(N.FLATTEN, VBool true);
            (N.CSV_FIELDS, VList [VStr N.ID; VStr N.NAME])]),
     with_event (SearchEntities N.STATES [[("name", VStr "salta")]])
       (with_elasticsearch EsHandle (with_event EsConnect new_world))).
Proof.
  apply (process_entity_single_first_result sample_data sample_tables sample_get
           N.STATES sample_entity_params state_translations
           [(N.NAME, VStr "salta"); (N.FLATTEN, VBool true)]
           (VList [VStr N.ID; VStr N.NAME]) EsHandle new_world
           (with_elasticsearch EsHandle (with_event EsConnect new_world))
           (data.mkResult [[(N.ID, VStr "06")]] 1 0) [] N.SOURCE_IGN);
    reflexivity.
Defined.

(** X10. The failures of an entity request come in the order of the
    code.  A single request for an entity without CSV columns raises a
    [KeyError] before the world is touched, so before any backend call; a
    bulk request never looks the columns up.  An entity without a source
    makes both paths raise only after the search call has been made; and a
    single request whose search returns no result at all raises an
    [IndexError], again after the call. *)
Theorem process_entity_failure_order :
  forall (D : data.layer) (F : formatter.tables) (request : Request) (name : string)
         (P : params.ParameterSet) (key_translations : keymap) (es : Elasticsearch)
         (w w1 : world),
    get_elasticsearch D w = (Ok es, w1) ->
    (forall qs_params,
        params.parse_get_params P (args request) = inr qs_params ->
        dict_get name (formatter.ENDPOINT_CSV_FIELDS F) = None ->
        process_entity_single D F request name P key_translations w
        = (Raise (KeyError name), w))
    /\ (forall qs_params csv,
        params.parse_get_params P (args request) = inr qs_params ->
        getitem (formatter.ENDPOINT_CSV_FIELDS F) name = Ok csv ->
        data.search_entities D es name [entity_query key_translations qs_params]
        = Ok [] ->
        process_entity_single D F request name P key_translations w
        = (Raise IndexError,
           with_event (SearchEntities name
                         [entity_query key_translations qs_params]) w1))
    /\ (forall qs_params csv result others e,
        params.parse_get_params P (args request) = inr qs_params ->
        getitem (formatter.ENDPOINT_CSV_FIELDS F) name = Ok csv ->
        data.search_entities D es name [entity_query key_translations qs_params]
        = Ok (result :: others) ->
        get_index_source name = Raise e ->
        process_entity_single D F request name P key_translations w
        = (Raise e,
           with_event (SearchEntities name
                         [entity_query key_translations qs_params]) w1))
    /\ (forall body_params results e,
        params.parse_post_params P (args request) (json request) name
        = inr body_params ->
        data.search_entities D es name (entity_queries key_translations body_params)
        = Ok results ->
        get_index_source name = Raise e ->
        process_entity_bulk D request name P key_translations w
        = (Raise e,
           with_event (SearchEntities name
                         (entity_queries key_translations body_params)) w1)).
Proof.
  intros D F request name P key_translations es w w1 Hes.
  split; [|split; [|split]].
  - intros qs_params Hparse Hnone. unfold process_entity_single.
    rewrite Hparse. unfold bind, lift, getitem. now rewrite Hnone.
  - intros qs_params csv Hparse Hcsv Hsearch.
    rewrite (process_entity_single_run D F request name P key_translations
               qs_params csv w Hparse Hcsv).
    rewrite Hes. cbv zeta. now rewrite Hsearch.
  - intros qs_params csv result others e Hparse Hcsv Hsearch Hsource.
    rewrite (process_entity_single_run D F request name P key_translations
               qs_params csv w Hparse Hcsv).
    rewrite Hes. cbv zeta. rewrite Hsearch. simpl first. cbv iota beta.
    now rewrite Hsource.
  - intros body_params results e Hparse Hsearch Hsource.
    rewrite (process_entity_bulk_run D request name P key_translations
               body_params w Hparse).
    rewrite Hes. cbv zeta. rewrite Hsearch. now rewrite Hsource.
Qed.

Lemma process_entity_failure_order_witness :
  process_entity_single sample_data sample_tables sample_get N.LOCALITIES
    sample_entity_params locality_translations ready_world
  = (Raise (KeyError N.LOCALITIES), ready_world)
  /\ process_entity_bulk sample_data sample_post N.ADDRESSES sample_entity_params
       locality_translations ready_world
     = (Raise (ValueError ("No se pudo determinar la fuente de: " ++ N.ADDRESSES)),
        with_event
          (SearchEntities N.ADDRESSES
             (entity_queries locality_translations
                [[(N.NAME, VStr "salta")]; [(N.ID, VStr "06")]]))
          ready_world).
Proof.
  destruct (process_entity_failure_order sample_data sample_tables sample_get
              N.LOCALITIES sample_entity_params locality_translations EsHandle
              ready_world ready_world eq_refl) as (Hcsv & _).
  destruct (process_entity_failure_order sample_data sample_tables sample_post
              N.ADDRESSES sample_entity_params locality_translations EsHandle
              ready_world ready_world eq_refl) as (_ & _ & _ & Hsource).
  split.
  - apply (Hcsv [(N.NAME, VStr "salta"); (N.FLATTEN, VBool true)]); reflexivity.
  - apply (Hsource [[(N.NAME, VStr "salta")]; [(N.ID, VStr "06")]]
             [data.mkResult [[(N.ID, VStr "06")]] 1 0;
              data.mkResult [[(N.ID, VStr "06")]] 1 0]); reflexivity.
Defined.

(** X11. Single and bulk agree.  For the same parameter set, a single
    request and a bulk request of that one item make the same calls (they
    leave the same world) and, when both are answered, the result of the
    single request is the first result of the bulk one.  The format rules
    of a bulk item have no output format and no CSV columns. *)
Theorem single_bulk_agree :
  forall (D : data.layer) (F : formatter.tables) (single bulk : Request)
         (name : string) (P : params.ParameterSet) (key_translations : keymap)
         (parsed_params : dict) (csv : value) (w : world),
    params.parse_get_params P (args single) = inr parsed_params ->
    params.parse_post_params P (args bulk) (json bulk) name = inr [parsed_params] ->
    getitem (formatter.ENDPOINT_CSV_FIELDS F) name = Ok csv ->
    let s := process_entity_single D F single name P key_translations w in
    let b := process_entity_bulk D bulk name P key_translations w in
    snd s = snd b
    /\ (forall query_result fmt,
          fst s = Ok (formatter.create_ok_response name query_result fmt) ->
          exists others,
            fst b = Ok (formatter.create_ok_response_bulk name
                          (query_result :: others) [bulk_format parsed_params]))
    /\ (forall query_result others formats,
          fst b = Ok (formatter.create_ok_response_bulk name
                        (query_result :: others) formats) ->
          fst s = Ok (formatter.create_ok_response name query_result
                        (single_format csv parsed_params)))
    /\ dict_get N.FORMAT (bulk_format parsed_params) = None
    /\ dict_get N.CSV_FIELDS (bulk_format parsed_params) = None.
Proof.
  intros D F single bulk name P key_translations parsed_params csv w
    Hget Hpost Hcsv s b. subst s b.
  rewrite (process_entity_single_run D F single name P key_translations
             parsed_params csv w Hget Hcsv).
  rewrite (process_entity_bulk_run D bulk name P key_translations
             [parsed_params] w Hpost).
  change (entity_queries key_translations [parsed_params])
    with [entity_query key_translations parsed_params].
  destruct (get_elasticsearch D w) as [[es|e] w1].
  2:{ simpl. repeat split; try discriminate;
        unfold bulk_format; now rewrite select_keys_get. }
  cbv zeta.
  destruct (data.search_entities D es name [entity_query key_translations parsed_params])
    as [[|result others]|e]; simpl;
    try (repeat split; try discriminate;
         unfold bulk_format; now rewrite select_keys_get).
  - destruct (get_index_source name) as [source|e]; simpl;
      repeat split; try discriminate;
      unfold bulk_format; now rewrite select_keys_get.
  - destruct (get_index_source name) as [source|e]; simpl;
      try (repeat split; try discriminate;
           unfold bulk_format; now rewrite select_keys_get).
    split; [reflexivity|]. split; [|split; [|split]].
    + intros query_result fmt H. inversion H; subst. eauto.
    + intros query_result others0 formats H. inversion H; subst. reflexivity.
    + unfold bulk_format. now rewrite select_keys_get.
    + unfold bulk_format. now rewrite select_keys_get.
Qed.

Lemma single_bulk_agree_witness :
  let s := process_entity_single sample_data sample_tables sample_get N.STATES
             (params.mkParameterSet (fun _ => inr [(N.NAME, VStr "salta")])
                (fun _ _ _ => inr [[(N.NAME, VStr "salta")]]))
             state_translations new_world in
  let b := process_entity_bulk sample_data sample_post N.STATES
             (params.mkParameterSet (fun _ => inr [(N.NAME, VStr "salta")])
                (fun _ _ _ => inr [[(N.NAME, VStr "salta")]]))
             state_translations new_world in
  snd s = snd b.
Proof.
  intros s b.
  apply (single_bulk_agree sample_data sample_tables sample_get sample_post N.STATES
           (params.mkParameterSet (fun _ => inr [(N.NAME, VStr "salta")])
              (fun _ _ _ => inr [[(N.NAME, VStr "salta")]]))
           state_translations [(N.NAME, VStr "salta")]
           (VList [VStr N.ID; VStr N.NAME]) new_world); reflexivity.
Defined.

(** ** Streets and addresses: what reaches the formatter *)

Lemma in_tagged_results source results hit :
  In hit (List.concat (map entities (map query_result_of
                                        (map (tag_source source) results)))) ->
  dict_get N.SOURCE hit = Some (VStr source).
Proof.
  intros Hin. apply in_concat in Hin. destruct Hin as (ents & Hents & Hhit).
  apply in_map_iff in Hents. destruct Hents as (qr & <- & Hqr).
  apply in_map_iff in Hqr. destruct Hqr as (r1 & <- & Hr1).
  apply in_map_iff in Hr1. destruct Hr1 as (r0 & <- & _).
  simpl in Hhit. now apply tagged_source in Hhit.
Qed.

Lemma process_street_single_tags D F P request w resp w' hit :
  process_street_single D F P request w = (Ok resp, w') ->
  In hit (response_entities resp) ->
  dict_get N.SOURCE hit = Some (VStr N.SOURCE_INDEC).
Proof.
  unfold process_street_single. intros H Hin.
  destruct (params.parse_get_params P (args request)) as [errors|qs_params].
  { step_ret H. contradiction. }
  destruct (build_street_query_format F qs_params) as [query fmt].
  step_bind H as es Hes. step_bind H as results Hsearch.
  step_bind H as result Hfirst. step_lift Hfirst.
  step_bind H as source Hsource. step_lift Hsource.
  step_ret H. inversion Hsource; subst. simpl in Hin.
  now apply tagged_source in Hin.
Qed.

Lemma process_street_bulk_tags D F P request w resp w' hit :
  process_street_bulk D F P request w = (Ok resp, w') ->
  In hit (response_entities resp) ->
  dict_get N.SOURCE hit = Some (VStr N.SOURCE_INDEC).
Proof.
  unfold process_street_bulk. intros H Hin.
  destruct (params.parse_post_params P (args request) (json request) N.STREETS)
    as [errors|body_params].
  { step_ret H. contradiction. }
  step_bind H as es Hes. step_bind H as results Hsearch.
  step_bind H as source Hsource. step_lift Hsource.
  step_ret H. inversion Hsource; subst. simpl in Hin.
  now apply in_tagged_results in Hin.
Qed.

Lemma build_address_hit_source D connection fields number source street w street' w' :
  build_address_hit D connection fields number source street w = (Ok street', w') ->
  dict_get N.SOURCE street' = Some (VStr source).
Proof.
  intros H. apply build_address_hit_ok in H.
  destruct H as (fnw & street1 & door_nums & street2 & start & end_ & geom
                 & street3 & dnw & street5 & _ & _ & _ & _ & _ & _ & _ & ->).
  apply dict_get_setitem_eq.
Qed.

Lemma build_addresses_result_entities D result query fields number result' w w' hit :
  build_addresses_result D result query N.SOURCE_INDEC w = (Ok result', w') ->
  dict_get "fields" query = Some fields ->
  dict_get "number" query = Some (VInt number) ->
  In hit (data.hits result') ->
  address_entity fields number hit.
Proof.
  intros H Hfields Hnumber Hin. apply build_addresses_result_ok in H.
  destruct H as (fields0 & number0 & Hf0 & Hn0 & _ & _ & Hhits).
  rewrite Hfields in Hf0. rewrite Hnumber in Hn0.
  inversion Hf0; inversion Hn0; subst fields0 number0.
  induction Hhits as [|street street' l l' Hone _ IH]; [contradiction|].
  destruct Hin as [<-|Hin]; [|now apply IH].
  destruct Hone as (connection & w1 & w2 & Hone). split.
  - eapply build_address_hit_source; eauto.
  - eapply build_address_hit_clean; eauto.
Qed.

(** The loop of [process_address_bulk] pairs the result at a position
    with the query at the same position. *)
Lemma build_addresses_results_nth D source :
  forall results queries w results' w',
    build_addresses_results D results queries source w = (Ok results', w') ->
    forall i query result',
      nth_error queries i = Some query ->
      nth_error results' i = Some result' ->
      exists result w1 w2,
        nth_error results i = Some result
        /\ build_addresses_result D result query source w1 = (Ok result', w2).
Proof.
  induction results as [|result results IH];
    intros queries w results' w' H i query result' Hq Hr.
  - simpl in H. step_ret H. destruct i; discriminate.
  - destruct queries as [|query0 queries]; [destruct i; discriminate|].
    simpl in H. step_bind H as result1 Hone. step_bind H as rest1 Hrest.
    step_ret H. destruct i as [|i]; simpl in *.
    + inversion Hq; inversion Hr; subst. eauto.
    + eapply IH; eauto.
Qed.

Lemma rmap_nth {A B} (f : A -> result B) (l : list A) :
  forall l' i x,
    rmap f l = Ok l' ->
    nth_error l i = Some x ->
    exists y, f x = Ok y /\ nth_error l' i = Some y.
Proof.
  induction l as [|x0 l IH]; intros l' i x H Hx; [destruct i; discriminate|].
  simpl in H.
  apply rbind_ok in H. destruct H as (y0 & Hy0 & H).
  apply rbind_ok in H. destruct H as (ys & Hys & H).
  inversion H; subst l'. destruct i as [|i]; simpl in *.
  - inversion Hx; subst. eauto.
  - eapply IH; eauto.
Qed.

(** An answer of a handler is the answer of the path taken. *)
Lemma try_except_connection_ok {A} (body handler : M A) w a w' :
  try_except_connection body handler w = (Ok a, w') ->
  body w = (Ok a, w')
  \/ exists w1, body w = (Raise DataConnectionException, w1)
                /\ handler w1 = (Ok a, w').
Proof.
  unfold try_except_connection.
  destruct (body w) as [[a0|e] w1]; [now left|].
  destruct e; intros H; try discriminate. right. eauto.
Qed.

(** X12. What a street or address request hands to the formatter.  Every
    entity of a street response, single or bulk, is tagged with the INDEC
    source.  Every entity of the response to a single address request is
    tagged with the INDEC source, has no geometry, and has a door number
    only when the fields of the query have it: the number of the query
    then, and nothing else.  In the response to a bulk address request,
    the entities of the result at a position are such entities for the
    query built from the parameter set at the same position, with its
    fields and its number; when the backend keeps its contract of one
    result per query, there are as many results as parameter sets. *)
Theorem street_and_address_entities :
  forall (D : data.layer) (F : formatter.tables) (P : params.ParameterSet)
         (request : Request) (w : world) (resp : formatter.Response) (w' : world),
    (forall hit,
        process_street D F P request w = (Ok resp, w') ->
        In hit (response_entities resp) ->
        dict_get N.SOURCE hit = Some (VStr N.SOURCE_INDEC))
    /\ (forall qs_params query fmt fields number hit,
          method request = "GET" ->
          params.parse_get_params P (args request) = inr qs_params ->
          build_address_query_format F qs_params = Ok (query, fmt) ->
          dict_get "fields" query = Some fields ->
          dict_get "number" query = Some (VInt number) ->
          process_address D F P request w = (Ok resp, w') ->
          In hit (response_entities resp) ->
          address_entity fields number hit)
    /\ (forall body_params name query_results formats,
          method request <> "GET" ->
          params.parse_post_params P (args request) (json request) N.ADDRESSES
          = inr body_params ->
          process_address D F P request w = (Ok resp, w') ->
          resp = formatter.create_ok_response_bulk name query_results formats ->
          (forall i parsed_params query fmt fields number query_result hit,
              nth_error body_params i = Some parsed_params ->
              build_address_query_format F parsed_params = Ok (query, fmt) ->
              dict_get "fields" query = Some fields ->
              dict_get "number" query = Some (VInt number) ->
              nth_error query_results i = Some query_result ->
              In hit (entities query_result) ->
              address_entity fields number hit)
          /\ (streets_contract D ->
              List.length query_results = List.length body_params)).
Proof.
  intros D F P request w resp w'.
  split; [|split].
  - intros hit H Hin. unfold process_street in H.
    apply try_except_connection_ok in H.
    destruct H as [H|(w1 & _ & H)].
    + destruct (method request =? "GET")%string.
      * eapply process_street_single_tags; eauto.
      * eapply process_street_bulk_tags; eauto.
    + unfold logger_exception in H. inversion H; subst. contradiction.
  - intros qs_params query fmt fields number hit Hget Hparse Hformat Hfields
      Hnumber H Hin.
    unfold process_address in H. apply try_except_connection_ok in H.
    destruct H as [H|(w1 & _ & H)].
    2:{ unfold logger_exception in H. inversion H; subst. contradiction. }
    apply String.eqb_eq in Hget. rewrite Hget in H.
    unfold process_address_single in H. rewrite Hparse, Hformat in H.
    rewrite bind_lift_ok in H.
    step_bind H as es Hes. step_bind H as results Hsearch.
    step_bind H as result Hfirst.
    step_bind H as source Hsource. step_lift Hsource.
    step_bind H as result' Hbuild.
    step_ret H. inversion Hsource; subst. simpl in Hin.
    eapply build_addresses_result_entities; eauto.
  - intros body_params name query_results formats Hpost Hparse H ->.
    unfold process_address in H. apply try_except_connection_ok in H.
    destruct H as [H|(w1 & _ & H)].
    2:{ unfold logger_exception in H. inversion H. }
    apply String.eqb_neq in Hpost. rewrite Hpost in H.
    unfold process_address_bulk in H. rewrite Hparse in H.
    step_bind H as pairs Hpairs. step_lift Hpairs.
    step_bind H as es Hes. step_bind H as results Hsearch.
    step_bind H as source Hsource. step_lift Hsource.
    step_bind H as results' Hbuild.
    step_ret H.
    match goal with
    | E : formatter.create_ok_response_bulk _ _ _ = _ |- _ =>
        inversion E; subst; clear E
    end.
    inversion Hsource; subst source. split.
    + intros i parsed_params query fmt fields number query_result hit
        Hi Hformat Hfields Hnumber Hqr Hin.
      destruct (rmap_nth _ _ _ _ _ Hpairs Hi) as ([query0 fmt0] & Hf0 & Hpair).
      rewrite Hformat in Hf0. inversion Hf0; subst query0 fmt0.
      rewrite nth_error_map in Hqr.
      destruct (nth_error results' i) as [result'|] eqn:Hres; [|discriminate].
      simpl in Hqr. inversion Hqr; subst query_result. simpl in Hin.
      assert (Hquery : nth_error (map fst pairs) i = Some query).
      { rewrite nth_error_map, Hpair. reflexivity. }
      destruct (build_addresses_results_nth _ _ _ _ _ _ _ Hbuild _ _ _ Hquery Hres)
        as (result & w3 & w4 & _ & Hone).
      eapply build_addresses_result_entities; eauto.
    + intros Hcontract. rewrite length_map.
      rewrite (build_addresses_results_length _ _ _ _ _ _ _ Hbuild).
      unfold search_streets, bind, emit, lift in Hsearch. simpl in Hsearch.
      destruct (data.search_streets D es (map fst pairs)) as [results0|] eqn:Hdata;
        inversion Hsearch; subst.
      rewrite (Hcontract _ _ _ Hdata), length_map.
      eapply rmap_length; eauto.
Qed.

Lemma street_and_address_entities_witness :
  exists first_result second_result formats w',
    process_address sample_data sample_tables door_number_params sample_post
      new_world
    = (Ok (formatter.create_ok_response_bulk N.ADDRESSES
             [first_result; second_result] formats), w')
    /\ (forall hit, In hit (entities first_result) ->
                    dict_get N.DOOR_NUM hit = Some (VInt 150))
    /\ (forall hit, In hit (entities second_result) ->
                    dict_get N.DOOR_NUM hit = Some (VInt 160)).
Proof.
  eassert (Hrun : process_address sample_data sample_tables door_number_params
                    sample_post new_world
                  = (Ok (formatter.create_ok_response_bulk N.ADDRESSES [_; _] _), _))
    by (vm_compute; reflexivity).
  assert (Hpost : method sample_post <> "GET") by discriminate.
  match type of Hrun with
  | _ = (Ok ?resp, ?w') =>
      destruct (street_and_address_entities sample_data sample_tables
                  door_number_params sample_post new_world resp w')
        as (_ & _ & Hbulk)
  end.
  destruct (Hbulk _ _ _ _ Hpost eq_refl Hrun eq_refl) as [Hnth _].
  eexists. eexists. eexists. eexists. split; [exact Hrun|]. split.
  - intros hit Hin.
    destruct (Hnth 0%nat _ _ _ _ 150 _ hit eq_refl eq_refl eq_refl eq_refl
                eq_refl Hin) as (_ & _ & wanted & Hwanted & Hdoor).
    vm_compute in Hwanted. inversion Hwanted; subst wanted. exact Hdoor.
  - intros hit Hin.
    destruct (Hnth 1%nat _ _ _ _ 160 _ hit eq_refl eq_refl eq_refl eq_refl
                eq_refl Hin) as (_ & _ & wanted & Hwanted & Hdoor).
    vm_compute in Hwanted. inversion Hwanted; subst wanted. exact Hdoor.
Defined.

(** ** Addresses: one hit, field by field *)

(** X13. Enriching a hit touches five fields and no other: the full name,
    the door number, the geometry, the location and the source.  Every
    other field of a returned hit is as the backend sent it; the source
    field is the source given, whatever it was before. *)
Theorem build_address_hit_frame :
  forall D connection fields number source street w street' w' k,
    build_address_hit D connection fields number source street w = (Ok street', w') ->
    dict_get N.SOURCE street' = Some (VStr source)
    /\ (~ In k address_fields -> dict_get k street' = dict_get k street).
Proof.
  intros D connection fields number source street w street' w' k Hrun.
  split; [eapply build_address_hit_source; eauto|].
  intros Hk.
  assert (Hfull : N.FULL_NAME <> k) by (intros <-; apply Hk; simpl; tauto).
  assert (Hdoor : N.DOOR_NUM <> k) by (intros <-; apply Hk; simpl; tauto).
  assert (Hgeom : N.GEOM <> k) by (intros <-; apply Hk; simpl; tauto).
  assert (Hloc : N.LOCATION <> k) by (intros <-; apply Hk; simpl; tauto).
  assert (Hsrc : N.SOURCE <> k) by (intros <-; apply Hk; simpl; tauto).
  apply build_address_hit_ok in Hrun.
  destruct Hrun as (fnw & street1 & door_nums & street2 & start & end_ & geom
                    & street3 & dnw & street5 & _ & H1 & H2 & _ & H3 & _ & H5 & ->).
  apply pop_ok in H2. destruct H2 as [_ ->].
  apply pop_ok in H3. destruct H3 as [_ ->].
  rewrite dict_get_setitem_neq by assumption.
  assert (Hs1 : dict_get k street1 = dict_get k street).
  { destruct fnw.
    - destruct H1 as (full & p0 & others & _ & _ & ->).
      now rewrite dict_get_setitem_neq.
    - now subst. }
  assert (Hs4 : dict_get k
                  (if dnw
                   then setitem (delitem (delitem street1 N.DOOR_NUM) N.GEOM)
                          N.DOOR_NUM (VInt number)
                   else delitem (delitem street1 N.DOOR_NUM) N.GEOM)
                = dict_get k street).
  { destruct dnw.
    - rewrite dict_get_setitem_neq by assumption.
      now rewrite !dict_get_delitem_neq.
    - now rewrite !dict_get_delitem_neq. }
  simpl in H5. destruct H5 as [->|[loc ->]]; auto.
  now rewrite dict_get_setitem_neq.
Qed.

Lemma build_address_hit_frame_witness :
  exists street' w',
    build_address_hit sample_data 0%nat (VList [VStr N.FULL_NAME]) 123 N.SOURCE_INDEC
      sample_street ready_world = (Ok street', w')
    /\ dict_get N.ID street' = Some (VStr "0200101").
Proof.
  eassert (Hrun : build_address_hit sample_data 0%nat (VList [VStr N.FULL_NAME]) 123
                    N.SOURCE_INDEC sample_street ready_world = (Ok _, _))
    by (vm_compute; reflexivity).
  eexists. eexists. split; [exact Hrun|].
  destruct (build_address_hit_frame _ _ _ _ _ _ _ _ _ N.ID Hrun) as [_ Hframe].
  rewrite Hframe; [reflexivity|].
  simpl. intuition discriminate.
Defined.

Lemma bind_inv {A B} (m : M A) (k : A -> M B) w r w' :
  bind m k w = (r, w') ->
  (exists a w1, m w = (Ok a, w1) /\ k a w1 = (r, w'))
  \/ (exists e, m w = (Raise e, w') /\ r = Raise e).
Proof.
  unfold bind. destruct (m w) as [[a|e] w1]; intros H.
  - left. eauto.
  - right. inversion H; subst. eauto.
Qed.

Lemma lift_inv {A} (x : result A) w r w' : lift x w = (r, w') -> r = x /\ w' = w.
Proof. unfold lift. intros H. inversion H. auto. Qed.

(** The world after one hit: untouched, or one more lookup, made with the
    geometry of the hit and the extents of its door numbers. *)
Lemma build_address_hit_world D connection fields number source street w r w' :
  build_address_hit D connection fields number source street w = (r, w') ->
  w' = w
  \/ (exists door_nums geom start end_ lat_wanted,
         dict_get N.DOOR_NUM street = Some door_nums
         /\ dict_get N.GEOM street = Some geom
         /\ street_extents door_nums number = Ok (start, end_)
         /\ is_not_none start = true /\ is_not_none end_ = true
         /\ contains N.LOCATION_LAT fields = Ok lat_wanted
         /\ (lat_wanted = true \/ contains N.LOCATION_LON fields = Ok true)
         /\ w' = with_event
                   (StreetNumberLocation connection geom number start end_) w).
Proof.
  unfold build_address_hit. intros H.
  apply bind_inv in H. destruct H as [(fnw & w1 & Hs & H)|(e & Hs & _)];
    apply lift_inv in Hs; destruct Hs as [Hfnw ->]; [|now left].
  apply bind_inv in H. destruct H as [(street1 & w1 & Hs & H)|(e & Hs & _)].
  2:{ left. destruct fnw.
      - apply bind_inv in Hs. destruct Hs as [(x & w2 & Hs1 & Hs)|(e1 & Hs1 & _)];
          apply lift_inv in Hs1; destruct Hs1 as [_ ->]; auto.
        apply bind_inv in Hs. destruct Hs as [(y & w3 & Hs1 & Hs)|(e1 & Hs1 & _)];
          apply lift_inv in Hs1; destruct Hs1 as [_ ->]; auto.
        destruct y; inversion Hs; auto.
      - inversion Hs; auto. }
  assert (Hstreet1 : w1 = w
                     /\ dict_get N.DOOR_NUM street1 = dict_get N.DOOR_NUM street
                     /\ dict_get N.GEOM street1 = dict_get N.GEOM street).
  { destruct fnw.
    - apply bind_inv in Hs.
      destruct Hs as [(x & w2 & Hs1 & Hs)|(e1 & Hs1 & Habs)]; [|discriminate Habs].
      apply lift_inv in Hs1; destruct Hs1 as [_ ->].
      apply bind_inv in Hs.
      destruct Hs as [(y & w3 & Hs1 & Hs)|(e1 & Hs1 & Habs)]; [|discriminate Habs].
      apply lift_inv in Hs1; destruct Hs1 as [_ ->].
      destruct y; inversion Hs; subst.
      rewrite !dict_get_setitem_neq by discriminate. auto.
    - inversion Hs; auto. }
  destruct Hstreet1 as (-> & Hdoor1 & Hgeom1). clear Hs.
  apply bind_inv in H.
  destruct H as [([door_nums street2] & w1 & Hs & H)|(e & Hs & _)];
    apply lift_inv in Hs; destruct Hs as [Hdoor ->]; [|now left].
  apply bind_inv in H.
  destruct H as [([start end_] & w1 & Hs & H)|(e & Hs & _)];
    apply lift_inv in Hs; destruct Hs as [Hext ->]; [|now left].
  apply bind_inv in H.
  destruct H as [([geom street3] & w1 & Hs & H)|(e & Hs & _)];
    apply lift_inv in Hs; destruct Hs as [Hgeom ->]; [|now left].
  apply bind_inv in H.
  destruct H as [(dnw & w1 & Hs & H)|(e & Hs & _)];
    apply lift_inv in Hs; destruct Hs as [Hdnw ->]; [|now left].
  apply bind_inv in H.
  destruct H as [(latw & w1 & Hs & H)|(e & Hs & _)];
    apply lift_inv in Hs; destruct Hs as [Hlatw ->]; [|now left].
  apply bind_inv in H.
  destruct H as [(locw & w1 & Hs & H)|(e & Hs & _)].
  2:{ left. destruct latw; [inversion Hs; auto|].
      apply lift_inv in Hs. tauto. }
  assert (Hloc : w1 = w /\ (locw = true -> latw = true
                                         \/ contains N.LOCATION_LON fields = Ok true)).
  { destruct latw.
    - inversion Hs; subst. auto.
    - apply lift_inv in Hs. destruct Hs as [Hs ->]. split; auto.
      intros ->. right. now symmetry. }
  destruct Hloc as [-> Hwanted]. clear Hs.
  symmetry in Hdoor. apply pop_ok in Hdoor. destruct Hdoor as [Hdoor ->].
  symmetry in Hgeom. apply pop_ok in Hgeom. destruct Hgeom as [Hgeom ->].
  rewrite dict_get_delitem_neq in Hgeom by discriminate.
  rewrite Hdoor1 in Hdoor. rewrite Hgeom1 in Hgeom.
  apply bind_inv in H.
  destruct (locw && is_not_none start && is_not_none end_) eqn:Hcond.
  - right. apply andb_true_iff in Hcond. destruct Hcond as [Hcond Hend].
    apply andb_true_iff in Hcond. destruct Hcond as [Hlocw Hstart].
    exists door_nums, geom, start, end_, latw.
    repeat split; auto.
    destruct H as [(street5 & w1 & Hs & H)|(e & Hs & _)].
    + apply bind_inv in Hs.
      destruct Hs as [(loc & w2 & Hs1 & Hs)|(e1 & Hs1 & Habs)]; [|discriminate Habs].
      unfold street_number_location, bind, emit, lift in Hs1. simpl in Hs1.
      inversion Hs1; subst. inversion Hs; subst. inversion H; subst. reflexivity.
    + apply bind_inv in Hs.
      destruct Hs as [(loc & w2 & Hs1 & Hs)|(e1 & Hs1 & _)].
      * inversion Hs.
      * unfold street_number_location, bind, emit, lift in Hs1. simpl in Hs1.
        inversion Hs1; subst. reflexivity.
  - left. destruct H as [(street5 & w1 & Hs & H)|(e & Hs & _)].
    + inversion Hs; subst. inversion H; subst. reflexivity.
    + inversion Hs.
Qed.

Lemma street_extents_in_range door_nums number start end_ :
  street_extents door_nums number = Ok (start, end_) ->
  is_not_none start = true ->
  chained_le start number end_ = Ok true.
Proof.
  intros H Hstart. apply street_extents_reads in H.
  destruct H as (sr & sl & er & el & _ & _ & _ & _ & H).
  apply first_extent_sound in H. destruct H as [H|[_ H]]; [|exact H].
  inversion H; subst. discriminate.
Qed.

Lemma adds_lookups_hit D connection fields number source street :
  adds_events (ranged_lookups connection 1)
    (build_address_hit D connection fields number source street).
Proof.
  intros w r w' H. apply build_address_hit_world in H.
  destruct H as [->|(door_nums & geom & start & end_ & latw & _ & _ & Hext & Hs & He
                     & _ & _ & ->)].
  - repeat split; auto. exists []. rewrite app_nil_r. split; auto.
    split; [simpl; lia | constructor].
  - repeat split; auto. eexists. split; [reflexivity|].
    split; [simpl; lia|]. repeat constructor; auto.
    now apply street_extents_in_range with (door_nums := door_nums).
Qed.

Lemma adds_lookups_mapM {A B} c (f : A -> M B) (l : list A) :
  (forall x, adds_events (ranged_lookups c 1) (f x)) ->
  adds_events (ranged_lookups c (List.length l)) (mapM f l).
Proof.
  intros Hf. induction l as [|x l IH]; simpl; intros w r w' H.
  - inversion H; subst. repeat split; auto. exists []. rewrite app_nil_r.
    split; auto. split; [simpl; lia | constructor].
  - apply bind_inv in H. destruct H as [(y & w1 & Hx & H)|(e & Hx & _)].
    + destruct (Hf x _ _ _ Hx) as (Hes1 & Hp1 & evs1 & Ht1 & Hl1 & Hr1).
      apply bind_inv in H. destruct H as [(ys & w2 & Hl & H)|(e & Hl & _)].
      * destruct (IH _ _ _ Hl) as (Hes2 & Hp2 & evs2 & Ht2 & Hl2 & Hr2).
        inversion H; subst.
        repeat split; try congruence.
        exists (evs1 ++ evs2). split; [rewrite Ht2, Ht1; now rewrite app_assoc|].
        split; [rewrite length_app; lia | now apply Forall_app].
      * destruct (IH _ _ _ Hl) as (Hes2 & Hp2 & evs2 & Ht2 & Hl2 & Hr2).
        repeat split; try congruence.
        exists (evs1 ++ evs2). split; [rewrite Ht2, Ht1; now rewrite app_assoc|].
        split; [rewrite length_app; lia | now apply Forall_app].
    + destruct (Hf x _ _ _ Hx) as (Hes1 & Hp1 & evs1 & Ht1 & Hl1 & Hr1).
      repeat split; auto. exists evs1. split; auto. split; [lia | assumption].
Qed.

(** X14. Interpolation is asked of the relational store at most once per
    hit, and only with extents that contain the door number (so never with
    a null bound); a hit adds nothing to the trace when the fields have
    neither location field, or when its door numbers do not contain the
    number.  Over a whole result, with a pool that has a connection [c]
    to hand out, the lookups between the checkout and the release are at
    most as many as the hits, all of them on [c]. *)
Theorem interpolation_lookups :
  forall (D : data.layer) (source : string),
    (forall connection fields number street w r w',
        build_address_hit D connection fields number source street w = (r, w') ->
        adds_events (ranged_lookups connection 1)
          (build_address_hit D connection fields number source street)
        /\ (contains N.LOCATION_LAT fields = Ok false ->
            contains N.LOCATION_LON fields = Ok false -> w' = w)
        /\ (forall door_nums,
               dict_get N.DOOR_NUM street = Some door_nums ->
               street_extents door_nums number = Ok (VNone, VNone) -> w' = w))
    /\ (forall p c rest result query w r w',
        idle p = c :: rest ->
        address_query query ->
        pool_after D w = Some p ->
        build_addresses_result D result query source w = (r, w') ->
        exists lookups,
          trace w' = trace w ++ pool_creation w ++ [GetConn c] ++ lookups
                       ++ [PutConn c]
          /\ ranged_lookups c (List.length (data.hits result)) lookups).
Proof.
  intros D source. split.
  - intros connection fields number street w r w' H.
    split; [apply adds_lookups_hit|].
    apply build_address_hit_world in H.
    destruct H as [->|(door_nums & geom & start & end_ & latw & Hdoor & _ & Hext
                       & Hs & He & Hlat & Hwanted & ->)]; [auto|].
    split.
    + intros Hlat0 Hlon0. rewrite Hlat in Hlat0. inversion Hlat0; subst.
      destruct Hwanted as [Habs|Habs]; [discriminate|congruence].
    + intros door_nums0 Hdoor0 Hext0. rewrite Hdoor in Hdoor0.
      inversion Hdoor0; subst. rewrite Hext in Hext0. inversion Hext0; subst.
      discriminate.
  - intros p c rest result query w r w' Hidle (fields & number & Hf & Hn) Hafter.
    unfold build_addresses_result, bind at 1 2 3, lift, getitem.
    rewrite Hf, Hn. simpl.
    assert (Hbody : forall w0 r0 w2,
               app_postgres_pool w0 = Some p ->
               get_postgres_db_connection
                 (fun connection =>
                    (hits <~ mapM (build_address_hit D connection fields number source)
                               (data.hits result) ;;
                     ret (data.mkResult hits (data.total result) (data.offset result)))%M)
                 w0 = (r0, w2) ->
               exists lookups,
                 trace w2 = trace w0 ++ [GetConn c] ++ lookups ++ [PutConn c]
                 /\ ranged_lookups c (List.length (data.hits result)) lookups).
    { intros w0 r0 w2 Hpool. unfold get_postgres_db_connection, getconn.
      rewrite Hpool, Hidle.
      destruct ((hits <~ mapM (build_address_hit D c fields number source)
                           (data.hits result) ;;
                 ret (data.mkResult hits (data.total result) (data.offset result)))%M
                  (with_event (GetConn c) (with_pool (mkPool rest (c :: used p)) w0)))
        as [r1 w1] eqn:Hrun.
      assert (Hmap : exists lookups,
                 app_postgres_pool w1
                 = Some (mkPool rest (c :: used p))
                 /\ trace w1 = (trace w0 ++ [GetConn c]) ++ lookups
                 /\ ranged_lookups c (List.length (data.hits result)) lookups).
      { apply bind_inv in Hrun.
        destruct Hrun as [(hits' & w3 & Hm & Hret)|(e & Hm & _)].
        - inversion Hret; subst.
          destruct (adds_lookups_mapM c _ (data.hits result)
                      (fun street => adds_lookups_hit D c fields number source street)
                      _ _ _ Hm) as (_ & Hp & evs & Ht & Hq).
          exists evs. auto.
        - destruct (adds_lookups_mapM c _ (data.hits result)
                      (fun street => adds_lookups_hit D c fields number source street)
                      _ _ _ Hm) as (_ & Hp & evs & Ht & Hq).
          exists evs. auto. }
      destruct Hmap as (lookups & Hp1 & Ht1 & Hq).
      unfold putconn. rewrite Hp1. intros H. inversion H; subst.
      exists lookups. split; auto. simpl. rewrite Ht1.
      now rewrite <- !app_assoc. }
    unfold get_postgres_db_connection_pool, pool_after, pool_creation in *.
    destruct (app_postgres_pool w) as [p0|] eqn:Hpool.
    + inversion Hafter; subst p0. intros H.
      destruct (Hbody w r w' Hpool H) as (lookups & Ht & Hq).
      exists lookups. auto.
    + destruct (data.postgres_db_connection_pool D) as [p0|e]; [|discriminate].
      inversion Hafter; subst p0. intros H.
      destruct (Hbody (with_pool p (with_event PoolCreate w)) r w' eq_refl H)
        as (lookups & Ht & Hq).
      exists lookups. split; auto. simpl in Ht. rewrite Ht.
      now rewrite <- !app_assoc.
Qed.

Lemma interpolation_lookups_witness :
  snd (build_address_hit sample_data 0%nat
         (VList [VStr N.ID; VStr N.LOCATION_LAT]) 150 N.SOURCE_INDEC far_street
         ready_world) = ready_world.
Proof.
  destruct (interpolation_lookups sample_data N.SOURCE_INDEC) as [Hhit _].
  destruct (Hhit 0%nat (VList [VStr N.ID; VStr N.LOCATION_LAT]) 150 far_street
              ready_world
              (fst (build_address_hit sample_data 0%nat
                      (VList [VStr N.ID; VStr N.LOCATION_LAT]) 150 N.SOURCE_INDEC
                      far_street ready_world))
              (snd (build_address_hit sample_data 0%nat
                      (VList [VStr N.ID; VStr N.LOCATION_LAT]) 150 N.SOURCE_INDEC
                      far_street ready_world)) eq_refl) as (_ & _ & Houtside).
  apply (Houtside (door_numbers (VInt 1000) (VInt 1001) (VInt 2000) (VInt 2001)));
    reflexivity.
Defined.

(** ** Addresses: what can go wrong *)

Lemma search_streets_run D es queries w :
  search_streets D es queries w
  = (data.search_streets D es queries, with_event (SearchStreets queries) w).
Proof. reflexivity. Qed.

Lemma process_address_single_run D F P request qs_params query fmt es w w1
    result others :
  params.parse_get_params P (args request) = inr qs_params ->
  build_address_query_format F qs_params = Ok (query, fmt) ->
  get_elasticsearch D w = (Ok es, w1) ->
  data.search_streets D es [query] = Ok (result :: others) ->
  process_address_single D F P request w
  = match build_addresses_result D result query N.SOURCE_INDEC
            (with_event (SearchStreets [query]) w1) with
    | (Ok result', w2) =>
        (Ok (formatter.create_ok_response N.ADDRESSES (query_result_of result') fmt),
         w2)
    | (Raise e, w2) => (Raise e, w2)
    end.
Proof.
  intros Hparse Hformat Hes Hsearch. unfold process_address_single.
  rewrite Hparse, Hformat, bind_lift_ok.
  unfold bind at 1. rewrite Hes.
  unfold bind at 1. rewrite search_streets_run, Hsearch.
  simpl first. rewrite bind_lift_ok.
  change (get_index_source N.STREETS) with (Ok N.SOURCE_INDEC).
  rewrite bind_lift_ok. unfold bind at 1.
  destruct (build_addresses_result D result query N.SOURCE_INDEC
              (with_event (SearchStreets [query]) w1)) as [[result'|e] w2];
    reflexivity.
Qed.

(** X15. When the pool has no connection left, enriching a result raises
    the error of the pool before any hit is looked at: nothing is checked
    out, released or looked up.  The handler does not catch it: a single
    address request whose search succeeded ends in that error, not in the
    internal-error response. *)
Theorem exhausted_pool :
  forall (D : data.layer) (p : Pool),
    idle p = [] ->
    (forall result query source w,
        address_query query ->
        pool_after D w = Some p ->
        build_addresses_result D result query source w
        = (Raise PoolError, with_pool_created D w))
    /\ (forall F P request qs_params query fmt es w w1 result others,
        params.parse_get_params P (args request) = inr qs_params ->
        build_address_query_format F qs_params = Ok (query, fmt) ->
        get_elasticsearch D w = (Ok es, w1) ->
        data.search_streets D es [query] = Ok (result :: others) ->
        address_query query ->
        pool_after D w = Some p ->
        method request = "GET" ->
        process_address D F P request w
        = (Raise PoolError,
           with_pool_created D (with_event (SearchStreets [query]) w1))).
Proof.
  intros D p Hidle.
  assert (Hresult : forall result query source w,
             address_query query ->
             pool_after D w = Some p ->
             build_addresses_result D result query source w
             = (Raise PoolError, with_pool_created D w)).
  { intros result query source w (fields & number & Hf & Hn) Hafter.
    unfold build_addresses_result, bind at 1 2 3, lift, getitem.
    rewrite Hf, Hn. simpl.
    unfold get_postgres_db_connection_pool, pool_after, with_pool_created in *.
    destruct (app_postgres_pool w) as [p0|] eqn:Hpool.
    - inversion Hafter; subst p0.
      unfold get_postgres_db_connection, getconn. now rewrite Hpool, Hidle.
    - destruct (data.postgres_db_connection_pool D) as [p0|e]; [|discriminate].
      inversion Hafter; subst p0.
      unfold get_postgres_db_connection, getconn. simpl. now rewrite Hidle. }
  split; [exact Hresult|].
  intros F P request qs_params query fmt es w w1 result others
    Hparse Hformat Hes Hsearch Hq Hafter Hget.
  unfold process_address. apply String.eqb_eq in Hget. rewrite Hget.
  apply try_except_connection_other; [discriminate|].
  rewrite (process_address_single_run D F P request qs_params query fmt es w w1
             result others Hparse Hformat Hes Hsearch).
  rewrite Hresult; auto.
  unfold pool_after in *.
  assert (Hp : app_postgres_pool w1 = app_postgres_pool w).
  { now destruct (get_elasticsearch_searches D w _ w1 Hes). }
  simpl. now rewrite Hp.
Qed.

Lemma exhausted_pool_witness :
  process_address exhausted_data sample_tables sample_params sample_get new_world
  = (Raise PoolError,
     with_pool (mkPool [] [0%nat; 1%nat])
       (with_event PoolCreate
          (with_event
             (SearchStreets
                [[("road_name", VStr "Callao"); ("number", VInt 150);
                  ("fields",
                   VList [VStr N.ID; VStr N.FULL_NAME; VStr N.LOCATION_LAT;
                          VStr N.GEOM; VStr N.START_R; VStr N.END_L])]])
             (with_elasticsearch EsHandle (with_event EsConnect new_world))))).
Proof.
  destruct (exhausted_pool exhausted_data (mkPool [] [0%nat; 1%nat]) eq_refl)
    as [_ Hrequest].
  apply (Hrequest sample_tables sample_params sample_get
           (sample_address "Callao" 150)
           [("road_name", VStr "Callao"); ("number", VInt 150);
            ("fields",
             VList [VStr N.ID; VStr N.FULL_NAME; VStr N.LOCATION_LAT;
                    VStr N.GEOM; VStr N.START_R; VStr N.END_L])]
           [(N.FIELDS, VList [VStr N.ID; VStr N.FULL_NAME; VStr N.LOCATION_LAT]);
            (N.CSV_FIELDS, VNone)]
           EsHandle new_world
           (with_elasticsearch EsHandle (with_event EsConnect new_world))
           (data.mkResult [sample_street] 1 0) []); try reflexivity.
  exists (VList [VStr N.ID; VStr N.FULL_NAME; VStr N.LOCATION_LAT;
                 VStr N.GEOM; VStr N.START_R; VStr N.END_L]), 150.
  split; reflexivity.
Defined.

(** X16. A hit that lacks what the loop needs ends the request with the
    error of the first missing piece and leaves the world as it is.  When
    the full name is requested: a [KeyError] for a hit without it, an
    [AttributeError] for a hit whose full name is not a string.  Then,
    whether the full name is requested or not: a [KeyError] for a hit
    without door numbers, whatever [street_extents] raises for them, and
    a [KeyError] for a hit without geometry, in this order. *)
Theorem build_address_hit_failures :
  forall D connection fields number source street w,
    (contains N.FULL_NAME fields = Ok true ->
     dict_get N.FULL_NAME street = None ->
     build_address_hit D connection fields number source street w
     = (Raise (KeyError N.FULL_NAME), w))
    /\ (forall v,
           contains N.FULL_NAME fields = Ok true ->
           dict_get N.FULL_NAME street = Some v ->
           (forall full, v <> VStr full) ->
           build_address_hit D connection fields number source street w
           = (Raise AttributeError, w))
    /\ (full_name_ready fields street ->
        dict_get N.DOOR_NUM street = None ->
        build_address_hit D connection fields number source street w
        = (Raise (KeyError N.DOOR_NUM), w))
    /\ (forall door_nums e,
           full_name_ready fields street ->
           dict_get N.DOOR_NUM street = Some door_nums ->
           street_extents door_nums number = Raise e ->
           build_address_hit D connection fields number source street w
           = (Raise e, w))
    /\ (forall door_nums extents,
           full_name_ready fields street ->
           dict_get N.DOOR_NUM street = Some door_nums ->
           street_extents door_nums number = Ok extents ->
           dict_get N.GEOM street = None ->
           build_address_hit D connection fields number source street w
           = (Raise (KeyError N.GEOM), w)).
Proof.
  intros D connection fields number source street w.
  split; [|split; [|split; [|split]]].
  - intros Hwanted Hnone. unfold build_address_hit.
    rewrite Hwanted, bind_lift_ok. unfold getitem. rewrite Hnone. reflexivity.
  - intros v Hwanted Hsome Hnot. unfold build_address_hit.
    rewrite Hwanted, bind_lift_ok. unfold getitem. rewrite Hsome.
    destruct v; try reflexivity. now destruct (Hnot s).
  - intros [Hwanted|(Hwanted & full & Hfull)] Hnone; unfold build_address_hit.
    + rewrite Hwanted, bind_lift_ok, bind_ret. unfold pop. rewrite Hnone.
      reflexivity.
    + rewrite Hwanted, bind_lift_ok. unfold getitem. rewrite Hfull.
      rewrite bind_bind, bind_lift_ok, bind_bind. cbn [str_split].
      rewrite bind_lift_ok.
      destruct (split "," full) as [|p0 others] eqn:Hsplit;
        [now apply split_not_nil in Hsplit|].
      rewrite bind_ret. unfold pop.
      rewrite dict_get_setitem_neq by discriminate. rewrite Hnone. reflexivity.
  - intros door_nums e [Hwanted|(Hwanted & full & Hfull)] Hdoor Hext;
      unfold build_address_hit.
    + rewrite Hwanted, bind_lift_ok, bind_ret.
      rewrite (pop_some _ _ _ Hdoor), bind_lift_ok. rewrite Hext. reflexivity.
    + rewrite Hwanted, bind_lift_ok. unfold getitem. rewrite Hfull.
      rewrite bind_bind, bind_lift_ok, bind_bind. cbn [str_split].
      rewrite bind_lift_ok.
      destruct (split "," full) as [|p0 others] eqn:Hsplit;
        [now apply split_not_nil in Hsplit|].
      rewrite bind_ret.
      erewrite pop_some
        by (rewrite dict_get_setitem_neq by discriminate; exact Hdoor).
      rewrite bind_lift_ok. rewrite Hext. reflexivity.
  - intros door_nums [start end_] [Hwanted|(Hwanted & full & Hfull)] Hdoor Hext Hgeom;
      unfold build_address_hit.
    + rewrite Hwanted, bind_lift_ok, bind_ret.
      rewrite (pop_some _ _ _ Hdoor), bind_lift_ok. rewrite Hext, bind_lift_ok.
      unfold pop. rewrite dict_get_delitem_neq by discriminate.
      rewrite Hgeom. reflexivity.
    + rewrite Hwanted, bind_lift_ok. unfold getitem. rewrite Hfull.
      rewrite bind_bind, bind_lift_ok, bind_bind. cbn [str_split].
      rewrite bind_lift_ok.
      destruct (split "," full) as [|p0 others] eqn:Hsplit;
        [now apply split_not_nil in Hsplit|].
      rewrite bind_ret.
      erewrite pop_some
        by (rewrite dict_get_setitem_neq by discriminate; exact Hdoor).
      rewrite bind_lift_ok. rewrite Hext, bind_lift_ok.
      unfold pop. rewrite dict_get_delitem_neq by discriminate.
      rewrite dict_get_setitem_neq by discriminate.
      rewrite Hgeom. reflexivity.
Qed.

Lemma build_address_hit_failures_witness :
  build_address_hit sample_data 0%nat (VList [VStr N.ID; VStr N.FULL_NAME]) 150
    N.SOURCE_INDEC (delitem sample_street N.GEOM) ready_world
  = (Raise (KeyError N.GEOM), ready_world).
Proof.
  destruct (build_address_hit_failures sample_data 0%nat
              (VList [VStr N.ID; VStr N.FULL_NAME]) 150
              N.SOURCE_INDEC (delitem sample_street N.GEOM) ready_world)
    as (_ & _ & _ & _ & Hgeom).
  apply (Hgeom (door_numbers (VInt 100) (VInt 101) (VInt 200) (VInt 201))
           (VInt 101, VInt 200)); try reflexivity.
  right. split; [reflexivity|]. exists "Callao,CABA". reflexivity.
Defined.

(** ** Addresses: from the parameters to the query *)

Lemma translate_keys_get_kept d translations ignore k v :
  wf_dict d ->
  dict_get k d = Some v ->
  ~ In k (ignore_list ignore) ->
  (forall k2, In k2 (keys d) -> ~ In k2 (ignore_list ignore) ->
              translation translations k2 = translation translations k -> k2 = k) ->
  dict_get (translation translations k) (translate_keys d translations ignore)
  = Some v.
Proof.
  intros Hwf Hk Hnin Hinj.
  rewrite translate_keys_fold, translate_fold_get.
  destruct (find (renamed_to translations ignore (translation translations k)) (rev d))
    as [[k2 v2]|] eqn:Hfind; simpl.
  - apply find_some in Hfind. destruct Hfind as [Hin Hp].
    apply in_rev in Hin. unfold renamed_to in Hp; simpl in Hp.
    apply andb_true_iff in Hp. destruct Hp as [Hkeep Heq].
    apply String.eqb_eq in Heq.
    assert (k2 = k).
    { apply Hinj; auto.
      - change k2 with (fst (k2, v2)). now apply in_map.
      - intros Hin2. apply str_in_list_In in Hin2.
        rewrite Hin2 in Hkeep. discriminate. }
    subst k2. f_equal.
    eapply wf_dict_functional; eauto using dict_get_In.
  - exfalso.
    assert (Hp := find_none _ _ Hfind (k, v)).
    unfold renamed_to in Hp; simpl in Hp.
    rewrite String.eqb_refl, andb_true_r in Hp.
    apply Hnin, str_in_list_In, negb_false_iff, Hp.
    apply -> in_rev. now apply dict_get_In.
Qed.

Lemma translate_keys_keys d translations ignore k' :
  In k' (keys (translate_keys d translations ignore)) ->
  exists k, In k (keys d) /\ ~ In k (ignore_list ignore)
            /\ translation translations k = k'.
Proof.
  rewrite translate_keys_fold. intros H.
  apply translate_fold_keys in H. destruct H as [[]|H]. exact H.
Qed.

Lemma translation_cons a b rest k :
  translation ((a, b) :: rest) k = if (a =? k)%string then b else translation rest k.
Proof. reflexivity. Qed.

(** The backend names of [address_translations] are the only keys another
    key can be renamed to. *)
Lemma address_translation_target k target :
  ~ In target ["department"; "state"; "exact"; "road_type"; "offset"; "order"] ->
  translation address_translations k = target -> k = target.
Proof.
  intros Hnot. unfold address_translations.
  rewrite !translation_cons, translation_nil.
  repeat match goal with
         | |- context [(?a =? k)%string] => destruct (a =? k)%string
         end;
    intros H; auto; exfalso; apply Hnot; rewrite <- H;
    cbn [In]; auto 10.
Qed.

Lemma wf_delitem d k : wf_dict d -> wf_dict (delitem d k).
Proof. apply filter_keys_NoDup. Qed.

Lemma keys_delitem d k x : In x (keys (delitem d k)) -> In x (keys d) /\ x <> k.
Proof.
  unfold keys, delitem. intros H. apply in_map_iff in H.
  destruct H as ([k0 v0] & <- & Hin). apply filter_In in Hin.
  destruct Hin as [Hin Hne]. simpl in *. split.
  - change k0 with (fst (k0, v0)). now apply in_map.
  - intros ->. now rewrite String.eqb_refl in Hne.
Qed.

(** X17. From the parameters of an address to the query.  With an address
    [(road_name, number)] and a list of fields, [build_address_query_format]
    returns a query that has the road name and the number under
    ["road_name"] and ["number"] and no address key, hence a query
    [build_addresses_result] accepts when the number is an integer; the
    format rules keep the fields the client asked for, without the three
    internal ones, and carry the CSV columns of addresses.  Parameters
    without an address, or without fields, raise a [KeyError]. *)
Theorem address_query_built :
  forall (F : formatter.tables) (parsed_params : dict),
    wf_dict parsed_params ->
    (forall road_name number requested,
        dict_get N.ADDRESS parsed_params = Some (VTuple [road_name; number]) ->
        dict_get N.FIELDS parsed_params = Some (VList requested) ->
        exists query fmt,
          build_address_query_format F parsed_params = Ok (query, fmt)
          /\ dict_get "road_name" query = Some road_name
          /\ dict_get "number" query = Some number
          /\ dict_get N.ADDRESS query = None
          /\ (forall n, number = VInt n -> address_query query)
          /\ dict_get N.FIELDS fmt = Some (VList requested)
          /\ dict_get N.CSV_FIELDS fmt = Some (formatter.ADDRESSES_CSV_FIELDS F))
    /\ (dict_get N.ADDRESS parsed_params = None ->
        build_address_query_format F parsed_params = Raise (KeyError N.ADDRESS))
    /\ (forall road_name number,
           dict_get N.ADDRESS parsed_params = Some (VTuple [road_name; number]) ->
           dict_get N.FIELDS parsed_params = None ->
           build_address_query_format F parsed_params = Raise (KeyError N.FIELDS)).
Proof.
  intros F parsed_params Hwf. split; [|split].
  - intros road_name number requested Haddr Hfields.
    set (params2 := setitem (setitem (delitem parsed_params N.ADDRESS)
                               "road_name" road_name) "number" number).
    assert (Hwf2 : wf_dict params2).
    { unfold params2. now apply wf_setitem, wf_setitem, wf_delitem. }
    assert (Hfields2 : dict_get N.FIELDS params2 = Some (VList requested)).
    { unfold params2. rewrite !dict_get_setitem_neq by discriminate.
      now rewrite dict_get_delitem_neq by discriminate. }
    assert (Hrun : build_address_query_format F parsed_params
                   = Ok (setitem
                           (translate_keys params2 address_translations
                              (Some [N.FLATTEN; N.FORMAT; N.FIELDS]))
                           "fields" (VList (requested ++ internal_fields)),
                         setitem (select_keys [N.FLATTEN; N.FIELDS; N.FORMAT] params2)
                           N.CSV_FIELDS (formatter.ADDRESSES_CSV_FIELDS F))).
    { unfold build_address_query_format.
      rewrite (pop_some _ _ _ Haddr). simpl. fold params2.
      unfold getitem. rewrite Hfields2. reflexivity. }
    assert (Hroad : dict_get "road_name"
                      (translate_keys params2 address_translations
                         (Some [N.FLATTEN; N.FORMAT; N.FIELDS])) = Some road_name).
    { apply (translate_keys_get_kept params2 address_translations
               (Some [N.FLATTEN; N.FORMAT; N.FIELDS]) "road_name" road_name Hwf2).
      - unfold params2. rewrite dict_get_setitem_neq by discriminate.
        apply dict_get_setitem_eq.
      - simpl. intuition discriminate.
      - intros k2 _ _ Hk2. apply address_translation_target in Hk2; auto.
        simpl. intuition discriminate. }
    assert (Hnumber : dict_get "number"
                        (translate_keys params2 address_translations
                           (Some [N.FLATTEN; N.FORMAT; N.FIELDS])) = Some number).
    { apply (translate_keys_get_kept params2 address_translations
               (Some [N.FLATTEN; N.FORMAT; N.FIELDS]) "number" number Hwf2).
      - unfold params2. apply dict_get_setitem_eq.
      - simpl. intuition discriminate.
      - intros k2 _ _ Hk2. apply address_translation_target in Hk2; auto.
        simpl. intuition discriminate. }
    eexists. eexists. split; [exact Hrun|].
    split; [now rewrite dict_get_setitem_neq by discriminate|].
    split; [now rewrite dict_get_setitem_neq by discriminate|].
    split; [|split; [|split]].
    + rewrite dict_get_setitem_neq by discriminate.
      apply dict_get_not_in_keys. intros Hin.
      apply translate_keys_keys in Hin. destruct Hin as (k & Hk & _ & Hren).
      apply address_translation_target in Hren;
        [|simpl; intuition discriminate].
      subst k. unfold params2 in Hk.
      apply keys_setitem in Hk. destruct Hk as [Hk|Hk]; [discriminate|].
      apply keys_setitem in Hk. destruct Hk as [Hk|Hk]; [discriminate|].
      apply keys_delitem in Hk. now destruct Hk.
    + intros n ->. exists (VList (requested ++ internal_fields)), n. split.
      * apply dict_get_setitem_eq.
      * now rewrite dict_get_setitem_neq by discriminate.
    + rewrite dict_get_setitem_neq by discriminate.
      rewrite select_keys_get. simpl. exact Hfields2.
    + apply dict_get_setitem_eq.
  - intros Hnone. unfold build_address_query_format, pop. now rewrite Hnone.
  - intros road_name number Haddr Hnone. unfold build_address_query_format.
    rewrite (pop_some _ _ _ Haddr). simpl. unfold getitem.
    rewrite !dict_get_setitem_neq by discriminate.
    rewrite dict_get_delitem_neq by discriminate.
    now rewrite Hnone.
Qed.

Lemma address_query_built_witness :
  exists query fmt,
    build_address_query_format sample_tables (sample_address "Callao" 150)
    = Ok (query, fmt)
    /\ dict_get "road_name" query = Some (VStr "Callao")
    /\ dict_get "number" query = Some (VInt 150)
    /\ address_query query.
Proof.
  assert (Hwf : wf_dict (sample_address "Callao" 150)).
  { repeat constructor; simpl; intuition discriminate. }
  destruct (address_query_built sample_tables (sample_address "Callao" 150) Hwf)
    as [Hbuilt _].
  destruct (Hbuilt (VStr "Callao") (VInt 150)
              [VStr N.ID; VStr N.FULL_NAME; VStr N.LOCATION_LAT] eq_refl eq_refl)
    as (query & fmt & Hrun & Hroad & Hnumber & _ & Hq & _).
  exists query, fmt. repeat split; auto. now apply (Hq 150).
Defined.

(** ** Places: the two searches and the list of places *)

Lemma point_query_ok fields query pq :
  point_query fields query = Ok pq -> point_query_of fields query pq.
Proof.
  unfold point_query, getitem, point_query_of. intros H.
  destruct (dict_get "lat" query) as [lat|]; [|discriminate].
  destruct (dict_get "lon" query) as [lon|]; [|discriminate].
  simpl in H. inversion H; subst. repeat split.
Qed.

Lemma point_query_fields f1 f2 query :
  is_ok (point_query f1 query) = is_ok (point_query f2 query).
Proof.
  unfold point_query, getitem.
  destruct (dict_get "lat" query); [|reflexivity].
  destruct (dict_get "lon" query); reflexivity.
Qed.

Lemma rmap_point_queries f1 f2 queries :
  is_ok (rmap (point_query f1) queries) = is_ok (rmap (point_query f2) queries).
Proof.
  induction queries as [|q queries IH]; simpl; auto.
  assert (Hq := point_query_fields f1 f2 q).
  destruct (point_query f1 q), (point_query f2 q); try discriminate; simpl; auto.
  destruct (rmap (point_query f1) queries), (rmap (point_query f2) queries);
    try discriminate; reflexivity.
Qed.

Lemma rmap_Forall2 {A B} (f : A -> result B) (l : list A) l' :
  rmap f l = Ok l' -> Forall2 (fun x y => f x = Ok y) l l'.
Proof.
  revert l'. induction l as [|x l IH]; simpl; intros l' H.
  - inversion H. constructor.
  - destruct (f x) as [y|e] eqn:Hx; [|discriminate]. simpl in H.
    destruct (rmap f l) as [ys|e]; [|discriminate]. simpl in H.
    inversion H; subst. constructor; auto.
Qed.

Lemma search_places_run D es name queries w :
  search_places D es name queries w
  = (data.search_places D es name queries, with_event (SearchPlaces name queries) w).
Proof. reflexivity. Qed.

(** X18. A list of location queries is answered by two batch searches,
    the departments first and the municipalities second, each with one
    point query per location, in order, carrying its latitude and
    longitude and the fields of the layer.  A location without latitude or
    longitude raises before any search; when the search of the departments
    fails, the one of the municipalities is not made. *)
Theorem process_place_queries_calls :
  forall (D : data.layer) (es : Elasticsearch) (queries : list dict) (w : world),
    (forall e,
        rmap (point_query dept_fields) queries = Raise e ->
        process_place_queries D es queries w = (Raise e, w))
    /\ (forall dept_queries,
        rmap (point_query dept_fields) queries = Ok dept_queries ->
        exists muni_queries,
          rmap (point_query muni_fields) queries = Ok muni_queries
          /\ Forall2 (point_query_of dept_fields) queries dept_queries
          /\ Forall2 (point_query_of muni_fields) queries muni_queries
          /\ (forall e,
                 data.search_places D es N.DEPARTMENTS dept_queries = Raise e ->
                 process_place_queries D es queries w
                 = (Raise e, with_event (SearchPlaces N.DEPARTMENTS dept_queries) w))
          /\ (forall dept_results,
                 data.search_places D es N.DEPARTMENTS dept_queries
                 = Ok dept_results ->
                 process_place_queries D es queries w
                 = (match data.search_places D es N.MUNICIPALITIES muni_queries with
                    | Ok muni_results =>
                        build_places queries dept_results muni_results
                    | Raise e => Raise e
                    end,
                    with_event (SearchPlaces N.MUNICIPALITIES muni_queries)
                      (with_event (SearchPlaces N.DEPARTMENTS dept_queries) w)))).
Proof.
  intros D es queries w. split.
  - intros e He. unfold process_place_queries.
    fold dept_fields. rewrite He. reflexivity.
  - intros dept_queries Hd.
    assert (Hm := rmap_point_queries dept_fields muni_fields queries).
    rewrite Hd in Hm. simpl in Hm.
    destruct (rmap (point_query muni_fields) queries) as [muni_queries|] eqn:Hmq;
      [|discriminate].
    exists muni_queries. split; [reflexivity|].
    split; [|split; [|split]].
    + apply rmap_Forall2 in Hd.
      eapply Forall2_impl; [|exact Hd]. intros q pq. apply point_query_ok.
    + apply rmap_Forall2 in Hmq.
      eapply Forall2_impl; [|exact Hmq]. intros q pq. apply point_query_ok.
    + intros e He. unfold process_place_queries.
      fold dept_fields. rewrite Hd, bind_lift_ok.
      unfold bind at 1. rewrite search_places_run, He. reflexivity.
    + intros dept_results Hdr. unfold process_place_queries.
      fold dept_fields. rewrite Hd, bind_lift_ok.
      unfold bind at 1. rewrite search_places_run, Hdr.
      fold muni_fields. rewrite Hmq, bind_lift_ok.
      unfold bind at 1. rewrite search_places_run.
      destruct (data.search_places D es N.MUNICIPALITIES muni_queries);
        reflexivity.
Qed.

Lemma process_place_queries_calls_witness :
  process_place_queries no_departments_data EsHandle
    [[("lat", VFloat (-27 # 1)); ("lon", VFloat (-55 # 1))]] ready_world
  = (Raise DataConnectionException,
     with_event
       (SearchPlaces N.DEPARTMENTS
          [[("lat", VFloat (-27 # 1)); ("lon", VFloat (-55 # 1));
            ("fields", VList [VStr N.ID; VStr N.NAME; VStr N.STATE])]])
       ready_world).
Proof.
  destruct (process_place_queries_calls no_departments_data EsHandle
              [[("lat", VFloat (-27 # 1)); ("lon", VFloat (-55 # 1))]] ready_world)
    as [_ Hcalls].
  destruct (Hcalls [[("lat", VFloat (-27 # 1)); ("lon", VFloat (-55 # 1));
                     ("fields", VList [VStr N.ID; VStr N.NAME; VStr N.STATE])]]
              eq_refl) as (muni_queries & _ & _ & _ & Hfail & _).
  apply Hfail. reflexivity.
Defined.

Lemma build_place_result_place query dept muni place :
  build_place_result query dept muni = Ok place -> place_of query place.
Proof.
  unfold build_place_result, getitem, place_of. intros H.
  apply rbind_ok in H. destruct H as ([[[state dept'] muni'] source] & _ & H).
  destruct (dict_get "lat" query) as [lat|]; [|discriminate].
  destruct (dict_get "lon" query) as [lon|]; [|discriminate].
  simpl in H. inversion H; subst. repeat split.
Qed.

(** X19. The places of a list of locations.  When the loop returns, there
    is one place for each location that has a department result and a
    municipality result, as many as the shortest of the three lists, in
    the order of the locations; each place has the six keys state,
    department, municipality, latitude, longitude and source, in this
    order, with the latitude and longitude of its location. *)
Theorem build_places_ordered :
  forall (queries : list dict) (dept_results muni_results : list data.Result)
         (places : list dict),
    build_places queries dept_results muni_results = Ok places ->
    List.length places
    = min3 (List.length queries) (List.length dept_results)
        (List.length muni_results)
    /\ (forall i query place,
           nth_error queries i = Some query ->
           nth_error places i = Some place ->
           place_of query place).
Proof.
  induction queries as [|query queries IH];
    intros dept_results muni_results places H.
  - simpl in H. inversion H; subst. split; [reflexivity|].
    intros i q pl _ Hp. destruct i; discriminate.
  - destruct dept_results as [|dr drs].
    { simpl in H. inversion H; subst. split; [reflexivity|].
      intros i q pl _ Hp. destruct i; discriminate. }
    destruct muni_results as [|mr mrs].
    { simpl in H. inversion H; subst. split.
      - unfold min3. simpl. lia.
      - intros i q pl _ Hp. destruct i; discriminate. }
    simpl in H.
    apply rbind_ok in H. destruct H as (dept & _ & H).
    apply rbind_ok in H. destruct H as (muni & _ & H).
    apply rbind_ok in H. destruct H as (place & Hplace & H).
    apply rbind_ok in H. destruct H as (rest & Hrest & H).
    inversion H; subst.
    destruct (IH drs mrs rest Hrest) as [Hlen Hnth].
    split.
    + simpl. rewrite Hlen. unfold min3. simpl. lia.
    + intros i q pl Hq Hp. destruct i as [|i]; simpl in *.
      * inversion Hq; inversion Hp; subst.
        eapply build_place_result_place; eauto.
      * eapply Hnth; eauto.
Qed.

Lemma build_places_ordered_witness :
  exists places,
    build_places
      [[("lat", VFloat (-27 # 1)); ("lon", VFloat (-55 # 1))];
       [("lat", VFloat (-30 # 1)); ("lon", VFloat (-60 # 1))]]
      [data.mkResult [] 0 0]
      [data.mkResult [] 0 0; data.mkResult [] 0 0; data.mkResult [] 0 0]
    = Ok places
    /\ List.length places = 1%nat.
Proof.
  eassert (Hrun : build_places
                    [[("lat", VFloat (-27 # 1)); ("lon", VFloat (-55 # 1))];
                     [("lat", VFloat (-30 # 1)); ("lon", VFloat (-60 # 1))]]
                    [data.mkResult [] 0 0]
                    [data.mkResult [] 0 0; data.mkResult [] 0 0; data.mkResult [] 0 0]
                  = Ok _) by reflexivity.
  eexists. split; [exact Hrun|].
  destruct (build_places_ordered _ _ _ _ Hrun) as [Hlen _].
  exact Hlen.
Defined.

(** ** Streets and places: query and format rules *)

Lemma translation_cases translations k :
  translation translations k = k
  \/ In (k, translation translations k) translations.
Proof.
  induction translations as [|[a b] rest IH]; simpl; [now left|].
  destruct (a =? k)%string eqn:E.
  - apply String.eqb_eq in E. subst a. right. now left.
  - destruct IH as [IH|IH]; [now left | right; now right].
Qed.

Lemma in_keys_dict_get (d : dict) k : In k (keys d) -> exists v, dict_get k d = Some v.
Proof.
  induction d as [|[k0 v0] d IH]; simpl; [tauto|].
  intros [->|Hin].
  - rewrite String.eqb_refl. eauto.
  - destruct (k0 =? k)%string; eauto.
Qed.

Lemma translate_keys_renamed d translations ignore k k' :
  wf_dict d ->
  translation translations k = k' ->
  ~ In k (ignore_list ignore) ->
  (forall k2, In k2 (keys d) -> translation translations k2 = k' -> k2 = k) ->
  dict_get k' (translate_keys d translations ignore) = dict_get k d.
Proof.
  intros Hwf Hren Hkept Honly.
  destruct (dict_get k d) as [v|] eqn:Hk.
  - subst k'. apply translate_keys_get_kept; auto.
  - apply dict_get_not_in_keys. intros Hin.
    apply translate_keys_keys in Hin. destruct Hin as (k2 & Hk2 & _ & Hren2).
    assert (k2 = k) by auto. subst k2.
    apply in_keys_dict_get in Hk2. destruct Hk2 as [v Hv]. congruence.
Qed.

Lemma street_translation_sources k target :
  In (k, target) street_translations ->
  (target = "street_id" -> k = N.ID) /\ (target = "road_name" -> k = N.NAME)
  /\ target <> N.FLATTEN /\ target <> N.FORMAT.
Proof.
  unfold street_translations. cbn [In].
  intros H. repeat destruct H as [H|H]; try contradiction;
    inversion H; subst; repeat split; auto; discriminate.
Qed.

(** X20. The query and the format rules of streets and places.  The
    query of a location is its parameter set without the flatten and format
    parameters, in the same order.  The query of a street has the id under
    ["street_id"] and the name under ["road_name"] (for parameters that do
    not use these two backend names themselves), and never a flatten or
    format parameter.  The format rules are the flatten, fields and format
    parameters that are present, and for streets also the CSV columns. *)
Theorem query_and_format :
  forall (F : formatter.tables) (parsed_params : dict),
    wf_dict parsed_params ->
    fst (build_place_query_format parsed_params)
    = filter (kept (Some [N.FLATTEN; N.FORMAT])) parsed_params
    /\ (forall k,
           dict_get k (snd (build_place_query_format parsed_params))
           = if str_in_list k [N.FLATTEN; N.FIELDS; N.FORMAT]
             then dict_get k parsed_params else None)
    /\ (dict_get "street_id" parsed_params = None ->
        dict_get "street_id" (fst (build_street_query_format F parsed_params))
        = dict_get N.ID parsed_params)
    /\ (dict_get "road_name" parsed_params = None ->
        dict_get "road_name" (fst (build_street_query_format F parsed_params))
        = dict_get N.NAME parsed_params)
    /\ dict_get N.FLATTEN (fst (build_street_query_format F parsed_params)) = None
    /\ dict_get N.FORMAT (fst (build_street_query_format F parsed_params)) = None
    /\ dict_get N.CSV_FIELDS (snd (build_street_query_format F parsed_params))
       = Some (formatter.STREETS_CSV_FIELDS F)
    /\ (forall k, In k [N.FLATTEN; N.FIELDS; N.FORMAT] ->
                  dict_get k (snd (build_street_query_format F parsed_params))
                  = dict_get k parsed_params).
Proof.
  intros F parsed_params Hwf.
  assert (Hnone : forall k, In k [N.FLATTEN; N.FORMAT] ->
             dict_get k (translate_keys parsed_params street_translations
                           (Some [N.FLATTEN; N.FORMAT])) = None).
  { intros k Hk. apply dict_get_not_in_keys. intros Hin.
    apply translate_keys_keys in Hin. destruct Hin as (k2 & _ & Hkept & Hren).
    destruct (translation_cases street_translations k2) as [Hid|Hin].
    - rewrite Hid in Hren. subst k2. contradiction.
    - rewrite Hren in Hin. apply street_translation_sources in Hin.
      destruct Hin as (_ & _ & Hf1 & Hf2).
      simpl in Hk. destruct Hk as [<-|[<-|[]]]; congruence. }
  split; [|split; [|split; [|split; [|split; [|split; [|split]]]]]].
  - unfold build_place_query_format. simpl.
    rewrite translate_keys_fold, translate_fold_ordered.
    + unfold rename_item. simpl.
      rewrite <- (map_id (filter _ parsed_params)) at 2.
      apply map_ext. now intros [k v].
    + rewrite map_ext with (g := fun k => k) by apply translation_nil.
      rewrite map_id. now apply filter_keys_NoDup.
  - intros k. unfold build_place_query_format. simpl. apply select_keys_get.
  - intros Hfree. unfold build_street_query_format. simpl.
    apply translate_keys_renamed; auto.
    + simpl. intuition discriminate.
    + intros k2 Hk2 Hren.
      destruct (translation_cases street_translations k2) as [Hid|Hin].
      * rewrite Hid in Hren. subst k2.
        apply in_keys_dict_get in Hk2. destruct Hk2 as [v Hv]. congruence.
      * rewrite Hren in Hin. apply street_translation_sources in Hin.
        destruct Hin as (Hid & _). now apply Hid.
  - intros Hfree. unfold build_street_query_format. simpl.
    apply translate_keys_renamed; auto.
    + simpl. intuition discriminate.
    + intros k2 Hk2 Hren.
      destruct (translation_cases street_translations k2) as [Hid|Hin].
      * rewrite Hid in Hren. subst k2.
        apply in_keys_dict_get in Hk2. destruct Hk2 as [v Hv]. congruence.
      * rewrite Hren in Hin. apply street_translation_sources in Hin.
        destruct Hin as (_ & Hname & _). now apply Hname.
  - apply Hnone. simpl. tauto.
  - apply Hnone. simpl. tauto.
  - unfold build_street_query_format. simpl. apply dict_get_setitem_eq.
  - intros k Hk. unfold build_street_query_format. simpl.
    rewrite dict_get_setitem_neq.
    + rewrite select_keys_get. apply str_in_list_In in Hk. now rewrite Hk.
    + simpl in Hk. intros <-. intuition discriminate.
Qed.

Lemma query_and_format_witness :
  fst (build_place_query_format sample_point)
  = [("lat", VFloat (-27 # 1)); ("lon", VFloat (-55 # 1))].
Proof.
  apply (query_and_format sample_tables sample_point).
  repeat constructor; simpl; intuition discriminate.
Defined.
